(** * Odds Portal scraper: crawler.py and scraper.py

    A shallow embedding of [full_scraper/oddsportal/crawler.py] and
    [full_scraper/oddsportal/scraper.py], and the properties of the
    pagination resolver, the season discovery, the odds conversion and the
    game assembly that the specification states.

    Conventions of the embedding.
    - A Python [str] is a [string] holding its UTF-8 bytes.  Concatenation,
      [in], [replace] and [split] on valid UTF-8 agree with the same
      operations on code points.  [strip], [int] and [float] read the white
      space and the decimal digits of Unicode 14.0, as Python 3.11 does.
    - A Python [float] is an IEEE 754 double.  A finite value is held as
      the rational it stands for, in lowest terms, with the negative zero
      apart; every operation rounds its exact result to the nearest double,
      ties to even, with gradual underflow and overflow to [inf].
    - A raised exception is a value of [exn]; a computation that may raise
      returns a [result].
    - The browser (Selenium) and the HTML query library (pyquery, lxml) are
      interfaces, [Browser] and [PyQuery]; the functions of the two
      source files are written over any implementation of them.
    - Logging, [print], [time.sleep] and the debug dumps of the page source
      (each inside its own [try]) have no effect on the values modelled and
      are left out. *)

From Stdlib Require Import ZArith QArith Qround Qpower Qabs Lia Lqa Ascii String.
From stdpp Require Import base option list strings pretty gmap.

Set Warnings "-register-all".

Local Open Scope Z_scope.
Local Open Scope string_scope.
Local Open Scope list_scope.

(** ** Python values and built-ins *)

Module Py.

(** Exception classes raised by the modelled code.  [RuntimeError] keeps
    its arguments and Selenium's exceptions their message; Selenium's
    [NoSuchElementException] and [TimeoutException] derive from
    [WebDriverException]. *)
Inductive exn :=
  | ValueError
  | ZeroDivisionError
  | OverflowError
  | IndexError
  | KeyError
  | AttributeError
  | RuntimeError (args : list string)
  | NoSuchElementException (msg : string)
  | WebDriverException (msg : string)
  | TimeoutException (msg : string).

Inductive result (A : Type) :=
  | Ok (a : A)
  | Raise (e : exn).
Arguments Ok {A} a.
Arguments Raise {A} e.

Definition is_ok {A} (r : result A) : bool :=
  match r with Ok _ => true | Raise _ => false end.

(** [except Exception]: every class above derives from [Exception]. *)
Definition any_exception (e : exn) : bool := true.

Definition value_or_zero_division (e : exn) : bool :=
  match e with
  | ValueError | ZeroDivisionError => true
  | _ => false
  end.

(** [except WebDriverException] *)
Definition webdriver_exception (e : exn) : bool :=
  match e with
  | NoSuchElementException _ | WebDriverException _ | TimeoutException _ => true
  | _ => false
  end.

(** [str(e)] of an exception, as far as the code reads it. *)
Definition str_of_exn (e : exn) : string :=
  match e with
  | NoSuchElementException m | WebDriverException m | TimeoutException m => m
  | _ => EmptyString
  end.

(** [l[i]] for an index from the front. *)
Definition index {A} (l : list A) (i : nat) : result A :=
  match l !! i with
  | Some a => Ok a
  | None => Raise IndexError
  end.

(** [l[-6:-3]]: both bounds count from the end and are clipped at the
    front. *)
Definition slice_m6_m3 {A} (l : list A) : list A :=
  let n := length l in
  let start := (n - 6)%nat in
  let stop := (n - 3)%nat in
  take (stop - start) (drop start l).

(** [range(a, b)] *)
Definition range (a b : Z) : list Z :=
  (fun k => a + Z.of_nat k) <$> seq 0 (Z.to_nat (b - a)).

(** *** Strings *)

Definition ascii_eqb (a b : ascii) : bool := bool_decide (a = b).

Fixpoint startswith (p s : string) : bool :=
  match p, s with
  | EmptyString, _ => true
  | String a p', String b s' => ascii_eqb a b && startswith p' s'
  | String _ _, EmptyString => false
  end.

(** [sub in s] *)
Fixpoint contains (sub s : string) : bool :=
  startswith sub s ||
  match s with
  | EmptyString => false
  | String _ s' => contains sub s'
  end.

(** [s.replace(old, new)] for a non-empty [old]: every occurrence, left to
    right, without overlap.  [skip] counts the bytes of a matched [old]
    still to be dropped. *)
Fixpoint replace_from (old new : string) (skip : nat) (s : string) : string :=
  match s with
  | EmptyString => EmptyString
  | String c s' =>
      match skip with
      | S k => replace_from old new k s'
      | O =>
          if startswith old s
          then new +:+ replace_from old new (String.length old - 1) s'
          else String c (replace_from old new 0 s')
      end
  end.

(** With an empty [old] Python puts [new] before every character and at
    the end. *)
Fixpoint intersperse_str (new s : string) : string :=
  match s with
  | EmptyString => new
  | String c s' => new +:+ String c (intersperse_str new s')
  end.

Definition replace (old new s : string) : string :=
  match old with
  | EmptyString => intersperse_str new s
  | String _ _ => replace_from old new 0 s
  end.

(** [s.split(sep)] for a non-empty [sep]; [cur] is the piece being read. *)
Fixpoint split_from (sep : string) (skip : nat) (cur s : string) : list string :=
  match s with
  | EmptyString => [cur]
  | String c s' =>
      match skip with
      | S k => split_from sep k cur s'
      | O =>
          if startswith sep s
          then cur :: split_from sep (String.length sep - 1) EmptyString s'
          else split_from sep 0 (cur +:+ String c EmptyString) s'
      end
  end.

Definition split (sep s : string) : result (list string) :=
  match sep with
  | EmptyString => Raise ValueError
  | String _ _ => Ok (split_from sep 0 EmptyString s)
  end.

(** *** Code points *)

Definition byte (c : ascii) : Z := Z.of_nat (nat_of_ascii c).
Definition chr (n : Z) : ascii := ascii_of_nat (Z.to_nat n).

(** The code points of a string.  [need] counts the continuation bytes
    still to be read for the code point [acc]. *)
Fixpoint decode_from (need : nat) (acc : Z) (s : string) : list Z :=
  match s with
  | EmptyString => []
  | String c s' =>
      let n := byte c in
      match need with
      | S O => (acc * 64 + n mod 64) :: decode_from 0 0 s'
      | S k => decode_from k (acc * 64 + n mod 64) s'
      | O =>
          if (n <? 128)%Z then n :: decode_from 0 0 s'
          else if (n <? 224)%Z then decode_from 1 (n mod 32) s'
          else if (n <? 240)%Z then decode_from 2 (n mod 16) s'
          else decode_from 3 (n mod 8) s'
      end
  end.

Definition decode_utf8 (s : string) : list Z := decode_from 0 0 s.

(** The UTF-8 bytes of a code point. *)
Definition encode_utf8 (c : Z) : string :=
  let tail n := chr (128 + n mod 64) in
  if (c <? 128)%Z then String (chr c) EmptyString
  else if (c <? 2048)%Z then
    String (chr (192 + c / 64)) (String (tail c) EmptyString)
  else if (c <? 65536)%Z then
    String (chr (224 + c / 4096)) (String (tail (c / 64)) (String (tail c) EmptyString))
  else
    String (chr (240 + c / 262144))
      (String (tail (c / 4096)) (String (tail (c / 64)) (String (tail c) EmptyString))).

(** The characters of a string, each as its bytes. *)
Definition chars_of (s : string) : list string := encode_utf8 <$> decode_utf8 s.

(** The code points for which [str.isspace] holds. *)
Definition unicode_spaces : list Z :=
  [9; 10; 11; 12; 13; 28; 29; 30; 31; 32; 133; 160; 5760;
   8192; 8193; 8194; 8195; 8196; 8197; 8198; 8199; 8200; 8201; 8202;
   8232; 8233; 8239; 8287; 12288].

Definition is_unicode_space (c : Z) : bool := bool_decide (c ∈ unicode_spaces).

(** The first code point of each run of ten decimal digits (category Nd);
    the digit at offset [i] of a run has the value [i]. *)
Definition decimal_runs : list Z :=
  [48; 1632; 1776; 1984; 2406; 2534; 2662; 2790; 2918; 3046; 3174; 3302; 3430;
   3558; 3664; 3792; 3872; 4160; 4240; 6112; 6160; 6470; 6608; 6784; 6800; 6992;
   7088; 7232; 7248; 42528; 43216; 43264; 43472; 43504; 43600; 44016; 65296;
   66720; 68912; 69734; 69872; 69942; 70096; 70384; 70736; 70864; 71248; 71360;
   71472; 71904; 72016; 72784; 73040; 73120; 92768; 92864; 93008; 120782;
   120792; 120802; 120812; 120822; 123200; 123632; 125264; 130032].

Definition decimal_of (c : Z) : option Z :=
  match List.find (fun s => (s <=? c)%Z && (c <=? s + 9)%Z) decimal_runs with
  | Some s => Some (c - s)
  | None => None
  end.

(** What [int] and [float] read of a [str]: a code point below 127 as it
    is, any other white space as a space, any other decimal digit as its
    ASCII digit, and a question mark for anything else. *)
Definition ascii_of_code_point (c : Z) : ascii :=
  if (c <? 127)%Z then chr c
  else if is_unicode_space c then " "%char
  else match decimal_of c with
       | Some d => chr (48 + d)
       | None => "?"%char
       end.

Definition transform_decimal_and_space (s : string) : string :=
  string_of_list_ascii (ascii_of_code_point <$> decode_utf8 s).

(** [s.lstrip(chars)], with the characters to drop given each as its
    bytes.  [skip] counts the bytes of a dropped character still to be
    passed. *)
Fixpoint lstrip_from (drops : list string) (skip : nat) (s : string) : string :=
  match s with
  | EmptyString => EmptyString
  | String c s' =>
      match skip with
      | S k => lstrip_from drops k s'
      | O =>
          match List.find (fun p => startswith p s) drops with
          | Some p => lstrip_from drops (String.length p - 1) s'
          | None => s
          end
      end
  end.

Definition strip_of (drops : list string) (s : string) : string :=
  String.rev
    (lstrip_from (String.rev <$> drops) 0 (String.rev (lstrip_from drops 0 s))).

(** [s.strip()] *)
Definition strip (s : string) : string := strip_of (encode_utf8 <$> unicode_spaces) s.

(** [s.strip(chars)] *)
Definition strip_chars (chars s : string) : string := strip_of (chars_of chars) s.

(** White space for the parsers of [int] and [float]: the space and the
    characters from tab to carriage return. *)
Definition c_spaces : list string := encode_utf8 <$> [32; 9; 10; 11; 12; 13].

(** Truth value of a string: non-empty. *)
Definition str_truthy (s : string) : bool :=
  match s with EmptyString => false | String _ _ => true end.

(** *** Integers *)

(** [str(i)], for the numbers the code converts: page numbers that [int]
    has read, and the numbers below them. *)
Definition str_of_int (i : Z) : string := pretty i.

Definition digit_of (c : ascii) : option Z :=
  let n := nat_of_ascii c in
  if ((48 <=? n)%nat && (n <=? 57)%nat) then Some (Z.of_nat n - 48) else None.

Definition is_underscore (c : ascii) : bool := ascii_eqb c "_"%char.

(** A run of decimal digits in which single underscores may separate
    digits: the value read so far, the number of digits, and the rest.
    [after_digit] tells whether the previous character was a digit. *)
Fixpoint digits_from (acc : Z) (n : nat) (after_digit : bool) (s : string)
    : Z * nat * string :=
  match s with
  | EmptyString => (acc, n, s)
  | String c s' =>
      match digit_of c with
      | Some d => digits_from (10 * acc + d) (S n) true s'
      | None =>
          if is_underscore c && after_digit then
            match s' with
            | String c' _ =>
                if bool_decide (is_Some (digit_of c'))
                then digits_from acc n false s'
                else (acc, n, s)
            | EmptyString => (acc, n, s)
            end
          else (acc, n, s)
      end
  end.

Definition digits (s : string) : Z * nat * string := digits_from 0 0 false s.

(** An optional sign: the factor and the rest. *)
Definition sign_of (s : string) : Z * string :=
  match s with
  | String "-" s' => (-1, s')
  | String "+" s' => (1, s')
  | _ => (1, s)
  end.

(** The most digits [int] reads (Python 3.11). *)
Definition max_str_digits : nat := 4300.

(** [int(s)] for a [str]: white space around, a sign, decimal digits. *)
Definition int_of_str (s : string) : result Z :=
  let '(sg, body) := sign_of (strip_of c_spaces (transform_decimal_and_space s)) in
  match digits body with
  | (v, S n, EmptyString) =>
      if (S n <=? max_str_digits)%nat then Ok (sg * v) else Raise ValueError
  | _ => Raise ValueError
  end.

(** *** Floats *)

(** [Finite q] is a finite double other than [-0.0], [NegZero] is
    [-0.0]. *)
Inductive pyfloat :=
  | Finite (q : Q)
  | NegZero
  | PosInf
  | NegInf
  | NaN.

(** The integer nearest to [q], the even one of the two when [q] lies
    half way. *)
Definition round_half_even (q : Q) : Z :=
  let f := Qfloor q in
  match (q - inject_Z f ?= 1 # 2)%Q with
  | Lt => f
  | Gt => f + 1
  | Eq => if Z.even f then f else f + 1
  end.

(** [v] is an integer nearest to [x], and the even one when [x] lies half
    way between two integers. *)
Definition nearest_even (v : Z) (x : Q) : Prop :=
  (Qabs (inject_Z v - x) <= 1 # 2)%Q /\
  ((Qabs (inject_Z v - x) == 1 # 2)%Q -> Z.even v = true).

(** The format: 53 bits of precision, the exponent of the last place of
    the subnormal numbers, and the first power of two out of range. *)
Definition precision : Z := 53.
Definition emin : Z := -1074.
Definition emax : Z := 1024.

(** [floor (log2 q)] of a positive [q]. *)
Definition ilog2 (q : Q) : Z :=
  let k := Z.log2 (Qnum q) - Z.log2 (Zpos (Qden q)) in
  if Qle_bool (2 ^ k) q then k else k - 1.

(** The exponent of the last place of the doubles around a positive
    [q]. *)
Definition ulp_exponent (q : Q) : Z := Z.max (ilog2 q - (precision - 1)) emin.

(** The multiple of the last place nearest to a positive [q], ties to the
    even one. *)
Definition nearest (q : Q) : Q :=
  let e := ulp_exponent q in
  (inject_Z (round_half_even (q / 2 ^ e)) * 2 ^ e)%Q.

(** The same for any [q], before the test for overflow. *)
Definition rnd (q : Q) : Q :=
  match (q ?= 0)%Q with
  | Eq => 0%Q
  | Gt => nearest q
  | Lt => (- nearest (- q))%Q
  end.

(** The double nearest to the exact result [q].  [negative_zero] is the
    sign of the result when [q] is zero. *)
Definition round64 (negative_zero : bool) (q : Q) : pyfloat :=
  match (q ?= 0)%Q with
  | Eq => if negative_zero then NegZero else Finite 0
  | Gt =>
      let r := nearest q in
      if Qle_bool (2 ^ emax) r then PosInf
      else if Qeq_bool r 0 then Finite 0 else Finite (Qred r)
  | Lt =>
      let r := nearest (- q) in
      if Qle_bool (2 ^ emax) r then NegInf
      else if Qeq_bool r 0 then NegZero else Finite (Qred (- r))
  end.

(** A value of the type that is a double. *)
Definition is_double (x : pyfloat) : Prop :=
  match x with
  | Finite q => round64 false q = Finite q
  | _ => True
  end.

(** The number a finite float stands for. *)
Definition value (x : pyfloat) : option Q :=
  match x with
  | Finite q => Some q
  | NegZero => Some 0%Q
  | _ => None
  end.

Definition Qneg (q : Q) : bool := negb (Qle_bool 0 q).

(** The sign bit. *)
Definition negative (x : pyfloat) : bool :=
  match x with
  | Finite q => Qneg q
  | NegZero | NegInf => true
  | PosInf | NaN => false
  end.

Definition is_zero (x : pyfloat) : bool :=
  match value x with
  | Some q => Qeq_bool q 0
  | None => false
  end.

Definition inf_of_sign (negative : bool) : pyfloat :=
  if negative then NegInf else PosInf.

(** [x - y] *)
Definition fsub (x y : pyfloat) : pyfloat :=
  match value x, value y with
  | Some a, Some b => round64 (negative x && negb (negative y)) (a - b)
  | _, _ =>
      match x, y with
      | NaN, _ | _, NaN => NaN
      | PosInf, PosInf | NegInf, NegInf => NaN
      | PosInf, _ | _, NegInf => PosInf
      | _, _ => NegInf
      end
  end.

(** [x * y] *)
Definition fmul (x y : pyfloat) : pyfloat :=
  match value x, value y with
  | Some a, Some b => round64 (xorb (negative x) (negative y)) (a * b)
  | _, _ =>
      match x, y with
      | NaN, _ | _, NaN => NaN
      | _, _ =>
          if is_zero x || is_zero y then NaN
          else inf_of_sign (xorb (negative x) (negative y))
      end
  end.

(** [x / y]: a zero divisor raises, whatever the dividend. *)
Definition fdiv (x y : pyfloat) : result pyfloat :=
  if is_zero y then Raise ZeroDivisionError
  else
    match value x, value y with
    | Some a, Some b => Ok (round64 (xorb (negative x) (negative y)) (a / b))
    | Some _, None =>
        match y with
        | NaN => Ok NaN
        | _ => Ok (round64 (xorb (negative x) (negative y)) 0)
        end
    | None, Some _ =>
        match x with
        | NaN => Ok NaN
        | _ => Ok (inf_of_sign (xorb (negative x) (negative y)))
        end
    | None, None => Ok NaN
    end.

(** The order of two floats, none when one of them is [nan]. *)
Definition fcmp (x y : pyfloat) : option comparison :=
  match x, y with
  | NaN, _ | _, NaN => None
  | PosInf, PosInf | NegInf, NegInf => Some Eq
  | PosInf, _ | _, NegInf => Some Gt
  | NegInf, _ | _, PosInf => Some Lt
  | _, _ =>
      match value x, value y with
      | Some a, Some b => Some (a ?= b)%Q
      | _, _ => None
      end
  end.

(** [x >= y] *)
Definition fge (x y : pyfloat) : bool :=
  match fcmp x y with
  | Some Gt | Some Eq => true
  | _ => false
  end.

(** [x < y] *)
Definition flt (x y : pyfloat) : bool :=
  match fcmp x y with
  | Some Lt => true
  | _ => false
  end.

(** [round(x)] with one argument: an [int], or an error on [inf] and
    [nan]. *)
Definition round (x : pyfloat) : result Z :=
  match x with
  | Finite q => Ok (round_half_even q)
  | NegZero => Ok 0
  | PosInf | NegInf => Raise OverflowError
  | NaN => Raise ValueError
  end.

Definition lower (c : ascii) : ascii :=
  let n := nat_of_ascii c in
  if ((65 <=? n)%nat && (n <=? 90)%nat) then ascii_of_nat (n + 32) else c.

Fixpoint lower_str (s : string) : string :=
  match s with
  | EmptyString => EmptyString
  | String c s' => String (lower c) (lower_str s')
  end.

(** [m * 10 ^ k] as a rational. *)
Definition scale10 (m k : Z) : Q :=
  if (0 <=? k)%Z then inject_Z (m * 10 ^ k) else Qmake m (Z.to_pos (10 ^ (- k))).

(** The exponent part of a float literal: [e], a sign, digits. *)
Definition exponent_of (s : string) : option (Z * string) :=
  match s with
  | String c r =>
      if ascii_eqb (lower c) "e"%char then
        let '(sg, r') := sign_of r in
        match digits r' with
        | (v, S _, rest) => Some (sg * v, rest)
        | _ => None
        end
      else Some (0, s)
  | EmptyString => Some (0, s)
  end.

(** [float(s)] for a [str]: white space around, a sign, then [inf],
    [infinity] or [nan] in any case, or digits with an optional fraction
    and exponent; the value is the double nearest to the decimal number. *)
Definition float_of_str (s : string) : result pyfloat :=
  let '(sg, body) := sign_of (strip_of c_spaces (transform_decimal_and_space s)) in
  let word := lower_str body in
  if bool_decide (word = "inf") || bool_decide (word = "infinity")
  then Ok (inf_of_sign (sg <? 0)%Z)
  else if bool_decide (word = "nan") then Ok NaN
  else
    let '(ip, ni, r1) := digits body in
    let '(fp, nf, r2) :=
      match r1 with
      | String "." r => digits r
      | _ => (0, 0%nat, r1)
      end in
    match (ni + nf)%nat, exponent_of r2 with
    | S _, Some (e, EmptyString) =>
        Ok (round64 (sg <? 0)%Z
              (scale10 (sg * (ip * 10 ^ Z.of_nat nf + fp)) (e - Z.of_nat nf)))
    | _, _ => Raise ValueError
    end.

(** *** Statements that mutate an object and may raise

    A computation over a state [S]: what it returns or raises, and the
    state it leaves.  What was written before an exception stays written. *)

Definition M (S A : Type) : Type := S -> result A * S.

Definition ret {S A} (a : A) : M S A := fun s => (Ok a, s).

Definition bind {S A B} (m : M S A) (f : A -> M S B) : M S B := fun s =>
  match m s with
  | (Ok a, s') => f a s'
  | (Raise e, s') => (Raise e, s')
  end.

Definition raise {S A} (e : exn) : M S A := fun s => (Raise e, s).

Definition lift {S A} (r : result A) : M S A := fun s => (r, s).

Definition modify {S} (f : S -> S) : M S unit := fun s => (Ok tt, f s).

Definition gets {S A} (f : S -> A) : M S A := fun s => (Ok (f s), s).

(** [try: m except (classes): h]: the handler runs on the listed classes
    only, any other exception passes through. *)
Definition try_catch {S A} (m : M S A) (catches : exn -> bool)
    (h : exn -> M S A) : M S A := fun s =>
  match m s with
  | (Ok a, s') => (Ok a, s')
  | (Raise e, s') => if catches e then h e s' else (Raise e, s')
  end.

(** [if c: m] *)
Definition when {S} (c : bool) (m : M S unit) : M S unit :=
  if c then m else ret tt.

(** [for x in l: body x] *)
Fixpoint for_each {S A} (l : list A) (body : A -> M S unit) : M S unit :=
  match l with
  | [] => ret tt
  | x :: l' => bind (body x) (fun _ => for_each l' body)
  end.

End Py.

Declare Scope py_scope.
Delimit Scope py_scope with py.
Notation "x <- m ;; k" := (Py.bind m (fun x => k))
  (at level 100, m at next level, right associativity) : py_scope.
Notation "m ;; k" := (Py.bind m (fun _ => k))
  (at level 100, right associativity) : py_scope.

(** ** The records of models.py *)

Module Models.

Inductive outcome_t := HOME | AWAY | DRAW | UNKNOWN.

(** Modelled from the spec: [models.py], which declares [Game], is not
    among the source files.  The specification's data model lists these
    fields; the scores, odds, team names and the public percentage are
    nullable, and [outcome] is one of HOME, AWAY, DRAW, UNKNOWN, UNKNOWN
    when nothing was derived.  [None] is an absent field. *)
Record Game := {
  retrieval_url : option string;
  retrieval_datetime : option string;
  game_url : option string;
  num_possible_outcomes : option Z;
  team_home : option string;
  team_away : option string;
  score_home : option Z;
  score_away : option Z;
  outcome : outcome_t;
  odds_home : option Z;
  odds_away : option Z;
  odds_draw : option Z;
  final_odds_home : option Z;
  final_odds_away : option Z;
  final_odds_draw : option Z;
  pub_percent : option Py.pyfloat;
}.

(** Modelled from the spec: the constructor [Game()] of the absent
    [models.py]; every field starts absent and the outcome UNKNOWN. *)
Definition Game_new : Game := {|
  retrieval_url := None;
  retrieval_datetime := None;
  game_url := None;
  num_possible_outcomes := None;
  team_home := None;
  team_away := None;
  score_home := None;
  score_away := None;
  outcome := UNKNOWN;
  odds_home := None;
  odds_away := None;
  odds_draw := None;
  final_odds_home := None;
  final_odds_away := None;
  final_odds_draw := None;
  pub_percent := None;
|}.

(** Assignments [game.field = v]. *)
Definition set_retrieval_url (v : option string) (g : Game) : Game :=
  {| retrieval_url := v; retrieval_datetime := retrieval_datetime g; game_url := game_url g; num_possible_outcomes := num_possible_outcomes g; team_home := team_home g; team_away := team_away g; score_home := score_home g; score_away := score_away g; outcome := outcome g; odds_home := odds_home g; odds_away := odds_away g; odds_draw := odds_draw g; final_odds_home := final_odds_home g; final_odds_away := final_odds_away g; final_odds_draw := final_odds_draw g; pub_percent := pub_percent g |}.

Definition set_retrieval_datetime (v : option string) (g : Game) : Game :=
  {| retrieval_url := retrieval_url g; retrieval_datetime := v; game_url := game_url g; num_possible_outcomes := num_possible_outcomes g; team_home := team_home g; team_away := team_away g; score_home := score_home g; score_away := score_away g; outcome := outcome g; odds_home := odds_home g; odds_away := odds_away g; odds_draw := odds_draw g; final_odds_home := final_odds_home g; final_odds_away := final_odds_away g; final_odds_draw := final_odds_draw g; pub_percent := pub_percent g |}.

Definition set_game_url (v : option string) (g : Game) : Game :=
  {| retrieval_url := retrieval_url g; retrieval_datetime := retrieval_datetime g; game_url := v; num_possible_outcomes := num_possible_outcomes g; team_home := team_home g; team_away := team_away g; score_home := score_home g; score_away := score_away g; outcome := outcome g; odds_home := odds_home g; odds_away := odds_away g; odds_draw := odds_draw g; final_odds_home := final_odds_home g; final_odds_away := final_odds_away g; final_odds_draw := final_odds_draw g; pub_percent := pub_percent g |}.

Definition set_num_possible_outcomes (v : option Z) (g : Game) : Game :=
  {| retrieval_url := retrieval_url g; retrieval_datetime := retrieval_datetime g; game_url := game_url g; num_possible_outcomes := v; team_home := team_home g; team_away := team_away g; score_home := score_home g; score_away := score_away g; outcome := outcome g; odds_home := odds_home g; odds_away := odds_away g; odds_draw := odds_draw g; final_odds_home := final_odds_home g; final_odds_away := final_odds_away g; final_odds_draw := final_odds_draw g; pub_percent := pub_percent g |}.

Definition set_team_home (v : option string) (g : Game) : Game :=
  {| retrieval_url := retrieval_url g; retrieval_datetime := retrieval_datetime g; game_url := game_url g; num_possible_outcomes := num_possible_outcomes g; team_home := v; team_away := team_away g; score_home := score_home g; score_away := score_away g; outcome := outcome g; odds_home := odds_home g; odds_away := odds_away g; odds_draw := odds_draw g; final_odds_home := final_odds_home g; final_odds_away := final_odds_away g; final_odds_draw := final_odds_draw g; pub_percent := pub_percent g |}.

Definition set_team_away (v : option string) (g : Game) : Game :=
  {| retrieval_url := retrieval_url g; retrieval_datetime := retrieval_datetime g; game_url := game_url g; num_possible_outcomes := num_possible_outcomes g; team_home := team_home g; team_away := v; score_home := score_home g; score_away := score_away g; outcome := outcome g; odds_home := odds_home g; odds_away := odds_away g; odds_draw := odds_draw g; final_odds_home := final_odds_home g; final_odds_away := final_odds_away g; final_odds_draw := final_odds_draw g; pub_percent := pub_percent g |}.

Definition set_score_home (v : option Z) (g : Game) : Game :=
  {| retrieval_url := retrieval_url g; retrieval_datetime := retrieval_datetime g; game_url := game_url g; num_possible_outcomes := num_possible_outcomes g; team_home := team_home g; team_away := team_away g; score_home := v; score_away := score_away g; outcome := outcome g; odds_home := odds_home g; odds_away := odds_away g; odds_draw := odds_draw g; final_odds_home := final_odds_home g; final_odds_away := final_odds_away g; final_odds_draw := final_odds_draw g; pub_percent := pub_percent g |}.

Definition set_score_away (v : option Z) (g : Game) : Game :=
  {| retrieval_url := retrieval_url g; retrieval_datetime := retrieval_datetime g; game_url := game_url g; num_possible_outcomes := num_possible_outcomes g; team_home := team_home g; team_away := team_away g; score_home := score_home g; score_away := v; outcome := outcome g; odds_home := odds_home g; odds_away := odds_away g; odds_draw := odds_draw g; final_odds_home := final_odds_home g; final_odds_away := final_odds_away g; final_odds_draw := final_odds_draw g; pub_percent := pub_percent g |}.

Definition set_outcome (v : outcome_t) (g : Game) : Game :=
  {| retrieval_url := retrieval_url g; retrieval_datetime := retrieval_datetime g; game_url := game_url g; num_possible_outcomes := num_possible_outcomes g; team_home := team_home g; team_away := team_away g; score_home := score_home g; score_away := score_away g; outcome := v; odds_home := odds_home g; odds_away := odds_away g; odds_draw := odds_draw g; final_odds_home := final_odds_home g; final_odds_away := final_odds_away g; final_odds_draw := final_odds_draw g; pub_percent := pub_percent g |}.

Definition set_odds_home (v : option Z) (g : Game) : Game :=
  {| retrieval_url := retrieval_url g; retrieval_datetime := retrieval_datetime g; game_url := game_url g; num_possible_outcomes := num_possible_outcomes g; team_home := team_home g; team_away := team_away g; score_home := score_home g; score_away := score_away g; outcome := outcome g; odds_home := v; odds_away := odds_away g; odds_draw := odds_draw g; final_odds_home := final_odds_home g; final_odds_away := final_odds_away g; final_odds_draw := final_odds_draw g; pub_percent := pub_percent g |}.

Definition set_odds_away (v : option Z) (g : Game) : Game :=
  {| retrieval_url := retrieval_url g; retrieval_datetime := retrieval_datetime g; game_url := game_url g; num_possible_outcomes := num_possible_outcomes g; team_home := team_home g; team_away := team_away g; score_home := score_home g; score_away := score_away g; outcome := outcome g; odds_home := odds_home g; odds_away := v; odds_draw := odds_draw g; final_odds_home := final_odds_home g; final_odds_away := final_odds_away g; final_odds_draw := final_odds_draw g; pub_percent := pub_percent g |}.

Definition set_odds_draw (v : option Z) (g : Game) : Game :=
  {| retrieval_url := retrieval_url g; retrieval_datetime := retrieval_datetime g; game_url := game_url g; num_possible_outcomes := num_possible_outcomes g; team_home := team_home g; team_away := team_away g; score_home := score_home g; score_away := score_away g; outcome := outcome g; odds_home := odds_home g; odds_away := odds_away g; odds_draw := v; final_odds_home := final_odds_home g; final_odds_away := final_odds_away g; final_odds_draw := final_odds_draw g; pub_percent := pub_percent g |}.

Definition set_final_odds_home (v : option Z) (g : Game) : Game :=
  {| retrieval_url := retrieval_url g; retrieval_datetime := retrieval_datetime g; game_url := game_url g; num_possible_outcomes := num_possible_outcomes g; team_home := team_home g; team_away := team_away g; score_home := score_home g; score_away := score_away g; outcome := outcome g; odds_home := odds_home g; odds_away := odds_away g; odds_draw := odds_draw g; final_odds_home := v; final_odds_away := final_odds_away g; final_odds_draw := final_odds_draw g; pub_percent := pub_percent g |}.

Definition set_final_odds_away (v : option Z) (g : Game) : Game :=
  {| retrieval_url := retrieval_url g; retrieval_datetime := retrieval_datetime g; game_url := game_url g; num_possible_outcomes := num_possible_outcomes g; team_home := team_home g; team_away := team_away g; score_home := score_home g; score_away := score_away g; outcome := outcome g; odds_home := odds_home g; odds_away := odds_away g; odds_draw := odds_draw g; final_odds_home := final_odds_home g; final_odds_away := v; final_odds_draw := final_odds_draw g; pub_percent := pub_percent g |}.

Definition set_final_odds_draw (v : option Z) (g : Game) : Game :=
  {| retrieval_url := retrieval_url g; retrieval_datetime := retrieval_datetime g; game_url := game_url g; num_possible_outcomes := num_possible_outcomes g; team_home := team_home g; team_away := team_away g; score_home := score_home g; score_away := score_away g; outcome := outcome g; odds_home := odds_home g; odds_away := odds_away g; odds_draw := odds_draw g; final_odds_home := final_odds_home g; final_odds_away := final_odds_away g; final_odds_draw := v; pub_percent := pub_percent g |}.

Definition set_pub_percent (v : option Py.pyfloat) (g : Game) : Game :=
  {| retrieval_url := retrieval_url g; retrieval_datetime := retrieval_datetime g; game_url := game_url g; num_possible_outcomes := num_possible_outcomes g; team_home := team_home g; team_away := team_away g; score_home := score_home g; score_away := score_away g; outcome := outcome g; odds_home := odds_home g; odds_away := odds_away g; odds_draw := odds_draw g; final_odds_home := final_odds_home g; final_odds_away := final_odds_away g; final_odds_draw := final_odds_draw g; pub_percent := v |}.

(** Modelled from the spec: [Season] of the absent [models.py]: a name,
    the number of possible outcomes (2 or 3), the page URLs in order and
    the games in order. *)
Record Season := {
  name : string;
  possible_outcomes : Z;
  urls : list string;
  games : list Game;
}.

(** Modelled from the spec: the constructor [Season(name)]; no URL and no
    game yet.  The number of possible outcomes it starts with is not
    stated, so it is an argument. *)
Definition Season_new (outcomes : Z) (n : string) : Season :=
  {| name := n; possible_outcomes := outcomes; urls := []; games := [] |}.

(** [season.urls.append(u)] *)
Definition urls_append (u : string) (s : Season) : Season :=
  {| name := name s; possible_outcomes := possible_outcomes s;
     urls := urls s ++ [u]; games := games s |}.

(** Modelled from the spec: [season.add_game(game)] of the absent
    [models.py]; [games] is an append-only sequence. *)
Definition add_game (g : Game) (s : Season) : Season :=
  {| name := name s; possible_outcomes := possible_outcomes s;
     urls := urls s; games := games s ++ [g] |}.

(** Truth value of a nullable string and of a nullable integer, as the
    completeness test reads them: [None], the empty string and 0 are
    false. *)
Definition truthy_str (o : option string) : bool :=
  match o with
  | Some s => Py.str_truthy s
  | None => false
  end.

Definition truthy_int (o : option Z) : bool :=
  match o with
  | Some z => negb (z =? 0)%Z
  | None => false
  end.

End Models.

(** ** Documents and selectors *)

Module Dom.

(** An element of the parsed page, as lxml gives it: tag, attributes, the
    text before the first child, and the children in document order. *)
Inductive element := Element {
  tag : string;
  attrib : gmap string string;
  text : option string;
  children : list element;
}.

(** [e.attrib[k]] *)
Definition attrib_get (k : string) (e : element) : Py.result string :=
  match attrib e !! k with
  | Some v => Py.Ok v
  | None => Py.Raise Py.KeyError
  end.

(** [e.find(t)] of lxml with a bare tag name: the first child with that
    tag, or [None]. *)
Definition find_child (t : string) (e : element) : option element :=
  List.find (fun c => bool_decide (tag c = t)) (children e).

(** The CSS selectors the two files use.  A compound selector is a list of
    simple ones; [PFirst] and [PLast] are pyquery's [:first] and [:last]. *)
Inductive simple :=
  | Tag (t : string)
  | Cls (c : string)
  | Ident (i : string)
  | HasAttr (a : string)
  | AttrEq (a v : string)
  | AttrSub (a v : string)
  | PFirst
  | PLast.

Inductive selector :=
  | Compound (c : list simple)
  | Descendant (s : selector) (c : list simple)
  | Child (s : selector) (c : list simple).

(** The HTML query library: [pq(sel)] and [pq.find(sel)] on a document or
    an element wrapped by [pyquery(...)], and [.text()] of a result. *)
Class PyQuery := {
  pq_select : selector -> element -> list element;
  pq_find : selector -> element -> list element;
  pq_text : list element -> string;
}.

(** [.attr(k)] of a result: the attribute of its first element, [None]
    when there is none. *)
Definition pq_attr (k : string) (l : list element) : option string :=
  match l with
  | e :: _ => attrib e !! k
  | [] => None
  end.

(** The browser session.  [driver_get] is [driver.get(url)];
    [find_elements] gives the texts of the elements a CSS selector finds;
    [page_source] is the document [pyquery(driver.page_source)] builds,
    or what reading or parsing the source raises;
    [wait_until] is [WebDriverWait(driver, 10).until(condition)];
    [localtime] is the clock [time.strftime] reads. *)
Class Browser (D : Type) := {
  driver_get : string -> D -> Py.result unit * D;
  find_elements : selector -> D -> Py.result (list string);
  page_source : D -> Py.result element;
  wait_until : (D -> Py.result bool) -> D -> Py.result unit * D;
  localtime : D -> string;
}.

(** [driver.find_element(By.CSS_SELECTOR, sel).text] *)
Definition find_element `{Browser D} (sel : selector) (d : D) : Py.result string :=
  match find_elements sel d with
  | Py.Ok (t :: _) => Py.Ok t
  | Py.Ok [] => Py.Raise (Py.NoSuchElementException EmptyString)
  | Py.Raise e => Py.Raise e
  end.

End Dom.

(** ** crawler.py *)

Module Crawler.
Import Py Models Dom.

Section crawler.
Context {D : Type} `{Browser D} `{PyQuery}.

(** The number of possible outcomes [Season(name)] starts with (see
    [Season_new]). *)
Variable default_outcomes : Z.

(** The selectors [go_to_link] probes, in its order: [.button-dark],
    [button[data-login]], [a[href*=login]], [#login-button],
    [div[class*=main]], [div[class*=content]], [nav], [header], [table],
    [div[class*=odds]]. *)
Definition probe_selectors : list selector :=
  [ Compound [Cls "button-dark"];
    Compound [Tag "button"; HasAttr "data-login"];
    Compound [Tag "a"; AttrSub "href" "login"];
    Compound [Ident "login-button"];
    Compound [Tag "div"; AttrSub "class" "main"];
    Compound [Tag "div"; AttrSub "class" "content"];
    Compound [Tag "nav"];
    Compound [Tag "header"];
    Compound [Tag "table"];
    Compound [Tag "div"; AttrSub "class" "odds"] ].

(** The loop over the selectors: [True] at the first one that finds an
    element, the next one on [NoSuchElementException], [False] when none
    is left. *)
Fixpoint probe (sels : list selector) (d : D) : result bool :=
  match sels with
  | [] => Ok false
  | sel :: rest =>
      match find_element sel d with
      | Ok _ => Ok true
      | Raise (NoSuchElementException _) => probe rest d
      | Raise e => Raise e
      end
  end.

(** [Crawler.go_to_link]: any exception of the load or of a probe is
    caught and gives [False]. *)
Definition go_to_link (link : string) (d : D) : bool * D :=
  let '(r, d') := driver_get link d in
  match r with
  | Raise _ => (false, d')
  | Ok _ =>
      match probe probe_selectors d' with
      | Ok b => (b, d')
      | Raise _ => (false, d')
      end
  end.

(** [Crawler.get_html_source], parsed by [pyquery]. *)
Definition get_html_source (d : D) : result element := page_source d.

(** The selectors for season links, in their order: [a[href*=/results/]],
    [div[class*=seasons] a], [div[class*=filter] a],
    [div[class*=tournament-nav] a]. *)
Definition season_selectors : list selector :=
  [ Compound [Tag "a"; AttrSub "href" "/results/"];
    Descendant (Compound [Tag "div"; AttrSub "class" "seasons"]) [Tag "a"];
    Descendant (Compound [Tag "div"; AttrSub "class" "filter"]) [Tag "a"];
    Descendant (Compound [Tag "div"; AttrSub "class" "tournament-nav"]) [Tag "a"] ].

(** [for season_link in season_links]: a link whose [href] contains
    [/results/] and whose text is not empty adds a season with that one
    URL.  A link without [href] raises [KeyError]. *)
Fixpoint add_season_links (links : list element) (seasons : list Season)
    : result (list Season) :=
  match links with
  | [] => Ok seasons
  | season_link :: rest =>
      match attrib_get "href" season_link with
      | Raise e => Raise e
      | Ok href =>
          let text := default EmptyString (text season_link) in
          if contains "/results/" href && str_truthy text then
            let this_season := urls_append href (Season_new default_outcomes (strip text)) in
            add_season_links rest (seasons ++ [this_season])
          else add_season_links rest seasons
      end
  end.

(** [for selector in selectors]: every selector is tried, whatever the
    earlier ones found. *)
Fixpoint scan_selectors (sels : list selector) (doc : element)
    (seasons : list Season) : result (list Season) :=
  match sels with
  | [] => Ok seasons
  | sel :: rest =>
      let season_links := pq_find sel doc in
      match season_links with
      | [] => scan_selectors rest doc seasons
      | _ :: _ =>
          match add_season_links season_links seasons with
          | Raise e => Raise e
          | Ok seasons' => scan_selectors rest doc seasons'
          end
      end
  end.

(** [Crawler.get_seasons_for_league] *)
Definition get_seasons_for_league (main_league_results_url : string) (d : D)
    : result (list Season) * D :=
  let '(ok, d') := go_to_link main_league_results_url d in
  if negb ok then (Ok [], d')
  else
    match get_html_source d' with
    | Raise e => (Raise e, d')
    | Ok html_querying => (scan_selectors season_selectors html_querying [], d')
    end.

(** The selector strategy as the specification words it, to compare with
    [scan_selectors]: the patterns are tried in order and the scan stops at
    the first one that yields any match. *)
Fixpoint scan_until_match (sels : list selector) (doc : element)
    : result (list Season) :=
  match sels with
  | [] => Ok []
  | sel :: rest =>
      match pq_find sel doc with
      | [] => scan_until_match rest doc
      | season_links => add_season_links season_links []
      end
  end.

(** [div.message-info > ul > li > div.cms] *)
Definition no_data_selector : selector :=
  Child (Child (Child (Compound [Tag "div"; Cls "message-info"]) [Tag "ul"])
           [Tag "li"]) [Tag "div"; Cls "cms"].

(** [div#pagination > a] *)
Definition pagination_selector : selector :=
  Child (Compound [Tag "div"; Ident "pagination"]) [Tag "a"].

(** The test of the scan for the last page: the link's first [span] child
    has a text that contains the two characters of the last-page mark. *)
Definition has_last_page_mark (link : element) : bool :=
  match find_child "span" link with
  | Some span =>
      match text span with
      | Some t => contains "»|" t
      | None => false
      end
  | None => false
  end.

(** [for link in reversed(pagination_links)] up to its [break]:
    [last_page_number] and [last_page_url], [-1] and [None] when no link
    has the mark.  [links] is the reversed sequence. *)
Fixpoint locate_last_page (links : list element) (first_url_in_season : string)
    : result (Z * option string) :=
  match links with
  | [] => Ok (-1, None)
  | link :: rest =>
      if has_last_page_mark link then
        match attrib_get "x-page" link with
        | Raise e => Raise e
        | Ok x_page =>
            match int_of_str x_page with
            | Raise e => Raise e
            | Ok last_page_number =>
                match attrib_get "href" link with
                | Raise e => Raise e
                | Ok href => Ok (last_page_number, Some (first_url_in_season +:+ href))
                end
            end
        end
      else locate_last_page rest first_url_in_season
  end.

(** The URL of page [i], from the URL of the last page. *)
Definition page_url (last_page_url : string) (last_page_number i : Z) : string :=
  replace ("page/" +:+ str_of_int last_page_number) ("page/" +:+ str_of_int i)
    last_page_url.

(** [for i in range(2, last_page_number): season.urls.append(this_url)] *)
Fixpoint append_page_urls (indices : list Z) (last_page_url : string)
    (last_page_number : Z) (season : Season) : Season :=
  match indices with
  | [] => season
  | i :: rest =>
      append_page_urls rest last_page_url last_page_number
        (urls_append (page_url last_page_url last_page_number i) season)
  end.

Definition no_final_page_message : string :=
  "Could not locate final page URL from %s".

(** [Crawler.fill_in_season_pagination_links]: what it returns or raises,
    the season as it leaves it, and the browser.  The value of
    [go_to_link] is not read. *)
Definition fill_in_season_pagination_links (season : Season) (d : D)
    : result unit * Season * D :=
  match urls season with
  | [] => (Raise IndexError, season, d)
  | first_url_in_season :: _ =>
      let '(_, d1) := go_to_link first_url_in_season d in
      match get_html_source d1 with
      | Raise e => (Raise e, season, d1)
      | Ok html_querying =>
      let no_data_div := pq_find no_data_selector html_querying in
      if bool_decide (pq_text no_data_div = "No data available")
      then (Ok tt, season, d1)
      else
        let pagination_links := pq_find pagination_selector html_querying in
        if (length pagination_links <=? 1)%nat then (Ok tt, season, d1)
        else
          match locate_last_page (rev pagination_links) first_url_in_season with
          | Raise e => (Raise e, season, d1)
          | Ok (last_page_number, last_page_url) =>
              if (last_page_number =? -1)%Z
              then (Raise (RuntimeError [no_final_page_message; first_url_in_season]),
                    season, d1)
              else
                match last_page_url with
                | None => (Raise AttributeError, season, d1)
                | Some last_url =>
                    let season' :=
                      append_page_urls (range 2 last_page_number) last_url
                        last_page_number season in
                    (Ok tt, urls_append last_url season', d1)
                end
          end
      end
  end.

End crawler.
End Crawler.

(** ** scraper.py *)

Module Scraper.
Import Py Models Dom.
Local Open Scope py_scope.

(** The conversion of decimal odds to a moneyline, the expression
    [round((x - 1) * 100) if x >= 2.00 else round(-100 / (x - 1))] that
    [populate_games_into_season] applies to each odds value it reads. *)
Definition normalize (decimal_odds : pyfloat) : result Z :=
  if fge decimal_odds (Finite 2)
  then round (fmul (fsub decimal_odds (Finite 1)) (Finite 100))
  else
    match fdiv (Finite (-100)) (fsub decimal_odds (Finite 1)) with
    | Ok x => round x
    | Raise e => Raise e
    end.

(** [float(text)] followed by the conversion. *)
Definition odds_of_text (t : string) : result Z :=
  match float_of_str t with
  | Ok x => normalize x
  | Raise e => Raise e
  end.

Definition nonempty {A} (l : list A) : bool :=
  match l with [] => false | _ :: _ => true end.

(** [game_link != EmptyString and game_link is not None] *)
Definition link_present (game_link : option string) : option string :=
  match game_link with
  | Some l => if str_truthy l then Some l else None
  | None => None
  end.

(** The completeness test before [season.add_game]. *)
Definition complete (g : Game) : bool :=
  truthy_str (team_home g) && truthy_str (team_away g) &&
  truthy_int (odds_home g) && truthy_int (odds_away g).

(** [Determine outcome]: only with both scores. *)
Definition determine_outcome (g : Game) : Game :=
  match score_home g, score_away g with
  | Some h, Some a =>
      if (h >? a)%Z then set_outcome HOME g
      else if (h <? a)%Z then set_outcome AWAY g
      else set_outcome DRAW g
  | _, _ => g
  end.

(** The four fields a game must have. *)
Definition has_required_fields (g : Game) : Prop :=
  is_Some (team_home g) /\ is_Some (team_away g) /\
  is_Some (odds_home g) /\ is_Some (odds_away g).

(** Both scores or none. *)
Definition scores_paired (g : Game) : Prop :=
  is_Some (score_home g) <-> is_Some (score_away g).

(** The outcome as the scores decide it. *)
Definition outcome_follows_scores (g : Game) : Prop :=
  (outcome g = HOME <->
   exists h a, score_home g = Some h /\ score_away g = Some a /\ (h > a)%Z) /\
  (outcome g = AWAY <->
   exists h a, score_home g = Some h /\ score_away g = Some a /\ (h < a)%Z) /\
  (outcome g = DRAW <->
   exists h a, score_home g = Some h /\ score_away g = Some a /\ h = a) /\
  (outcome g = UNKNOWN <-> score_home g = None \/ score_away g = None).

(** What holds of a game that was added to a season. *)
Definition emitted (g : Game) : Prop :=
  complete g = true /\ scores_paired g /\ outcome_follows_scores g.

Section scraper.
Context {D : Type} `{Browser D} `{PyQuery}.

Definition base_url : string := "https://www.oddsportal.com".

(** [.button-dark], [div[class*=main]], [table] *)
Definition probe_selectors : list selector :=
  [ Compound [Cls "button-dark"];
    Compound [Tag "div"; AttrSub "class" "main"];
    Compound [Tag "table"] ].

Fixpoint probe (sels : list selector) (d : D) : result bool :=
  match sels with
  | [] => Ok false
  | sel :: rest =>
      match find_element sel d with
      | Ok _ => Ok true
      | Raise (NoSuchElementException _) => probe rest d
      | Raise e => Raise e
      end
  end.

(** The body of the [try] of one attempt. *)
Definition attempt (link : string) (d : D) : result bool * D :=
  let '(r, d') := driver_get link d in
  match r with
  | Raise e => (Raise e, d')
  | Ok _ => (probe probe_selectors d', d')
  end.

(** [for attempt in range(max_retries)]: a [WebDriverException] whose
    text names a DNS failure goes to the next attempt, any other one gives
    [False]; an exception of another class leaves the method. *)
Fixpoint go_to_link_from (attempts : nat) (link : string) (d : D) : result bool * D :=
  match attempts with
  | O => (Ok false, d)
  | S k =>
      let '(r, d') := attempt link d in
      match r with
      | Ok b => (Ok b, d')
      | Raise e =>
          if webdriver_exception e then
            if contains "ERR_NAME_NOT_RESOLVED" (str_of_exn e)
            then go_to_link_from k link d'
            else (Ok false, d')
          else (Raise e, d')
      end
  end.

(** [Scraper.go_to_link] *)
Definition go_to_link (link : string) (d : D) : result bool * D :=
  go_to_link_from 3 link d.

(** [Scraper.get_html_source], parsed by [pyquery]. *)
Definition get_html_source (d : D) : result element := page_source d.

(** The state of one row: the [Game] being filled and the browser. *)
Record row_state := { game : Game; driver : D }.

Definition set_game (f : Game -> Game) : M row_state unit :=
  modify (fun st => {| game := f (game st); driver := driver st |}).

Definition navigate (link : string) : M row_state bool := fun st =>
  let '(r, d') := go_to_link link (driver st) in
  (r, {| game := game st; driver := d' |}).

(** [pyquery(self.get_html_source())] on the browser of the row. *)
Definition read_source : M row_state element := fun st =>
  (get_html_source (driver st), st).

Definition event_row_selector : selector :=
  Compound [Tag "div"; AttrSub "class" "eventRow"].
Definition game_link_selector : selector :=
  Compound [Tag "a"; AttrSub "href" "/american-football/"].
Definition average_odds_selector : selector :=
  Compound [Tag "p"; AttrEq "class" "height-content"].
Definition home_selector : selector :=
  Compound [Tag "p"; Cls "participant-name"; PFirst].
Definition away_selector : selector :=
  Compound [Tag "p"; Cls "participant-name"; PLast].
Definition score_selector : selector :=
  Compound [Tag "div"; AttrSub "class" "flex gap-1 font-bold"].
Definition row_odds_selector : selector :=
  Compound [Tag "p"; AttrSub "class" "height-content !text-black-main"].
Definition percentage_selector : selector :=
  Compound [Tag "div";
            AttrEq "class" "height-content absolute w-full cursor-pointer text-center"].

(** The body of one odds [try]: the element, its text as a float, the
    conversion, the assignment. *)
Definition read_odds (set : option Z -> Game -> Game) (elem : result element)
    : M row_state unit :=
  e <- lift elem ;;
  v <- lift (odds_of_text (pq_text [e])) ;;
  set_game (set (Some v)).

(** The body of the [try] around the average odds.  The handlers of the
    home and away odds format [home_odds_elem.text()], and a list has no
    [text]: they raise [AttributeError]. *)
Definition average_odds (outcomes : Z) (game_query : element) : M row_state unit :=
  let home_odds_elem := slice_m6_m3 (pq_select average_odds_selector game_query) in
  when (nonempty home_odds_elem)
    (try_catch (read_odds set_odds_home (index home_odds_elem 0))
       value_or_zero_division (fun _ => raise AttributeError) ;;
     try_catch (read_odds set_odds_away (index home_odds_elem 1))
       value_or_zero_division (fun _ => raise AttributeError)) ;;
  when (outcomes =? 3)%Z
    (try_catch (read_odds set_odds_draw (index home_odds_elem 2))
       value_or_zero_division (fun _ => ret tt)).

(** The first block under [game_link]: the average odds view.  The page
    source is read before the [try] around the odds. *)
Definition average_odds_view (outcomes : Z) (game_link : option string)
    : M row_state unit :=
  match link_present game_link with
  | Some l =>
      let u := base_url +:+ l +:+ "#home-away;8" in
      set_game (set_game_url (Some u)) ;;
      ok <- navigate u ;;
      when ok
        (game_query <- read_source ;;
         try_catch (average_odds outcomes game_query) any_exception (fun _ => ret tt))
  | None => ret tt
  end.

(** [Get teams] *)
Definition teams (row : element) : M row_state unit :=
  let home_elem := pq_select home_selector row in
  let away_elem := pq_select away_selector row in
  when (nonempty home_elem && nonempty away_elem)
    (set_game (set_team_home (Some (strip (pq_text home_elem)))) ;;
     set_game (set_team_away (Some (strip (pq_text away_elem))))).

(** [Get scores]: the two parts around an en dash. *)
Definition scores (row : element) : M row_state unit :=
  let score_elem := pq_select score_selector row in
  when (nonempty score_elem)
    (parts <- lift (split "–" (pq_text score_elem)) ;;
     match parts with
     | [a; b] =>
         h <- lift (int_of_str (strip a)) ;;
         set_game (set_score_home (Some h)) ;;
         w <- lift (int_of_str (strip b)) ;;
         set_game (set_score_away (Some w))
     | _ => ret tt
     end).

(** [Set metadata] *)
Definition metadata (outcomes : Z) (url : string) : M row_state unit :=
  now <- gets (fun st => localtime (driver st)) ;;
  set_game (set_retrieval_datetime (Some now)) ;;
  set_game (set_retrieval_url (Some url)) ;;
  set_game (set_num_possible_outcomes (Some outcomes)).

(** One turn of [for i, odd_elem in enumerate(odds_elems)]. *)
Definition final_odds_of (outcomes : Z) (item : nat * element) : M row_state unit :=
  let '(i, odd_elem) := item in
  odd_text <- lift (odds_of_text (pq_text [odd_elem])) ;;
  match i with
  | 0%nat => set_game (set_final_odds_home (Some odd_text))
  | 1%nat => set_game (set_final_odds_away (Some odd_text))
  | 2%nat => when (outcomes =? 3)%Z (set_game (set_final_odds_draw (Some odd_text)))
  | _ => ret tt
  end.

Definition enumerate {A} (l : list A) : list (nat * A) := zip (seq 0 (length l)) l.

(** [Get initial odds from the main page] *)
Definition final_odds (outcomes : Z) (row : element) : M row_state unit :=
  let odds_elems := pq_select row_odds_selector row in
  for_each (enumerate odds_elems) (final_odds_of outcomes).

(** [check_percentage_loaded] *)
Definition check_percentage_loaded (d : D) : result bool :=
  match find_elements percentage_selector d with
  | Ok elements =>
      Ok (nonempty elements && existsb (fun t => negb (bool_decide (t = "0%"))) elements)
  | Raise e => Raise e
  end.

Definition wait_for_percentage : M row_state unit := fun st =>
  let '(r, d') := wait_until check_percentage_loaded (driver st) in
  (r, {| game := game st; driver := d' |}).

(** The second block under [game_link]: the public percentage view.  The
    page source is read, when the page loaded, before the [try]; what was
    read is not used. *)
Definition public_percentage (game_link : option string) : M row_state unit :=
  match link_present game_link with
  | Some l =>
      let u := base_url +:+ l +:+ "#home-away;1" in
      set_game (set_game_url (Some u)) ;;
      ok <- navigate u ;;
      when ok (_ <- read_source ;; ret tt) ;;
      try_catch
        (wait_for_percentage ;;
         percentage_text <-
           (fun st => (find_element percentage_selector (driver st), st)) ;;
         when (str_truthy percentage_text && contains "%" percentage_text)
           (p <- lift (float_of_str (strip_chars "%" percentage_text)) ;;
            set_game (set_pub_percent (Some p))))
        any_exception (fun _ => ret tt)
  | None => ret tt
  end.

(** The body of the [try] of one row, up to the completeness test. *)
Definition row_body (outcomes : Z) (url : string) (row : element) : M row_state unit :=
  let game_link := pq_attr "href" (pq_select game_link_selector row) in
  average_odds_view outcomes game_link ;;
  teams row ;;
  scores row ;;
  metadata outcomes url ;;
  final_odds outcomes row ;;
  set_game determine_outcome ;;
  public_percentage game_link.

(** One turn of [for row in game_rows]: a complete game is added, and any
    exception ends the row without a game. *)
Definition process_row (url : string) (season : Season) (d : D) (row : element)
    : Season * D :=
  match row_body (possible_outcomes season) url row {| game := Game_new; driver := d |} with
  | (Ok _, st) =>
      (if complete (game st) then add_game (game st) season else season, driver st)
  | (Raise _, st) => (season, driver st)
  end.

Fixpoint process_rows (url : string) (rows : list element) (season : Season) (d : D)
    : Season * D :=
  match rows with
  | [] => (season, d)
  | row :: rest =>
      let '(season', d') := process_row url season d row in
      process_rows url rest season' d'
  end.

(** [for url in season.urls]: a page that does not load is skipped; the
    page source is read outside every [try]. *)
Fixpoint populate_pages (pages : list string) (season : Season) (d : D)
    : result unit * Season * D :=
  match pages with
  | [] => (Ok tt, season, d)
  | url :: rest =>
      match go_to_link url d with
      | (Raise e, d') => (Raise e, season, d')
      | (Ok false, d') => populate_pages rest season d'
      | (Ok true, d') =>
          match get_html_source d' with
          | Raise e => (Raise e, season, d')
          | Ok html_querying =>
              let game_rows := pq_select event_row_selector html_querying in
              let '(season', d'') := process_rows url game_rows season d' in
              populate_pages rest season' d''
          end
      end
  end.

(** [Scraper.populate_games_into_season] *)
Definition populate_games_into_season (season : Season) (d : D)
    : result unit * Season * D :=
  populate_pages (urls season) season d.

(** The fields of a game that the outcome is derived from, with the
    outcome. *)
Definition result_fields (g : Game) : option Z * option Z * outcome_t :=
  (score_home g, score_away g, outcome g).

(** A statement that leaves those fields of the game as they are, on
    every exit. *)
Definition keeps {A} (m : M row_state A) : Prop :=
  forall st, result_fields (game (m st).2) = result_fields (game st).

End scraper.
End Scraper.

(** ** A static site

    An implementation of the two interfaces on which the functions above
    can be run: pages are element trees, the browser holds the page it
    loaded last, and the selectors are matched on the tree. *)

Module Static.
Import Py Models Dom.

(** The tokens of the [class] attribute. *)
Definition classes (e : element) : list string :=
  match attrib e !! "class" with
  | Some c => String.words c
  | None => []
  end.

Definition matches_simple (e : element) (s : simple) : bool :=
  match s with
  | Tag t => bool_decide (tag e = t)
  | Cls c => bool_decide (c ∈ classes e)
  | Ident i => bool_decide (attrib e !! "id" = Some i)
  | HasAttr a => bool_decide (is_Some (attrib e !! a))
  | AttrEq a v => bool_decide (attrib e !! a = Some v)
  | AttrSub a v =>
      match attrib e !! a with
      | Some x => str_truthy v && contains v x
      | None => false
      end
  | PFirst | PLast => true
  end.

Definition matches_compound (e : element) (c : list simple) : bool :=
  forallb (matches_simple e) c.

(** [e] with its ancestors, nearest first, matches the selector. *)
Fixpoint matches (s : selector) (e : element) (ancestors : list element) : bool :=
  match s with
  | Compound c => matches_compound e c
  | Child s' c =>
      matches_compound e c &&
      match ancestors with
      | p :: up => matches s' p up
      | [] => false
      end
  | Descendant s' c =>
      matches_compound e c &&
      (fix some_ancestor (l : list element) : bool :=
         match l with
         | [] => false
         | p :: up => matches s' p up || some_ancestor up
         end) ancestors
  end.

(** The elements of a tree in document order, each with its ancestors. *)
Fixpoint walk (ancestors : list element) (e : element) : list (element * list element) :=
  let 'Element _ _ _ cs := e in
  (e, ancestors) ::
  (fix walk_all (l : list element) : list (element * list element) :=
     match l with
     | [] => []
     | c :: l' => (walk (e :: ancestors) c ++ walk_all l')%list
     end) cs.

Definition last_compound (s : selector) : list simple :=
  match s with
  | Compound c | Descendant _ c | Child _ c => c
  end.

(** [:first] and [:last] keep one element of what the rest matched. *)
Definition apply_pseudo (c : list simple) (l : list element) : list element :=
  if existsb (fun s => match s with PFirst => true | _ => false end) c then take 1 l
  else if existsb (fun s => match s with PLast => true | _ => false end) c
       then option_list (last l)
       else l.

Definition select_from (nodes : list (element * list element)) (s : selector)
    : list element :=
  apply_pseudo (last_compound s)
    (fst <$> List.filter (fun n => matches s n.1 n.2) nodes).

(** The text of an element and of what is below it. *)
Fixpoint text_content (e : element) : string :=
  let 'Element _ _ t cs := e in
  default EmptyString t +:+
  (fix all (l : list element) : string :=
     match l with
     | [] => EmptyString
     | c :: l' => text_content c +:+ all l'
     end) cs.

Fixpoint join (sep : string) (l : list string) : string :=
  match l with
  | [] => EmptyString
  | [x] => x
  | x :: l' => x +:+ sep +:+ join sep l'
  end.

#[global] Instance pyquery : PyQuery := {|
  pq_select s root := select_from (walk [] root) s;
  pq_find s root := select_from (tail (walk [] root)) s;
  pq_text l := join " " ((fun e => strip (text_content e)) <$> l);
|}.

(** The browser: the pages by URL and the page loaded last. *)
Record browser := {
  site : gmap string element;
  current : element;
}.

Definition blank_page : element := Element "html" ∅ None [].

Definition connection_refused : string := "net::ERR_CONNECTION_REFUSED".

Definition timed_out : string := "timed out".

#[global] Instance static_browser : Browser browser := {|
  driver_get url b :=
    match site b !! url with
    | Some page => (Ok tt, {| site := site b; current := page |})
    | None => (Raise (WebDriverException connection_refused), b)
    end;
  find_elements s b := Ok ((fun e => strip (text_content e)) <$> pq_select s (current b));
  page_source b := Ok (current b);
  wait_until condition b :=
    match condition b with
    | Ok true => (Ok tt, b)
    | Ok false | Raise (NoSuchElementException _) => (Raise (TimeoutException timed_out), b)
    | Raise e => (Raise e, b)
    end;
  localtime b := "2024-01-01 00:00:00";
|}.

(** Builders for pages. *)
Definition attrs (l : list (string * string)) : gmap string string := list_to_map l.

Definition node (t : string) (a : list (string * string)) (cs : list element) : element :=
  Element t (attrs a) None cs.

Definition leaf (t : string) (a : list (string * string)) (txt : string) : element :=
  Element t (attrs a) (Some txt) [].

Definition open_at (pages : list (string * element)) : browser :=
  {| site := list_to_map pages; current := blank_page |}.

End Static.

(** ** Pages to run the functions on *)

Module Examples.
Import Py Models Dom Static.

Definition results_url : string :=
  "https://www.oddsportal.com/hockey/usa/nhl/results/".

(** [<a href=#/page/n/ x-page=n><span>label</span></a>] *)
Definition anchor (n label : string) : element :=
  node "a" [("href", "#/page/" +:+ n +:+ "/"); ("x-page", n)] [leaf "span" [] label].

Definition pagination (anchors : list element) : element :=
  node "div" [("id", "pagination")] anchors.

(** [<div class=message-info><ul><li><div class=cms>text</div></li></ul></div>] *)
Definition message (txt : string) : element :=
  node "div" [("class", "message-info")]
    [node "ul" [] [node "li" [] [leaf "div" [("class", "cms")] txt]]].

Definition page (body : list element) : element :=
  node "html" [] [node "body" [] body].

Definition nhl_season : Season := urls_append results_url (Season_new 2 "2023/2024").

(** A results page with a table and five pagination anchors, the last one
    with the last-page mark. *)
Definition five_anchors : list element :=
  [anchor "1" "1"; anchor "2" "2"; anchor "3" "3"; anchor "4" "4"; anchor "5" "»|"].

Definition five_pages : browser :=
  open_at [(results_url, page [node "table" [] []; pagination five_anchors])].

(** A page that shows the message for no data above three pagination
    anchors, the last one with the mark. *)
Definition three_anchors : list element :=
  [anchor "1" "1"; anchor "2" "2"; anchor "3" "»|"].

Definition no_data_with_pages : browser :=
  open_at [(results_url,
            page [node "table" [] []; message "No data available";
                  pagination three_anchors])].

(** A page whose only pagination anchor has the mark. *)
Definition one_anchor : browser :=
  open_at [(results_url, page [node "table" [] []; pagination [anchor "3" "»|"]])].

(** A page with two pagination anchors and no mark. *)
Definition two_plain_anchors : list element := [anchor "1" "1"; anchor "2" "2"].

Definition unmarked_pages : browser :=
  open_at [(results_url, page [node "table" [] []; pagination two_plain_anchors])].

(** The same two anchors under the message for no data. *)
Definition no_data_unmarked : browser :=
  open_at [(results_url,
            page [node "table" [] []; message "No data available";
                  pagination two_plain_anchors])].

(** A page that holds the pagination and nothing that [go_to_link] probes
    for. *)
Definition bare_pages : browser :=
  open_at [(results_url, page [pagination three_anchors])].

(** A league page with one season link inside [<div class=seasons-list>]. *)
Definition league_url : string := "https://www.oddsportal.com/hockey/usa/nhl/results/".

Definition season_link : element :=
  Element "a" (attrs [("href", "/hockey/usa/nhl-2022-2023/results/")])
    (Some "2022/2023") [].

Definition league_page : element :=
  page [node "table" [] []; node "div" [("class", "seasons-list")] [season_link]].

Definition league : browser := open_at [(league_url, league_page)].

(** A results page with one event row, Bears against Lions 3 to 1 with
    the odds 1.91 and 1.91, and the detail page of the event. *)
Definition nfl_url : string :=
  "https://www.oddsportal.com/american-football/usa/nfl/results/".

Definition game_link : string := "/american-football/usa/nfl/bears-lions-abc/".

Definition event_row (score : string) : element :=
  node "div" [("class", "eventRow flex")]
    [ node "a" [("href", game_link)]
        [leaf "p" [("class", "participant-name truncate")] "Bears";
         leaf "p" [("class", "participant-name truncate")] "Lions"];
      leaf "div" [("class", "flex gap-1 font-bold")] score;
      leaf "p" [("class", "height-content !text-black-main")] "1.91";
      leaf "p" [("class", "height-content !text-black-main")] "1.91" ].

Definition detail_page : element :=
  page [ node "table" [] [];
         leaf "p" [("class", "height-content")] "1.91";
         leaf "p" [("class", "height-content")] "1.91";
         leaf "p" [("class", "height-content")] "-";
         leaf "p" [("class", "height-content")] "1.95";
         leaf "p" [("class", "height-content")] "1.95";
         leaf "p" [("class", "height-content")] "-";
         leaf "div"
           [("class", "height-content absolute w-full cursor-pointer text-center")]
           "45%" ].

Definition nfl_site (score : string) : browser :=
  open_at [ (nfl_url, page [node "table" [] []; event_row score]);
            (Scraper.base_url +:+ game_link +:+ "#home-away;8", detail_page);
            (Scraper.base_url +:+ game_link +:+ "#home-away;1", detail_page) ].

Definition nfl_season : Season := urls_append nfl_url (Season_new 2 "2023").

(** The summary of a game that the examples compare. *)
Definition summary (g : Game) :=
  (team_home g, team_away g, score_home g, score_away g, outcome g,
   odds_home g, odds_away g).

End Examples.

(** ** Definitions for the properties *)

Module Support.
Import Py Models Dom Static Examples.

(** [old] occurs in [p +:+ rest] at an offset inside [p]. *)
Fixpoint occurs_within (old p rest : string) : bool :=
  match p with
  | EmptyString => false
  | String c p' => startswith old (p +:+ rest) || occurs_within old p' rest
  end.

(** The season [s] was built from one of the links: its single URL is the
    link's [href], which contains [/results/], its name is the link's
    non-empty text stripped, and it has no game. *)
Definition built_from (default_outcomes : Z) (links : list element) (s : Season) : Prop :=
  exists link href txt,
    link ∈ links /\ attrib link !! "href" = Some href /\ text link = Some txt /\
    contains "/results/" href = true /\ str_truthy txt = true /\
    s = {| name := strip txt; possible_outcomes := default_outcomes;
           urls := [href]; games := [] |}.

(** [<a attributes><span>»|</span></a>], a marked anchor with the given
    attributes. *)
Definition marked_anchor (a : list (string * string)) : element :=
  node "a" a [leaf "span" [] "»|"].

(** A results page whose pagination ends with the given anchor. *)
Definition pages_ending_with (last : element) : browser :=
  open_at [(results_url, page [node "table" [] []; pagination [anchor "1" "1"; last]])].

(** The marked anchor without [x-page], with an [x-page] that is no
    number, without [href], and with [x-page = -1]. *)
Definition no_x_page : browser := pages_ending_with (marked_anchor [("href", "#/page/2/")]).
Definition word_x_page : browser :=
  pages_ending_with (marked_anchor [("href", "#/page/2/"); ("x-page", "last")]).
Definition no_href : browser := pages_ending_with (marked_anchor [("x-page", "2")]).
Definition minus_one_x_page : browser :=
  pages_ending_with (marked_anchor [("href", "#/page/2/"); ("x-page", "-1")]).

(** The marked anchor with [x-page = 3] and an [href] without [page/3]. *)
Definition other_href : browser :=
  pages_ending_with (marked_anchor [("href", "#/p/3/"); ("x-page", "3")]).

(** A season whose URL has a [page/3] of its own, and its page with three
    anchors. *)
Definition front_page_url : string := "https://www.oddsportal.com/frontpage/3/results/".

Definition front_page_season : Season :=
  urls_append front_page_url (Season_new 2 "2023/2024").

Definition front_page_site : browser :=
  open_at [(front_page_url, page [node "table" [] []; pagination three_anchors])].

(** The marked anchor with [x-page = 1]. *)
Definition one_page_marked : browser :=
  pages_ending_with (marked_anchor [("href", "#/page/1/"); ("x-page", "1")]).

(** A league page with an anchor that has no [href] inside
    [<div class=seasons>], after a season link. *)
Definition league_without_href_page : element :=
  page [node "table" [] [];
        season_link;
        node "div" [("class", "seasons")] [leaf "a" [] "2021/2022"]].

Definition league_without_href : browser :=
  open_at [(league_url, league_without_href_page)].


(** A statement that leaves a part of the game as it is, on every exit. *)
Definition stable {D X A : Type} (part : Game -> X)
    (m : M (@Scraper.row_state D) A) : Prop :=
  forall st, part (Scraper.game (m st).2) = part (Scraper.game st).

(** The fields written by [Set metadata]. *)
Definition metadata_fields (g : Game) : option string * option string * option Z :=
  (retrieval_url g, retrieval_datetime g, num_possible_outcomes g).

(** The two draw fields. *)
Definition draw_fields (g : Game) : option Z * option Z :=
  (odds_draw g, final_odds_draw g).

(** The two odds the completeness test reads. *)
Definition odds_fields (g : Game) : option Z * option Z :=
  (odds_home g, odds_away g).

(** What was raised is a [WebDriverException] or one of its subclasses. *)
Definition raises_selenium {A} (r : result A) : bool :=
  match r with
  | Raise e => webdriver_exception e
  | Ok _ => false
  end.

(** The browser after [k] loads of the link in a row. *)
Fixpoint load_times {D : Type} `{Browser D} (k : nat) (link : string) (d : D) : D :=
  match k with
  | O => d
  | S k' => load_times k' link (driver_get link d).2
  end.

Definition name_not_resolved : string := "unknown error: net::ERR_NAME_NOT_RESOLVED".

(** A browser without name resolution: every load raises the DNS error,
    and the state counts the loads. *)
#[global] Instance offline : Browser nat := {|
  driver_get url n := (Raise (WebDriverException name_not_resolved), S n);
  find_elements s n := Ok [];
  page_source n := Ok blank_page;
  wait_until condition n := (Raise (TimeoutException timed_out), n);
  localtime n := EmptyString;
|}.

Definition invalid_session : string := "invalid session id".

(** A browser that loses its session once a page has loaded: the load
    and the probes succeed, and reading the page source raises. *)
#[global] Instance stale : Browser unit := {|
  driver_get url u := (Ok tt, u);
  find_elements s u := Ok [EmptyString];
  page_source u := Raise (WebDriverException invalid_session);
  wait_until condition u := (Raise (TimeoutException timed_out), u);
  localtime u := EmptyString;
|}.

(** The row of the examples with other texts for its two odds. *)
Definition event_row_with_odds (home away : string) : element :=
  node "div" [("class", "eventRow flex")]
    [ node "a" [("href", game_link)]
        [leaf "p" [("class", "participant-name truncate")] "Bears";
         leaf "p" [("class", "participant-name truncate")] "Lions"];
      leaf "div" [("class", "flex gap-1 font-bold")] "3–1";
      leaf "p" [("class", "height-content !text-black-main")] home;
      leaf "p" [("class", "height-content !text-black-main")] away ].

(** A row of another sport: its link has no [/american-football/]. *)
Definition hockey_row : element :=
  node "div" [("class", "eventRow flex")]
    [ node "a" [("href", "/hockey/usa/nhl/bruins-rangers-xyz/")]
        [leaf "p" [("class", "participant-name truncate")] "Bruins";
         leaf "p" [("class", "participant-name truncate")] "Rangers"];
      leaf "div" [("class", "flex gap-1 font-bold")] "3–1";
      leaf "p" [("class", "height-content !text-black-main")] "1.91";
      leaf "p" [("class", "height-content !text-black-main")] "1.91" ].

(** What [populate_games_into_season] reads for the odds of a game [g]:
    the row's link [l], the detail page that the average odds view of [l]
    loaded, and the first two elements of the slice of that page. *)
Definition odds_read_from_detail_page {D : Type} `{Browser D} `{PyQuery} (g : Game) : Prop :=
  exists (l : string) (d0 d1 : D) (game_query e0 e1 : element) (rest : list element)
      (v w : Z),
    str_truthy l = true /\
    game_url g = Some (Scraper.base_url +:+ l +:+ "#home-away;1") /\
    Scraper.go_to_link (Scraper.base_url +:+ l +:+ "#home-away;8") d0 = (Ok true, d1) /\
    Scraper.get_html_source d1 = Ok game_query /\
    slice_m6_m3 (pq_select Scraper.average_odds_selector game_query)
    = e0 :: e1 :: rest /\
    Scraper.odds_of_text (pq_text [e0]) = Ok v /\
    Scraper.odds_of_text (pq_text [e1]) = Ok w /\
    odds_home g = Some v /\ odds_away g = Some w /\ v <> 0 /\ w <> 0.

(** The three odds read from the row. *)
Definition final_fields (g : Game) : option Z * option Z * option Z :=
  (final_odds_home g, final_odds_away g, final_odds_draw g).

(** [field] holds the conversion of the text of the element at position
    [i], and nothing when there is no such element. *)
Definition converted `{PyQuery} (elems : list element) (i : nat) (field : option Z) : Prop :=
  match elems !! i with
  | Some e => exists v, Scraper.odds_of_text (pq_text [e]) = Ok v /\ field = Some v
  | None => field = None
  end.

(** What [populate_games_into_season] reads for the row odds of a game
    [g] of the row [row]. *)
Definition row_odds_read `{PyQuery} (outcomes : Z) (row : element) (g : Game) : Prop :=
  let elems := pq_select Scraper.row_odds_selector row in
  converted elems 0 (final_odds_home g) /\
  converted elems 1 (final_odds_away g) /\
  if (outcomes =? 3)%Z then converted elems 2 (final_odds_draw g)
  else final_odds_draw g = None.

End Support.

(** * Properties *)

(** ** Rounding to a double *)

Module FloatFacts.
Import Py Scraper.
Local Open Scope Q_scope.


Lemma two_pow_pos (k : Z) : 0 < 2 ^ k.
Proof. apply Qpower_0_lt. reflexivity. Qed.

Lemma two_pow_succ (k : Z) : 2 ^ (k + 1) == 2 * 2 ^ k.
Proof. rewrite Qpower_plus by discriminate. change (2 ^ 1) with 2. ring. Qed.

Lemma two_pow_inject (k : Z) : (0 <= k)%Z -> inject_Z (2 ^ k) == 2 ^ k.
Proof. intros Hk. now rewrite Zpower_Qpower. Qed.

Lemma ilog2_rough (n : Z) (d : positive) :
  (0 < n)%Z ->
  let k := (Z.log2 n - Z.log2 (Zpos d))%Z in
  2 ^ (k - 1) <= n # d /\ n # d < 2 ^ (k + 1).
Proof.
  intros Hn k.
  destruct (Z.log2_spec n Hn) as [Ha1 Ha2].
  destruct (Z.log2_spec (Zpos d) eq_refl) as [Hb1 Hb2].
  pose proof (Z.log2_nonneg n) as Ha0.
  pose proof (Z.log2_nonneg (Zpos d)) as Hb0.
  set (a := Z.log2 n) in *. set (b := Z.log2 (Z.pos d)) in *.
  assert (Ea : inject_Z (2 ^ a) == 2 ^ a) by now apply two_pow_inject.
  assert (Eb : inject_Z (2 ^ b) == 2 ^ b) by now apply two_pow_inject.
  assert (Ha1q : 2 ^ a <= inject_Z n) by (rewrite <- Ea; now rewrite <- Zle_Qle).
  assert (Hb1q : 2 ^ b <= inject_Z (Zpos d)) by (rewrite <- Eb; now rewrite <- Zle_Qle).
  assert (Ha2q : inject_Z n < 2 * 2 ^ a).
  { rewrite <- Ea. change 2 with (inject_Z 2) at 1. rewrite <- inject_Z_mult, <- Zlt_Qlt.
    replace (Z.succ a) with (a + 1)%Z in Ha2 by lia. rewrite Z.pow_add_r in Ha2; lia. }
  assert (Hb2q : inject_Z (Zpos d) < 2 * 2 ^ b).
  { rewrite <- Eb. change 2 with (inject_Z 2) at 1. rewrite <- inject_Z_mult, <- Zlt_Qlt.
    replace (Z.succ b) with (b + 1)%Z in Hb2 by lia. rewrite Z.pow_add_r in Hb2; lia. }
  assert (Hd : 0 < inject_Z (Zpos d)) by (now rewrite <- (Zlt_Qlt 0)).
  pose proof (two_pow_pos a) as Pa. pose proof (two_pow_pos b) as Pb.
  rewrite (Qmake_Qdiv n d).
  assert (E1 : 2 ^ (k - 1) == 2 ^ a / (2 * 2 ^ b)).
  { unfold k. replace (a - b - 1)%Z with (a - (b + 1))%Z by lia.
    rewrite Qpower_minus by discriminate.
    apply Qdiv_comp; [reflexivity | apply two_pow_succ]. }
  assert (E2 : 2 ^ (k + 1) == 2 * 2 ^ a / 2 ^ b).
  { unfold k. replace (a - b + 1)%Z with ((a + 1) - b)%Z by lia.
    rewrite Qpower_minus by discriminate.
    apply Qdiv_comp; [apply two_pow_succ | reflexivity]. }
  rewrite E1, E2. split.
  - apply Qle_shift_div_l; [exact Hd|].
    setoid_replace (2 ^ a / (2 * 2 ^ b) * inject_Z (Z.pos d))
      with (2 ^ a * inject_Z (Z.pos d) / (2 * 2 ^ b)) using relation Qeq by (field; lra).
    apply Qle_shift_div_r; [lra | nra].
  - apply Qlt_shift_div_r; [exact Hd|].
    setoid_replace (2 * 2 ^ a / 2 ^ b * inject_Z (Z.pos d))
      with (2 * 2 ^ a * inject_Z (Z.pos d) / 2 ^ b) using relation Qeq by (field; lra).
    apply Qlt_shift_div_l; [lra | nra].
Qed.

Lemma ilog2_spec (q : Q) : 0 < q -> 2 ^ ilog2 q <= q /\ q < 2 ^ (ilog2 q + 1).
Proof.
  intros Hq. destruct q as [n d].
  assert (Hn : (0 < n)%Z) by (unfold Qlt in Hq; simpl in Hq; lia).
  destruct (ilog2_rough n d Hn) as [H1 H2]. unfold ilog2. cbn [Qnum Qden].
  set (k := (Z.log2 n - Z.log2 (Zpos d))%Z) in *.
  destruct (Qle_bool (2 ^ k) (n # d)) eqn:Hb.
  - apply Qle_bool_iff in Hb. split; assumption.
  - split; [exact H1|]. replace (k - 1 + 1)%Z with k by lia.
    apply Qnot_le_lt. intros Hle. apply Qle_bool_iff in Hle. congruence.
Qed.

Lemma ilog2_unique (q : Q) (k : Z) : 2 ^ k <= q -> q < 2 ^ (k + 1) -> ilog2 q = k.
Proof.
  intros H1 H2.
  assert (Hq : 0 < q) by (pose proof (two_pow_pos k); lra).
  destruct (ilog2_spec q Hq) as [H3 H4].
  assert (A : (k < ilog2 q + 1)%Z).
  { apply (Qpower_lt_compat_l_inv 2); [lra | reflexivity]. }
  assert (B : (ilog2 q < k + 1)%Z).
  { apply (Qpower_lt_compat_l_inv 2); [lra | reflexivity]. }
  lia.
Qed.

Lemma ilog2_mono (p q : Q) : 0 < p -> p <= q -> (ilog2 p <= ilog2 q)%Z.
Proof.
  intros Hp Hpq.
  destruct (ilog2_spec p Hp) as [H1 H2].
  destruct (ilog2_spec q) as [H3 H4]; [lra|].
  assert (A : (ilog2 p < ilog2 q + 1)%Z).
  { apply (Qpower_lt_compat_l_inv 2); [lra | reflexivity]. }
  lia.
Qed.

Lemma ilog2_comp (p q : Q) : 0 < p -> p == q -> ilog2 p = ilog2 q.
Proof.
  intros Hp Hpq. destruct (ilog2_spec p Hp) as [H1 H2].
  symmetry. apply ilog2_unique; lra.
Qed.

Lemma round_half_even_floor (q : Q) :
  (Qfloor q <= round_half_even q <= Qfloor q + 1)%Z.
Proof.
  unfold round_half_even.
  destruct (q - inject_Z (Qfloor q) ?= 1 # 2); [destruct (Z.even _) | |]; lia.
Qed.

Lemma round_half_even_ge (n : Z) (q : Q) :
  inject_Z n <= q -> (n <= round_half_even q)%Z.
Proof.
  intros Hq. apply Qfloor_resp_le in Hq. rewrite Qfloor_Z in Hq.
  pose proof (round_half_even_floor q). lia.
Qed.

Lemma round_half_even_le (n : Z) (q : Q) :
  q <= inject_Z n -> (round_half_even q <= n)%Z.
Proof.
  intros Hq.
  pose proof (Qfloor_resp_le _ _ Hq) as Hf. rewrite Qfloor_Z in Hf.
  pose proof (round_half_even_floor q) as Hr.
  destruct (Z.eq_dec (Qfloor q) n) as [Heq|Hne]; [|lia].
  unfold round_half_even.
  pose proof (Qfloor_le q) as Hle. rewrite Heq in *.
  assert (Hlt : q - inject_Z n < 1 # 2) by lra.
  rewrite Qlt_alt in Hlt. rewrite Hlt. lia.
Qed.

Lemma round_half_even_mono (p q : Q) :
  p <= q -> (round_half_even p <= round_half_even q)%Z.
Proof.
  intros Hpq.
  pose proof (Qfloor_resp_le _ _ Hpq) as Hf.
  pose proof (round_half_even_floor p) as Hp.
  pose proof (round_half_even_floor q) as Hq.
  destruct (Z.eq_dec (Qfloor p) (Qfloor q)) as [Heq|Hne]; [|lia].
  unfold round_half_even in *. rewrite <- Heq in *.
  destruct (Qcompare_spec (p - inject_Z (Qfloor p)) (1 # 2)) as [Hc|Hc|Hc];
    destruct (Qcompare_spec (q - inject_Z (Qfloor p)) (1 # 2)) as [Hd|Hd|Hd];
    try lia; try (destruct (Z.even (Qfloor p)); lia); exfalso; lra.
Qed.

Lemma round_half_even_comp (p q : Q) : p == q -> round_half_even p = round_half_even q.
Proof.
  intros Hpq. apply Z.le_antisymm; apply round_half_even_mono; lra.
Qed.

Lemma round_half_even_nearest (q : Q) : nearest_even (round_half_even q) q.
Proof.
  unfold nearest_even, round_half_even.
  pose proof (Qfloor_le q) as Hlo. pose proof (Qlt_floor q) as Hhi.
  set (f := Qfloor q) in *.
  assert (Hf1 : inject_Z (f + 1) == inject_Z f + 1) by (rewrite inject_Z_plus; reflexivity).
  destruct (Qcompare_spec (q - inject_Z f) (1 # 2)) as [Hc|Hc|Hc].
  - destruct (Z.even f) eqn:He.
    + split; [apply Qabs_Qle_condition; lra | intros _; exact He].
    + split; [apply Qabs_Qle_condition; lra|]. intros _.
      rewrite Z.even_add, He. reflexivity.
  - split; [apply Qabs_Qle_condition; lra|]. intros Habs. exfalso.
    rewrite Qabs_neg in Habs by lra. lra.
  - split; [apply Qabs_Qle_condition; lra|]. intros Habs. exfalso.
    rewrite Qabs_pos in Habs by lra. lra.
Qed.

(** *** nearest *)

Lemma ulp_exponent_comp (p q : Q) : 0 < p -> p == q -> ulp_exponent p = ulp_exponent q.
Proof. intros Hp Hpq. unfold ulp_exponent. now rewrite (ilog2_comp p q). Qed.

Lemma ulp_exponent_mono (p q : Q) : 0 < p -> p <= q -> (ulp_exponent p <= ulp_exponent q)%Z.
Proof. intros Hp Hpq. unfold ulp_exponent. pose proof (ilog2_mono p q Hp Hpq). lia. Qed.

Lemma nearest_comp (p q : Q) : 0 < p -> p == q -> nearest p == nearest q.
Proof.
  intros Hp Hpq. unfold nearest. rewrite (ulp_exponent_comp p q Hp Hpq).
  rewrite (round_half_even_comp (p / 2 ^ ulp_exponent q) (q / 2 ^ ulp_exponent q)).
  - reflexivity.
  - now rewrite Hpq.
Qed.

Lemma nearest_nonneg (q : Q) : 0 < q -> 0 <= nearest q.
Proof.
  intros Hq. unfold nearest. pose proof (two_pow_pos (ulp_exponent q)) as He.
  apply Qmult_le_0_compat; [|lra].
  change 0 with (inject_Z 0). rewrite <- Zle_Qle. apply round_half_even_ge.
  apply Qle_shift_div_l; [exact He|]. change (inject_Z 0) with 0. lra.
Qed.

(** The scaled value lies below [2 ^ 53], and from [2 ^ 52] on above
    the subnormal range. *)
Lemma scaled_below (q : Q) : 0 < q -> q / 2 ^ ulp_exponent q < 2 ^ precision.
Proof.
  intros Hq. pose proof (two_pow_pos (ulp_exponent q)) as He.
  apply Qlt_shift_div_r; [exact He|].
  rewrite <- Qpower_plus by discriminate.
  destruct (ilog2_spec q Hq) as [_ H2].
  eapply Qlt_le_trans; [exact H2|].
  apply Qpower_le_compat_l; [|lra]. unfold ulp_exponent, precision. lia.
Qed.

Lemma scaled_above (q : Q) :
  0 < q -> (emin < ulp_exponent q)%Z -> 2 ^ (precision - 1) <= q / 2 ^ ulp_exponent q.
Proof.
  intros Hq Hmin. pose proof (two_pow_pos (ulp_exponent q)) as He.
  apply Qle_shift_div_l; [exact He|].
  rewrite <- Qpower_plus by discriminate.
  destruct (ilog2_spec q Hq) as [H1 _].
  eapply Qle_trans; [|exact H1].
  apply Qpower_le_compat_l; [|lra]. unfold ulp_exponent, precision in *. lia.
Qed.

Lemma nearest_mono (p q : Q) : 0 < p -> p <= q -> nearest p <= nearest q.
Proof.
  intros Hp Hpq. assert (Hq : 0 < q) by lra.
  pose proof (ulp_exponent_mono p q Hp Hpq) as He.
  unfold nearest.
  set (e1 := ulp_exponent p) in *. set (e2 := ulp_exponent q) in *.
  pose proof (two_pow_pos e1) as P1. pose proof (two_pow_pos e2) as P2.
  destruct (Z.eq_dec e1 e2) as [Heq|Hne].
  - rewrite <- Heq. apply Qmult_le_compat_r; [|lra].
    rewrite <- Zle_Qle. apply round_half_even_mono.
    apply Qmult_le_compat_r; [exact Hpq|]. apply Qlt_le_weak, Qinv_lt_0_compat, P1.
  - assert (Hlt : (e1 < e2)%Z) by lia.
    assert (H1 : (round_half_even (p / 2 ^ e1) <= 2 ^ precision)%Z).
    { apply round_half_even_le. rewrite two_pow_inject by (unfold precision; lia).
      apply Qlt_le_weak. now apply scaled_below. }
    assert (H2 : (2 ^ (precision - 1) <= round_half_even (q / 2 ^ e2))%Z).
    { apply round_half_even_ge. rewrite two_pow_inject by (unfold precision; lia).
      apply scaled_above; [exact Hq|]. fold e2. unfold ulp_exponent in e1. lia. }
    rewrite Zle_Qle in H1, H2.
    rewrite two_pow_inject in H1 by (unfold precision; lia).
    rewrite two_pow_inject in H2 by (unfold precision; lia).
    apply Qle_trans with (2 ^ precision * 2 ^ e1).
    { apply Qmult_le_compat_r; [exact H1 | lra]. }
    apply Qle_trans with (2 ^ (precision - 1) * 2 ^ e2).
    2:{ apply Qmult_le_compat_r; [exact H2 | lra]. }
    rewrite <- !Qpower_plus by discriminate.
    apply Qpower_le_compat_l; [lia | lra].
Qed.

(** *** rounding of signed values *)

Lemma rnd_pos (q : Q) : 0 < q -> rnd q = nearest q.
Proof.
  intros Hq. unfold rnd. replace (q ?= 0) with Gt by (symmetry; now apply Qgt_alt).
  reflexivity.
Qed.

Lemma rnd_neg (q : Q) : q < 0 -> rnd q = - nearest (- q).
Proof.
  intros Hq. unfold rnd. replace (q ?= 0) with Lt by (symmetry; now apply Qlt_alt).
  reflexivity.
Qed.

Lemma rnd_zero (q : Q) : q == 0 -> rnd q = 0.
Proof.
  intros Hq. unfold rnd. replace (q ?= 0) with Eq by (symmetry; now apply Qeq_alt).
  reflexivity.
Qed.

Lemma rnd_sign (q : Q) : (0 <= q -> 0 <= rnd q) /\ (q <= 0 -> rnd q <= 0).
Proof.
  destruct (Q_dec q 0) as [[Hlt|Hgt]|Heq].
  - rewrite (rnd_neg q Hlt). pose proof (nearest_nonneg (- q)). split; lra.
  - rewrite (rnd_pos q Hgt). pose proof (nearest_nonneg q Hgt). split; lra.
  - rewrite (rnd_zero q Heq). split; lra.
Qed.

Lemma rnd_mono (p q : Q) : p <= q -> rnd p <= rnd q.
Proof.
  intros Hpq.
  destruct (Qlt_le_dec 0 p) as [Hp|Hp].
  - rewrite (rnd_pos p Hp), (rnd_pos q) by lra. now apply nearest_mono.
  - destruct (Qlt_le_dec q 0) as [Hq|Hq].
    + rewrite (rnd_neg q Hq), (rnd_neg p) by lra.
      pose proof (nearest_mono (- q) (- p)). lra.
    + pose proof (proj2 (rnd_sign p) Hp). pose proof (proj1 (rnd_sign q) Hq). lra.
Qed.

Lemma rnd_comp (p q : Q) : p == q -> rnd p == rnd q.
Proof. intros Hpq. apply Qle_antisym; apply rnd_mono; lra. Qed.

(** What [round64] returns, over the rounded rational. *)
Lemma round64_spec (z : bool) (q : Q) :
  match round64 z q with
  | Finite r => r == rnd q /\ Qabs (rnd q) < 2 ^ emax
  | NegZero => rnd q == 0
  | PosInf => 2 ^ emax <= rnd q
  | NegInf => rnd q <= - 2 ^ emax
  | NaN => False
  end.
Proof.
  pose proof (two_pow_pos emax) as Pe.
  unfold round64. destruct (Qcompare_spec q 0) as [Heq|Hlt|Hgt].
  - rewrite (rnd_zero q Heq). destruct z; [reflexivity|].
    split; [reflexivity|]. exact Pe.
  - rewrite (rnd_neg q Hlt). pose proof (nearest_nonneg (- q)) as Hn.
    destruct (Qle_bool (2 ^ emax) (nearest (- q))) eqn:Hb.
    + apply Qle_bool_iff in Hb. lra.
    + assert (Hlt' : nearest (- q) < 2 ^ emax).
      { apply Qnot_le_lt. intros Hle. apply Qle_bool_iff in Hle. congruence. }
      destruct (Qeq_bool (nearest (- q)) 0) eqn:Hz.
      * apply Qeq_bool_iff in Hz. lra.
      * split; [apply Qred_correct|]. rewrite Qabs_neg by lra. lra.
  - rewrite (rnd_pos q Hgt). pose proof (nearest_nonneg q Hgt) as Hn.
    destruct (Qle_bool (2 ^ emax) (nearest q)) eqn:Hb.
    + now apply Qle_bool_iff in Hb.
    + assert (Hlt' : nearest q < 2 ^ emax).
      { apply Qnot_le_lt. intros Hle. apply Qle_bool_iff in Hle. congruence. }
      destruct (Qeq_bool (nearest q) 0) eqn:Hz.
      * apply Qeq_bool_iff in Hz. split; [lra|]. rewrite Qabs_pos; lra.
      * split; [apply Qred_correct|]. rewrite Qabs_pos; lra.
Qed.

(** *** The doubles next to 1 *)

Lemma finite_is_rounded (d : Q) : is_double (Finite d) -> 0 < d -> d == nearest d.
Proof.
  intros Hd Hpos. simpl in Hd. pose proof (round64_spec false d) as Hs.
  rewrite Hd in Hs. destruct Hs as [Hs _]. now rewrite <- (rnd_pos d Hpos).
Qed.

Lemma double_above_one (d : Q) : is_double (Finite d) -> 1 < d -> 1 + 2 ^ (-52) <= d.
Proof.
  intros Hd H1.
  assert (Hc : 2 ^ (-52) * inject_Z (2 ^ 52) == 1) by reflexivity.
  assert (Hc0 : 0 < 2 ^ (-52)) by reflexivity.
  assert (Hc1 : 2 ^ (-52) < 1) by reflexivity.
  assert (Hp : 0 < inject_Z (2 ^ 52)) by reflexivity.
  set (c := 2 ^ (-52)) in *. set (P := inject_Z (2 ^ 52)) in *.
  destruct (Qlt_le_dec d 2) as [H2|H2]; [|lra].
  pose proof (finite_is_rounded d Hd ltac:(lra)) as Hr.
  unfold nearest in Hr.
  assert (He : ulp_exponent d = (-52)%Z).
  { unfold ulp_exponent. rewrite (ilog2_unique d 0); [reflexivity | exact (Qlt_le_weak _ _ H1) | exact H2]. }
  rewrite He in Hr. fold c in Hr.
  set (m := round_half_even (d / c)) in *.
  assert (Hm : (2 ^ 52 < m)%Z).
  { rewrite Zlt_Qlt. fold P. nra. }
  assert (Hm' : (2 ^ 52 + 1 <= m)%Z) by lia.
  rewrite Zle_Qle in Hm'. rewrite inject_Z_plus in Hm'. fold P in Hm'.
  change (inject_Z 1) with 1 in Hm'. nra.
Qed.

Lemma double_below_one (d : Q) : is_double (Finite d) -> d < 1 -> d <= 1 - 2 ^ (-53).
Proof.
  intros Hd H1.
  assert (Hc : 2 ^ (-53) * inject_Z (2 ^ 53) == 1) by reflexivity.
  assert (Hc0 : 0 < 2 ^ (-53)) by reflexivity.
  assert (Hc1 : 2 ^ (-53) < 1 # 2) by reflexivity.
  assert (Hp : 0 < inject_Z (2 ^ 53)) by reflexivity.
  set (c := 2 ^ (-53)) in *. set (P := inject_Z (2 ^ 53)) in *.
  destruct (Qlt_le_dec d (1 # 2)) as [H2|H2]; [lra|].
  pose proof (finite_is_rounded d Hd ltac:(lra)) as Hr.
  unfold nearest in Hr.
  assert (He : ulp_exponent d = (-53)%Z).
  { unfold ulp_exponent. rewrite (ilog2_unique d (-1)); [reflexivity | exact H2 | exact H1]. }
  rewrite He in Hr. fold c in Hr.
  set (m := round_half_even (d / c)) in *.
  assert (Hm : (m < 2 ^ 53)%Z).
  { rewrite Zlt_Qlt. fold P. nra. }
  assert (Hm' : (m + 1 <= 2 ^ 53)%Z) by lia.
  rewrite Zle_Qle, inject_Z_plus in Hm'. fold P in Hm'.
  change (inject_Z 1) with 1 in Hm'.
  assert (Hprod : (inject_Z m + 1) * c <= P * c) by (apply Qmult_le_compat_r; lra).
  assert (Hexp : (inject_Z m + 1) * c == inject_Z m * c + c) by ring.
  assert (Hcomm : P * c == c * P) by ring.
  lra.
Qed.

(** *** The conversion *)

Lemma fge_finite (d c : Q) : fge (Finite d) (Finite c) = true <-> c <= d.
Proof.
  unfold fge. simpl. destruct (Qcompare_spec d c) as [Hc|Hc|Hc]; split;
    intros; try discriminate; try reflexivity; lra.
Qed.

Lemma fge_finite_false (d c : Q) : fge (Finite d) (Finite c) = false <-> d < c.
Proof.
  unfold fge. simpl. destruct (Qcompare_spec d c) as [Hc|Hc|Hc]; split;
    intros; try discriminate; try reflexivity; lra.
Qed.

Lemma flt_finite (d c : Q) : flt (Finite d) (Finite c) = true <-> d < c.
Proof.
  unfold flt. simpl. destruct (Qcompare_spec d c) as [Hc|Hc|Hc]; split;
    intros; try discriminate; try reflexivity; lra.
Qed.

Lemma fsub_finite (d c : Q) :
  fsub (Finite d) (Finite c) = round64 (Qneg d && negb (Qneg c)) (d - c).
Proof. reflexivity. Qed.

Lemma fmul_finite (d c : Q) :
  fmul (Finite d) (Finite c) = round64 (xorb (Qneg d) (Qneg c)) (d * c).
Proof. reflexivity. Qed.

Lemma fdiv_finite (d c : Q) :
  ~ c == 0 ->
  fdiv (Finite d) (Finite c) = Ok (round64 (xorb (Qneg d) (Qneg c)) (d / c)).
Proof.
  intros Hc. unfold fdiv, is_zero. simpl.
  destruct (Qeq_bool c 0) eqn:Hz; [|reflexivity].
  apply Qeq_bool_iff in Hz. contradiction.
Qed.

End FloatFacts.

(** ** The odds conversion *)

Module OddsFacts.
Import Py Scraper FloatFacts.
Local Open Scope Q_scope.

(** From 2.00 on.  The product is at least 100; it is a double, which is
    then rounded to an integer, or it overflows, which needs odds above
    [10 ^ 306]. *)
Lemma normalize_high (d : Q) :
  2 <= d ->
  let p := rnd (rnd (d - 1) * 100) in
  100 <= p /\
  ((exists x,
      x == p /\
      fmul (fsub (Finite d) (Finite 1)) (Finite 100) = Finite x /\
      normalize (Finite d) = Ok (round_half_even x)) \/
   (fmul (fsub (Finite d) (Finite 1)) (Finite 100) = PosInf /\
    normalize (Finite d) = Raise OverflowError /\
    inject_Z (10 ^ 306) < d)).
Proof.
  intros Hd p. unfold normalize.
  replace (fge (Finite d) (Finite 2)) with true by (symmetry; now apply fge_finite).
  rewrite fsub_finite.
  assert (R1 : rnd 1 == 1) by (vm_compute; reflexivity).
  assert (R100 : rnd 100 == 100) by (vm_compute; reflexivity).
  assert (Rbig : rnd (rnd (inject_Z (10 ^ 306)) * 100) < 2 ^ emax)
    by (vm_compute; reflexivity).
  assert (Rbig0 : rnd (inject_Z (10 ^ 306)) < 2 ^ emax) by (vm_compute; reflexivity).
  assert (Pe : 1 < 2 ^ emax) by reflexivity.
  pose proof (rnd_mono 1 (d - 1) ltac:(lra)) as Hs1.
  assert (Hp : 100 <= p).
  { apply Qle_trans with (rnd 100); [lra|]. apply rnd_mono. lra. }
  split; [exact Hp|].
  assert (Hfar : 2 ^ emax <= p -> inject_Z (10 ^ 306) < d).
  { intros Hover. apply Qnot_le_lt. intros Hle.
    pose proof (rnd_mono (d - 1) (inject_Z (10 ^ 306)) ltac:(lra)) as Hm1.
    pose proof (rnd_mono (rnd (d - 1) * 100) (rnd (inject_Z (10 ^ 306)) * 100)
                  ltac:(lra)) as Hm2.
    fold p in Hm2. lra. }
  pose proof (round64_spec (Qneg d && negb (Qneg 1)) (d - 1)) as Hs.
  destruct (round64 _ (d - 1)) as [s| | | |]; try contradiction; try (exfalso; lra).
  - destruct Hs as [Hs _]. rewrite fmul_finite.
    assert (Hsp : rnd (s * 100) == p).
    { unfold p. apply rnd_comp. now rewrite Hs. }
    pose proof (round64_spec (xorb (Qneg s) (Qneg 100)) (s * 100)) as Hx.
    destruct (round64 _ (s * 100)) as [x| | | |]; try contradiction;
      try (exfalso; lra).
    + left. exists x. destruct Hx as [Hx _]. split; [lra|]. split; reflexivity.
    + right. split; [reflexivity|]. split; [reflexivity|]. apply Hfar. lra.
  - right. split; [reflexivity|]. split; [reflexivity|].
    apply Qnot_le_lt. intros Hle.
    pose proof (rnd_mono (d - 1) (inject_Z (10 ^ 306)) ltac:(lra)). lra.
Qed.

(** Between 1.0 and 2.00: the difference is positive, and the quotient
    is a double that is at most -100. *)
Lemma normalize_low (d : Q) :
  is_double (Finite d) -> 1 < d -> d < 2 ->
  let q := rnd (-100 / rnd (d - 1)) in
  0 < rnd (d - 1) /\ q <= -100 /\
  exists x,
    x == q /\
    fdiv (Finite (-100)) (fsub (Finite d) (Finite 1)) = Ok (Finite x) /\
    normalize (Finite d) = Ok (round_half_even x).
Proof.
  intros Hdbl H1 H2 q. unfold normalize.
  replace (fge (Finite d) (Finite 2)) with false by (symmetry; now apply fge_finite_false).
  rewrite fsub_finite.
  pose proof (double_above_one d Hdbl H1) as Hgap.
  assert (Rlo : rnd (2 ^ (-52)) == 2 ^ (-52)) by (vm_compute; reflexivity).
  assert (Plo : 0 < 2 ^ (-52)) by reflexivity.
  assert (R1 : rnd 1 == 1) by (vm_compute; reflexivity).
  assert (R100 : rnd (-100) == -100) by (vm_compute; reflexivity).
  assert (Rbig : - 2 ^ emax < rnd (-100 / 2 ^ (-52))) by (vm_compute; reflexivity).
  assert (Pe : 1 < 2 ^ emax) by reflexivity.
  set (c := 2 ^ (-52)) in *.
  pose proof (rnd_mono c (d - 1) ltac:(lra)) as Hs1.
  pose proof (rnd_mono (d - 1) 1 ltac:(lra)) as Hs2.
  set (s0 := rnd (d - 1)) in *.
  assert (Hq1 : -100 / s0 <= -100).
  { apply Qle_shift_div_r; lra. }
  assert (Hq2 : -100 / c <= -100 / s0).
  { apply Qle_shift_div_l; [lra|].
    setoid_replace (-100 / c * s0) with (-100 * s0 / c) using relation Qeq
      by (field; lra).
    apply Qle_shift_div_r; [lra|]. lra. }
  pose proof (rnd_mono _ _ Hq1) as Hx1. pose proof (rnd_mono _ _ Hq2) as Hx2.
  fold q in Hx1, Hx2.
  split; [lra|]. split; [lra|].
  pose proof (round64_spec (Qneg d && negb (Qneg 1)) (d - 1)) as Hs. fold s0 in Hs.
  destruct (round64 _ (d - 1)) as [s| | | |]; try contradiction; try (exfalso; lra).
  destruct Hs as [Hs _].
  rewrite fdiv_finite by lra.
  assert (Hsq : rnd (-100 / s) == q).
  { unfold q. apply rnd_comp. now rewrite Hs. }
  pose proof (round64_spec (xorb (Qneg (-100)) (Qneg s)) (-100 / s)) as Hx.
  destruct (round64 _ (-100 / s)) as [x| | | |]; try contradiction;
    try (exfalso; lra).
  destruct Hx as [Hx _]. exists x. split; [lra|]. split; reflexivity.
Qed.

(** Below 1.0: the quotient is a double that is not negative. *)
Lemma normalize_below (d : Q) :
  is_double (Finite d) -> d < 1 ->
  exists y r,
    fdiv (Finite (-100)) (fsub (Finite d) (Finite 1)) = Ok y /\
    value y = Some r /\ 0 <= r /\
    normalize (Finite d) = Ok (round_half_even r).
Proof.
  intros Hdbl H1. unfold normalize.
  replace (fge (Finite d) (Finite 2)) with false
    by (symmetry; apply fge_finite_false; lra).
  rewrite fsub_finite.
  pose proof (double_below_one d Hdbl H1) as Hgap.
  assert (Rhi : rnd (- 2 ^ (-53)) == - 2 ^ (-53)) by (vm_compute; reflexivity).
  assert (Phi : 0 < 2 ^ (-53)) by reflexivity.
  assert (Rbig : rnd (100 / 2 ^ (-53)) < 2 ^ emax) by (vm_compute; reflexivity).
  assert (R0 : rnd 0 == 0) by reflexivity.
  assert (Pe : 1 < 2 ^ emax) by reflexivity.
  set (c := 2 ^ (-53)) in *.
  pose proof (rnd_mono (d - 1) (- c) ltac:(lra)) as Hs1.
  pose proof (round64_spec (Qneg d && negb (Qneg 1)) (d - 1)) as Hs.
  destruct (round64 _ (d - 1)) as [s| | | |]; try contradiction; try (exfalso; lra).
  - destruct Hs as [Hs _].
    rewrite fdiv_finite by lra.
    assert (Hq1 : 0 <= -100 / s).
    { setoid_replace (-100 / s) with (100 / - s) using relation Qeq by (field; lra).
      apply Qle_shift_div_l; lra. }
    assert (Hq2 : -100 / s <= 100 / c).
    { setoid_replace (-100 / s) with (100 / - s) using relation Qeq by (field; lra).
      apply Qle_shift_div_r; [lra|].
      setoid_replace (100 / c * - s) with (100 * - s / c) using relation Qeq
        by (field; lra).
      apply Qle_shift_div_l; [lra|]. lra. }
    pose proof (rnd_mono _ _ Hq1) as Hx1. pose proof (rnd_mono _ _ Hq2) as Hx2.
    pose proof (round64_spec (xorb (Qneg (-100)) (Qneg s)) (-100 / s)) as Hx.
    destruct (round64 _ (-100 / s)) as [x| | | |] eqn:Ex; try contradiction;
      try (exfalso; lra).
    + destruct Hx as [Hx _]. exists (Finite x), x.
      split; [reflexivity|]. split; [reflexivity|]. split; [lra | reflexivity].
    + exists NegZero, 0. split; [reflexivity|]. split; [reflexivity|].
      split; [lra | reflexivity].
  - exists (Finite 0), 0. split; [reflexivity|]. split; [reflexivity|].
    split; [lra | reflexivity].
Qed.

Lemma normalize_one (d : Q) :
  d == 1 -> normalize (Finite d) = Raise ZeroDivisionError.
Proof.
  intros Hd. unfold normalize.
  replace (fge (Finite d) (Finite 2)) with false
    by (symmetry; apply fge_finite_false; lra).
  rewrite fsub_finite. unfold round64.
  replace (d - 1 ?= 0) with Eq by (symmetry; apply Qeq_alt; lra).
  now destruct (Qneg d && negb (Qneg 1)).
Qed.

(** Only [ValueError] leaves [float]. *)
Lemma float_of_str_raises (t : string) (e : exn) :
  float_of_str t = Raise e -> e = ValueError.
Proof.
  unfold float_of_str. intros Hr.
  repeat case_match; congruence.
Qed.

Lemma odds_of_text_unparsable (t : string) (e : exn) :
  float_of_str t = Raise e -> odds_of_text t = Raise ValueError.
Proof.
  intros Hr. unfold odds_of_text. rewrite Hr.
  apply float_of_str_raises in Hr. congruence.
Qed.

(** The conversion of some odds texts, as Python computes them: the
    double nearest to 2.145 lies below it, and 2.125 lies half way. *)
Example odds_of_text_values :
  odds_of_text "1.91" = Ok (-110)%Z /\
  odds_of_text "2.145" = Ok 114%Z /\
  odds_of_text "2.125" = Ok 112%Z /\
  odds_of_text "2.375" = Ok 138%Z /\
  odds_of_text "-0.6" = Ok 62%Z /\
  odds_of_text "0.680" = Ok 313%Z /\
  odds_of_text "nan" = Raise ValueError /\
  odds_of_text "inf" = Raise OverflowError.
Proof. vm_compute. repeat split. Qed.

(** C2, as the code has it. For every decimal odds value [d >= 2.00]
    whose product [(d - 1) * 100] is a finite double the conversion
    returns [round((d - 1) * 100)], the integer nearest to that double,
    which is at least 0; the product overflows for no [d] up to [1e306],
    and when it does the conversion raises [OverflowError].  For every [d]
    with [1.0 < d < 2.00] the conversion returns [round(-100 / (d - 1))],
    which is below 0. *)
Theorem normalize_moneyline (x : pyfloat) :
  is_double x ->
  (fge x (Finite 2) = true ->
   (exists (p : Q) (v : Z),
      fmul (fsub x (Finite 1)) (Finite 100) = Finite p /\
      normalize x = Ok v /\ nearest_even v p /\ (0 <= v)%Z) \/
   (fmul (fsub x (Finite 1)) (Finite 100) = PosInf /\
    normalize x = Raise OverflowError /\
    forall d, x = Finite d -> inject_Z (10 ^ 306) < d)) /\
  (flt (Finite 1) x = true -> flt x (Finite 2) = true ->
   exists (q : Q) (v : Z),
     fdiv (Finite (-100)) (fsub x (Finite 1)) = Ok (Finite q) /\
     normalize x = Ok v /\ nearest_even v q /\ (v < 0)%Z).
Proof.
  intros Hdbl. split.
  - intros Hge. destruct x as [d| | | |]; try discriminate.
    + apply fge_finite in Hge.
      destruct (normalize_high d Hge) as (Hp & [(x & Hx & Hmul & Hn)|(Hmul & Hn & Hfar)]).
      * left. exists x, (round_half_even x).
        split; [exact Hmul|]. split; [exact Hn|].
        split; [apply round_half_even_nearest|].
        apply round_half_even_ge. change (inject_Z 0) with 0. lra.
      * right. split; [exact Hmul|]. split; [exact Hn|]. now intros ? [= <-].
    + right. split; [reflexivity|]. split; [reflexivity|]. discriminate.
  - intros H1 H2. destruct x as [d| | | |]; try discriminate.
    apply flt_finite in H1, H2.
    destruct (normalize_low d Hdbl H1 H2) as (_ & Hq & x & Hx & Hdiv & Hn).
    exists x, (round_half_even x).
    split; [exact Hdiv|]. split; [exact Hn|].
    split; [apply round_half_even_nearest|].
    assert (round_half_even x <= -100)%Z; [|lia].
    apply round_half_even_le. change (inject_Z (-100)) with (-100). lra.
Qed.

(** The conversion at 2.5 and at 1.5: 150 and -200. *)
Lemma normalize_moneyline_witness :
  (exists v : Z, normalize (Finite (5 # 2)) = Ok v /\ (0 <= v)%Z) /\
  (exists v : Z, normalize (Finite (3 # 2)) = Ok v /\ (v < 0)%Z).
Proof.
  split.
  - destruct (proj1 (normalize_moneyline (Finite (5 # 2)) eq_refl) eq_refl)
      as [(p & v & _ & Hv & _ & Hpos)|(_ & Hraise & _)].
    + exists v. split; [exact Hv | exact Hpos].
    + vm_compute in Hraise. discriminate Hraise.
  - destruct (proj2 (normalize_moneyline (Finite (3 # 2)) eq_refl) eq_refl eq_refl)
      as (q & v & _ & Hv & _ & Hneg).
    exists v. split; [exact Hv | exact Hneg].
Defined.

(** C2 as stated fails. The text [1e307] is read as a double above 2.00
    whose product with 100 is out of range: the conversion raises
    [OverflowError] and returns nothing. *)
Lemma normalize_overflows :
  exists x,
    float_of_str "1e307" = Ok x /\ is_double x /\ fge x (Finite 2) = true /\
    fmul (fsub x (Finite 1)) (Finite 100) = PosInf /\
    normalize x = Raise OverflowError /\
    odds_of_text "1e307" = Raise OverflowError.
Proof.
  eexists. split; [vm_compute; reflexivity|]. vm_compute. repeat split.
Qed.

(** C3, as the code has it. At the even-money boundary the conversion of
    the decimal odds value 2.00 returns 100, both for the number and for
    the text [2.00]. *)
Theorem normalize_even_money :
  normalize (Finite 2) = Ok 100%Z /\ odds_of_text "2.00" = Ok 100%Z.
Proof. split; vm_compute; reflexivity. Qed.

(** C3 as stated fails: the conversion of 2.00 is 100 and not 0. *)
Lemma normalize_even_money_is_not_zero :
  normalize (Finite 2) = Ok 100%Z /\ normalize (Finite 2) <> Ok 0%Z.
Proof. split; [vm_compute; reflexivity | vm_compute; discriminate]. Qed.

(** C4, as the code has it. At the decimal odds value 1.0 the conversion
    raises [ZeroDivisionError], and a text that [float] does not read
    raises [ValueError]; for every [d < 1.0] it raises nothing and returns
    the integer [round(-100 / (d - 1))], the integer nearest to the double
    quotient, which is at least 0. *)
Theorem normalize_at_or_below_one :
  (forall d : Q, d == 1 -> normalize (Finite d) = Raise ZeroDivisionError) /\
  (forall (t : string) (e : exn),
     float_of_str t = Raise e -> odds_of_text t = Raise ValueError) /\
  (forall x : pyfloat, is_double x -> flt x (Finite 1) = true ->
     exists (y : pyfloat) (q : Q) (v : Z),
       fdiv (Finite (-100)) (fsub x (Finite 1)) = Ok y /\ value y = Some q /\
       normalize x = Ok v /\ nearest_even v q /\ (0 <= v)%Z).
Proof.
  split; [exact normalize_one|].
  split; [exact odds_of_text_unparsable|].
  intros x Hdbl Hlt. destruct x as [d| | | |]; try discriminate.
  - apply flt_finite in Hlt.
    destruct (normalize_below d Hdbl Hlt) as (y & r & Hdiv & Hval & Hr & Hn).
    exists y, r, (round_half_even r).
    split; [exact Hdiv|]. split; [exact Hval|]. split; [exact Hn|].
    split; [apply round_half_even_nearest|].
    apply round_half_even_ge. change (inject_Z 0) with 0. lra.
  - exists (Finite 100), 100, 100%Z.
    split; [vm_compute; reflexivity|]. split; [reflexivity|].
    split; [vm_compute; reflexivity|].
    split; [apply (round_half_even_nearest 100) | lia].
  - exists (Finite 0), 0, 0%Z.
    split; [vm_compute; reflexivity|]. split; [reflexivity|].
    split; [vm_compute; reflexivity|].
    split; [apply (round_half_even_nearest 0) | lia].
Qed.

(** The conversion at 1.0, of the text [n/a], and at 0.5. *)
Lemma normalize_at_or_below_one_witness :
  normalize (Finite 1) = Raise ZeroDivisionError /\
  odds_of_text "n/a" = Raise ValueError /\
  (exists v : Z, normalize (Finite (1 # 2)) = Ok v /\ (0 <= v)%Z).
Proof.
  destruct normalize_at_or_below_one as (H1 & H2 & H3).
  split; [exact (H1 1 ltac:(reflexivity))|].
  split; [exact (H2 "n/a" ValueError ltac:(vm_compute; reflexivity))|].
  destruct (H3 (Finite (1 # 2)) eq_refl eq_refl) as (y & q & v & _ & _ & Hv & _ & Hpos).
  exists v. split; [exact Hv | exact Hpos].
Defined.

(** C4 as stated fails: at the decimal odds value 0.5, below 1.0, the
    conversion raises nothing and produces the integer 200. *)
Lemma normalize_below_one_returns :
  normalize (Finite (1 # 2)) = Ok 200%Z /\ is_ok (normalize (Finite (1 # 2))) = true.
Proof. split; vm_compute; reflexivity. Qed.
End OddsFacts.

(** ** The crawler *)

Module CrawlerFacts.
Import Py Models Dom Crawler Support.

(** *** Replacing the page number *)

Lemma startswith_app (old t : string) : startswith old (old +:+ t) = true.
Proof.
  induction old as [|c old IH]; simpl; [reflexivity|].
  unfold ascii_eqb. now rewrite bool_decide_eq_true_2.
Qed.

Lemma replace_from_skip (old new s1 s2 : string) :
  replace_from old new (String.length s1) (s1 +:+ s2) = replace_from old new 0 s2.
Proof. induction s1 as [|c s1 IH]; simpl; [reflexivity | exact IH]. Qed.

Lemma replace_from_absent (old new t : string) :
  contains old t = false -> replace_from old new 0 t = t.
Proof.
  induction t as [|c t IH]; simpl; [reflexivity|]. intros Hc.
  apply orb_false_elim in Hc as [Hs Ht].
  rewrite Hs. now rewrite IH.
Qed.

Lemma replace_from_once (old new p t : string) (c : ascii) :
  occurs_within (String c old) p (String c old +:+ t) = false ->
  contains (String c old) t = false ->
  replace_from (String c old) new 0 (p +:+ String c old +:+ t) = p +:+ new +:+ t.
Proof.
  intros Hp Ht. induction p as [|a p IH].
  - change (EmptyString +:+ String c old +:+ t) with (String c (old +:+ t)).
    cbn [replace_from].
    change (String c (old +:+ t)) with (String c old +:+ t).
    rewrite startswith_app.
    replace (String.length (String c old) - 1)%nat with (String.length old)
      by (simpl; lia).
    rewrite replace_from_skip, replace_from_absent by exact Ht. reflexivity.
  - cbn [occurs_within] in Hp. apply orb_false_elim in Hp as [Hs Hp].
    change (String a p +:+ String c old +:+ t)
      with (String a (p +:+ String c old +:+ t)) in *.
    cbn [replace_from]. rewrite Hs. now rewrite IH.
Qed.

Section facts.
Context {D : Type} `{Browser D} `{PyQuery}.

Lemma range_length (a b : Z) : a <= b -> Z.of_nat (length (range a b)) = b - a.
Proof. intros Hab. unfold range. rewrite length_fmap, length_seq. lia. Qed.

Lemma range_lookup (a b i : Z) :
  a <= i < b -> range a b !! Z.to_nat (i - a) = Some i.
Proof.
  intros Hi. unfold range. rewrite list_lookup_fmap, lookup_seq_lt by lia.
  simpl. f_equal. lia.
Qed.

(** The loop over the page numbers appends one URL per number, in order,
    and touches nothing else. *)
Lemma append_page_urls_urls (indices : list Z) (u : string) (n : Z) (s : Season) :
  urls (append_page_urls indices u n s) = urls s ++ (page_url u n <$> indices).
Proof.
  revert s. induction indices as [|i indices IH]; intros s; simpl.
  - now rewrite app_nil_r.
  - rewrite IH. simpl. now rewrite <- app_assoc.
Qed.

Lemma append_page_urls_frame (indices : list Z) (u : string) (n : Z) (s : Season) :
  name (append_page_urls indices u n s) = name s /\
  possible_outcomes (append_page_urls indices u n s) = possible_outcomes s /\
  games (append_page_urls indices u n s) = games s.
Proof.
  revert s. induction indices as [|i indices IH]; intros s; simpl; [easy|].
  destruct (IH (urls_append (page_url u n i) s)) as (-> & -> & ->). easy.
Qed.

(** The scan passes over links without the mark. *)
Lemma locate_last_page_skip (l1 l2 : list element) (first_url : string) :
  Forall (fun l => has_last_page_mark l = false) l1 ->
  locate_last_page (l1 ++ l2) first_url = locate_last_page l2 first_url.
Proof.
  induction 1 as [|l l1 Hl _ IH]; simpl; [reflexivity|].
  now rewrite Hl.
Qed.

Lemma locate_last_page_none (l : list element) (first_url : string) :
  Forall (fun l => has_last_page_mark l = false) l ->
  locate_last_page l first_url = Ok (-1, None).
Proof.
  intros Hl. rewrite <- (app_nil_r l). now rewrite locate_last_page_skip.
Qed.

(** The scan from the end stops at the last link that has the mark. *)
Lemma locate_last_page_found (before after : list element) (link : element)
    (first_url x_page href : string) (n : Z) :
  has_last_page_mark link = true ->
  Forall (fun l => has_last_page_mark l = false) after ->
  attrib link !! "x-page" = Some x_page ->
  int_of_str x_page = Ok n ->
  attrib link !! "href" = Some href ->
  locate_last_page (rev (before ++ link :: after)) first_url
  = Ok (n, Some (first_url +:+ href)).
Proof.
  intros Hmark Hafter Hx Hn Hhref.
  rewrite rev_app_distr. simpl. rewrite <- app_assoc.
  rewrite locate_last_page_skip by now apply Forall_rev.
  simpl. rewrite Hmark. unfold attrib_get. now rewrite Hx, Hn, Hhref.
Qed.

(** C1, as the code has it. For every season with the single URL [u],
    when the page does not show the message for no data, has at least two
    pagination anchors, the last anchor with the last-page mark has
    [x-page = N] with [N >= 2] and an [href], and [page/N] stands exactly
    once in the URL of the last page, [u] followed by that [href]: the
    resolver leaves [season.urls] with exactly [N] elements, [u] first,
    then the URLs of the pages 2 to [N - 1] in ascending order, each the
    URL of the last page with the page index in the place of [N], and the
    URL of the last page at the end. *)
Theorem pagination_urls (season : Season) (d : D) (first_url : string) (doc : element)
    (before after : list element) (link : element) (x_page href p t : string)
    (N : Z) :
  urls season = [first_url] ->
  let d1 := (go_to_link first_url d).2 in
  let last_url := first_url +:+ href in
  let segment := "page/" +:+ str_of_int N in
  get_html_source d1 = Ok doc ->
  pq_text (pq_find no_data_selector doc) <> "No data available" ->
  pq_find pagination_selector doc = before ++ link :: after ->
  (2 <= length (before ++ link :: after))%nat ->
  has_last_page_mark link = true ->
  Forall (fun l => has_last_page_mark l = false) after ->
  attrib link !! "x-page" = Some x_page ->
  int_of_str x_page = Ok N ->
  attrib link !! "href" = Some href ->
  2 <= N ->
  last_url = p +:+ segment +:+ t ->
  occurs_within segment p (segment +:+ t) = false ->
  contains segment t = false ->
  let url_of_page i := p +:+ ("page/" +:+ str_of_int i) +:+ t in
  exists season',
    fill_in_season_pagination_links season d = (Ok tt, season', d1) /\
    urls season' = first_url :: (url_of_page <$> range 2 N) ++ [last_url] /\
    Z.of_nat (length (urls season')) = N /\
    urls season' !! 0%nat = Some first_url /\
    (forall i, 2 <= i < N -> urls season' !! Z.to_nat (i - 1) = Some (url_of_page i)) /\
    urls season' !! Z.to_nat (N - 1) = Some last_url /\
    name season' = name season /\
    possible_outcomes season' = possible_outcomes season /\
    games season' = games season.
Proof.
  intros Hurls d1 last_url segment Hdoc Hdata Hlinks Hlen Hmark Hafter Hx Hn Hhref HN
    Hlast Hp Ht url_of_page.
  assert (Hpage : forall i, page_url last_url N i = url_of_page i).
  { intros i. rewrite Hlast. unfold page_url, replace, url_of_page. fold segment.
    change segment with (String "p" ("age/" +:+ str_of_int N)) in *.
    now apply replace_from_once. }
  exists (urls_append last_url (append_page_urls (range 2 N) last_url N season)).
  split.
  - unfold fill_in_season_pagination_links. rewrite Hurls.
    destruct (go_to_link first_url d) as [ok d'] eqn:Hgo. simpl in d1.
    fold d1. rewrite Hdoc. rewrite bool_decide_eq_false_2 by exact Hdata.
    rewrite Hlinks.
    destruct (length (before ++ link :: after) <=? 1)%nat eqn:Hle;
      [apply Nat.leb_le in Hle; lia|].
    rewrite (locate_last_page_found _ _ _ _ _ _ _ Hmark Hafter Hx Hn Hhref).
    destruct (N =? -1)%Z eqn:HN1; [lia|]. reflexivity.
  - pose proof (range_length 2 N HN) as Hrl.
    assert (Hu : urls (urls_append last_url
                   (append_page_urls (range 2 N) last_url N season))
                 = first_url :: (url_of_page <$> range 2 N) ++ [last_url]).
    { simpl. rewrite append_page_urls_urls, Hurls. simpl. do 2 f_equal.
      apply list_fmap_ext. intros _ i _. apply Hpage. }
    destruct (append_page_urls_frame (range 2 N) last_url N season) as (Hn1 & Hn2 & Hn3).
    rewrite Hu. repeat split; try assumption.
    + simpl. rewrite length_app, length_fmap. simpl. lia.
    + intros i Hi. replace (Z.to_nat (i - 1)) with (S (Z.to_nat (i - 2))) by lia.
      simpl. rewrite lookup_app_l by (rewrite length_fmap; lia).
      rewrite list_lookup_fmap, range_lookup by lia. reflexivity.
    + replace (Z.to_nat (N - 1)) with (S (length (url_of_page <$> range 2 N)))
        by (rewrite length_fmap; lia).
      simpl. rewrite lookup_app_r by lia. now rewrite Nat.sub_diag.
Qed.

(** C7, as the code has it. For every season page that does not show the
    message for no data, has more than one pagination anchor and no anchor
    with the last-page mark, the resolver raises [RuntimeError] and leaves
    the season as it was. *)
Theorem missing_mark_raises (season : Season) (d : D) (first_url : string)
    (rest : list string) (doc : element) :
  urls season = first_url :: rest ->
  let d1 := (go_to_link first_url d).2 in
  get_html_source d1 = Ok doc ->
  pq_text (pq_find no_data_selector doc) <> "No data available" ->
  (1 < length (pq_find pagination_selector doc))%nat ->
  Forall (fun l => has_last_page_mark l = false) (pq_find pagination_selector doc) ->
  fill_in_season_pagination_links season d
  = (Raise (RuntimeError [no_final_page_message; first_url]), season, d1).
Proof.
  intros Hurls d1 Hdoc Hdata Hlen Hnone.
  unfold fill_in_season_pagination_links. rewrite Hurls.
  destruct (go_to_link first_url d) as [ok d'] eqn:Hgo. simpl in d1.
  fold d1. rewrite Hdoc. rewrite bool_decide_eq_false_2 by exact Hdata.
  destruct (length (pq_find pagination_selector doc) <=? 1)%nat eqn:Hle;
    [apply Nat.leb_le in Hle; lia|].
  rewrite locate_last_page_none by now apply Forall_rev.
  reflexivity.
Qed.

End facts.

Import Static Examples.

(** The five-page scenario: five anchors, the last one marked with
    [x-page = 5], give the five page URLs in order. *)
Lemma pagination_urls_witness :
  exists season',
    fill_in_season_pagination_links nhl_season five_pages
    = (Ok tt, season', (go_to_link results_url five_pages).2) /\
    urls season' =
      [ "https://www.oddsportal.com/hockey/usa/nhl/results/";
        "https://www.oddsportal.com/hockey/usa/nhl/results/#/page/2/";
        "https://www.oddsportal.com/hockey/usa/nhl/results/#/page/3/";
        "https://www.oddsportal.com/hockey/usa/nhl/results/#/page/4/";
        "https://www.oddsportal.com/hockey/usa/nhl/results/#/page/5/" ] /\
    Z.of_nat (length (urls season')) = 5.
Proof.
  destruct (pagination_urls nhl_season five_pages results_url
              (page [node "table" [] []; pagination five_anchors])
              (take 4 five_anchors) [] (anchor "5" "»|") "5" "#/page/5/"
              "https://www.oddsportal.com/hockey/usa/nhl/results/#/" "/" 5)
    as (season' & Hrun & Hurls & Hlen & _).
  - reflexivity.
  - reflexivity.
  - vm_compute. discriminate.
  - vm_compute. reflexivity.
  - simpl. lia.
  - reflexivity.
  - constructor.
  - reflexivity.
  - vm_compute. reflexivity.
  - reflexivity.
  - lia.
  - reflexivity.
  - reflexivity.
  - reflexivity.
  - exists season'. split; [exact Hrun|]. split; [|exact Hlen].
    rewrite Hurls. vm_compute. reflexivity.
Defined.

(** C1 as stated fails. On a page that shows the message for no data, and
    on a page with a single pagination anchor, the anchors report a last
    page 3 through the marked anchor, and the resolver leaves the one URL
    of the season.  When the marked anchor has no [href] the resolver
    raises [KeyError] and leaves the one URL.  When the [href] of the
    marked anchor has no [page/3], page 2 gets the URL of the last page;
    and when the season's URL has a [page/3] of its own, that one is
    replaced as well. *)
Lemma pagination_urls_guarded :
  (urls nhl_season = [results_url] /\
   (exists doc,
      get_html_source (go_to_link results_url no_data_with_pages).2 = Ok doc /\
      pq_find pagination_selector doc = three_anchors) /\
   has_last_page_mark (anchor "3" "»|") = true /\
   int_of_str "3" = Ok 3 /\
   (fill_in_season_pagination_links nhl_season no_data_with_pages).1
   = (Ok tt, nhl_season)) /\
  ((exists doc,
      get_html_source (go_to_link results_url one_anchor).2 = Ok doc /\
      pq_find pagination_selector doc = [anchor "3" "»|"]) /\
   (fill_in_season_pagination_links nhl_season one_anchor).1 = (Ok tt, nhl_season)) /\
  length (urls nhl_season) = 1%nat /\
  (fill_in_season_pagination_links nhl_season no_href).1
  = (Raise KeyError, nhl_season) /\
  urls (fill_in_season_pagination_links nhl_season other_href).1.2
  = [ "https://www.oddsportal.com/hockey/usa/nhl/results/";
      "https://www.oddsportal.com/hockey/usa/nhl/results/#/p/3/";
      "https://www.oddsportal.com/hockey/usa/nhl/results/#/p/3/" ] /\
  urls (fill_in_season_pagination_links front_page_season front_page_site).1.2
  = [ "https://www.oddsportal.com/frontpage/3/results/";
      "https://www.oddsportal.com/frontpage/2/results/#/page/2/";
      "https://www.oddsportal.com/frontpage/3/results/#/page/3/" ].
Proof. vm_compute. repeat split; eexists; split; reflexivity. Qed.

(** Two anchors without the mark: [RuntimeError]. *)
Lemma missing_mark_raises_witness :
  fill_in_season_pagination_links nhl_season unmarked_pages
  = (Raise (RuntimeError [no_final_page_message; results_url]), nhl_season,
     (go_to_link results_url unmarked_pages).2).
Proof.
  apply (missing_mark_raises nhl_season unmarked_pages results_url []
           (page [node "table" [] []; pagination two_plain_anchors])).
  - reflexivity.
  - reflexivity.
  - vm_compute. discriminate.
  - vm_compute. lia.
  - vm_compute. repeat constructor.
Defined.

(** C7 as stated fails. On a page with two pagination anchors, none with
    the mark, that also shows the message for no data, the resolver
    returns without an error. *)
Lemma missing_mark_under_no_data :
  (exists doc,
     get_html_source (go_to_link results_url no_data_unmarked).2 = Ok doc /\
     pq_find pagination_selector doc = two_plain_anchors) /\
  forallb (fun l => negb (has_last_page_mark l)) two_plain_anchors = true /\
  (fill_in_season_pagination_links nhl_season no_data_unmarked).1
  = (Ok tt, nhl_season).
Proof.
  split; [eexists; split; [reflexivity | vm_compute; reflexivity]|].
  vm_compute. repeat split.
Qed.

(** C6: the code at the failing input. The page holds nothing that
    [go_to_link] probes for, so the load reports a failure; the resolver
    goes on and adds the pages 2 and 3. *)
Theorem failed_load_still_resolves :
  (go_to_link results_url bare_pages).1 = false /\
  (fill_in_season_pagination_links nhl_season bare_pages).1.1 = Ok tt /\
  urls (fill_in_season_pagination_links nhl_season bare_pages).1.2 =
    [ "https://www.oddsportal.com/hockey/usa/nhl/results/";
      "https://www.oddsportal.com/hockey/usa/nhl/results/#/page/2/";
      "https://www.oddsportal.com/hockey/usa/nhl/results/#/page/3/" ].
Proof. vm_compute. repeat split. Qed.

(** C5: the code at the failing input. The season link is matched by the
    first selector and, being inside a [div] whose class contains
    [seasons], by the second one as well; the season is returned twice,
    where a scan that stops at the first matching selector returns it
    once. *)
Theorem later_selectors_are_merged :
  let doc := league_page in
  let s := urls_append "/hockey/usa/nhl-2022-2023/results/" (Season_new 2 "2022/2023") in
  get_html_source (go_to_link league_url league).2 = Ok doc /\
  ((fun sel => pq_find sel doc) <$> season_selectors)
  = [[season_link]; [season_link]; []; []] /\
  (get_seasons_for_league 2 league_url league).1 = Ok [s; s] /\
  scan_until_match 2 season_selectors doc = Ok [s].
Proof. vm_compute. repeat split. Qed.
End CrawlerFacts.

(** ** The scraper *)

Module ScraperFacts.
Import Py Models Dom Scraper.
Local Open Scope py_scope.

(** A sequence that returns: its first part returned, and the rest ran
    from the state it left. *)
Lemma bind_ok {S A B} (m : M S A) (f : A -> M S B) (s s' : S) (b : B) :
  bind m f s = (Ok b, s') ->
  exists a s1, m s = (Ok a, s1) /\ f a s1 = (Ok b, s').
Proof.
  unfold bind. destruct (m s) as [[a|e] s1]; [eauto | discriminate].
Qed.

Lemma complete_has_required_fields (g : Game) :
  complete g = true -> has_required_fields g.
Proof.
  unfold complete, has_required_fields, truthy_str, truthy_int.
  intros Hc. repeat (apply andb_prop in Hc as [Hc ?]).
  destruct (team_home g), (team_away g), (odds_home g), (odds_away g);
    try discriminate; repeat split; eauto.
Qed.

(** With the outcome still UNKNOWN, deriving it gives the outcome the
    scores decide, and changes no score. *)
Lemma determine_outcome_follows (g : Game) :
  outcome g = UNKNOWN ->
  outcome_follows_scores (determine_outcome g) /\
  score_home (determine_outcome g) = score_home g /\
  score_away (determine_outcome g) = score_away g.
Proof.
  intros Hu. destruct g as [? ? ? ? ? ? sh sa o ? ? ? ? ? ? ?]; simpl in Hu; subst o.
  unfold determine_outcome, outcome_follows_scores; simpl.
  destruct sh as [h|], sa as [a|]; simpl;
    [destruct (Z.gtb_spec h a); [|destruct (Z.ltb_spec h a)]; simpl | | |];
    (split; [|done]); repeat split;
    try discriminate; try (intros [?|?]; discriminate);
    try (intros (? & ? & ? & ? & ?); simplify_eq; lia);
    try (intros _; exists h, a; repeat split; lia); auto.
Qed.

Section facts.
Context {D : Type} `{Browser D} `{PyQuery}.

(** *** Statements that keep the scores and the outcome *)

Lemma keeps_ret {A} (a : A) : @keeps D A (ret a).
Proof. intros st. reflexivity. Qed.

Lemma keeps_raise {A} (e : exn) : @keeps D A (raise e).
Proof. intros st. reflexivity. Qed.

Lemma keeps_lift {A} (r : result A) : @keeps D A (lift r).
Proof. intros st. reflexivity. Qed.

Lemma keeps_gets {A} (f : @row_state D -> A) : keeps (gets f).
Proof. intros st. reflexivity. Qed.

Lemma keeps_read {A} (f : @row_state D -> result A) : keeps (fun st => (f st, st)).
Proof. intros st. reflexivity. Qed.

Lemma keeps_bind {A B} (m : M (@row_state D) A) (f : A -> M row_state B) :
  keeps m -> (forall a, keeps (f a)) -> keeps (bind m f).
Proof.
  intros Hm Hf st. unfold bind. specialize (Hm st).
  destruct (m st) as [[a|e] s1]; simpl in *; [|exact Hm].
  rewrite (Hf a s1). exact Hm.
Qed.

Lemma keeps_try_catch {A} (m : M (@row_state D) A) (c : exn -> bool)
    (h : exn -> M row_state A) :
  keeps m -> (forall e, keeps (h e)) -> keeps (try_catch m c h).
Proof.
  intros Hm Hh st. unfold try_catch. specialize (Hm st).
  destruct (m st) as [[a|e] s1]; simpl in *; [exact Hm|].
  destruct (c e); simpl; [|exact Hm].
  rewrite (Hh e s1). exact Hm.
Qed.

Lemma keeps_when (c : bool) (m : M (@row_state D) unit) : keeps m -> keeps (when c m).
Proof. intros Hm. destruct c; [exact Hm | apply keeps_ret]. Qed.

Lemma keeps_for_each {A} (l : list A) (body : A -> M (@row_state D) unit) :
  (forall a, keeps (body a)) -> keeps (for_each l body).
Proof.
  intros Hb. induction l as [|a l IH]; simpl; [apply keeps_ret|].
  apply keeps_bind; [apply Hb | intros _; exact IH].
Qed.

Lemma keeps_set_game (f : Game -> Game) :
  (forall g, result_fields (f g) = result_fields g) -> @keeps D _ (set_game f).
Proof. intros Hf st. simpl. apply Hf. Qed.

Lemma keeps_navigate (link : string) : keeps (navigate link).
Proof.
  intros st. unfold navigate. destruct (go_to_link link (driver st)). reflexivity.
Qed.

Lemma keeps_wait_for_percentage : keeps (wait_for_percentage (D:=D)).
Proof.
  intros st. unfold wait_for_percentage.
  destruct (wait_until check_percentage_loaded (driver st)). reflexivity.
Qed.

Ltac keeps_step :=
  first
    [ apply keeps_bind | apply keeps_try_catch | apply keeps_when
    | apply keeps_for_each | apply keeps_ret | apply keeps_raise
    | apply keeps_lift | apply keeps_gets | apply keeps_navigate
    | apply keeps_wait_for_percentage | apply keeps_read
    | apply keeps_set_game; intros g; reflexivity ].

Ltac keeps_all := repeat (intros; first [keeps_step | case_match]).

Lemma keeps_read_odds (set : option Z -> Game -> Game) (elem : result element) :
  (forall v g, result_fields (set v g) = result_fields g) ->
  keeps (read_odds (D:=D) set elem).
Proof.
  intros Hset. unfold read_odds.
  apply keeps_bind; [apply keeps_lift|]. intros e.
  apply keeps_bind; [apply keeps_lift|]. intros v.
  apply keeps_set_game. intros g. apply Hset.
Qed.

Lemma keeps_average_odds (outcomes : Z) (game_query : element) :
  keeps (average_odds (D:=D) outcomes game_query).
Proof.
  unfold average_odds.
  repeat (intros; first [apply keeps_read_odds; reflexivity | keeps_step]).
Qed.

Lemma keeps_average_odds_view (outcomes : Z) (game_link : option string) :
  keeps (average_odds_view (D:=D) outcomes game_link).
Proof.
  unfold average_odds_view. destruct (link_present game_link); [|apply keeps_ret].
  repeat (intros; first [apply keeps_average_odds | keeps_step]).
Qed.

Lemma keeps_teams (row : element) : keeps (teams (D:=D) row).
Proof. unfold teams. keeps_all. Qed.

Lemma keeps_metadata (outcomes : Z) (url : string) :
  keeps (metadata (D:=D) outcomes url).
Proof. unfold metadata. keeps_all. Qed.

Lemma keeps_final_odds (outcomes : Z) (row : element) :
  keeps (final_odds (D:=D) outcomes row).
Proof.
  unfold final_odds. apply keeps_for_each. intros [i e].
  unfold final_odds_of. keeps_all.
Qed.

Lemma keeps_public_percentage (game_link : option string) :
  keeps (public_percentage (D:=D) game_link).
Proof.
  unfold public_percentage. destruct (link_present game_link); [|apply keeps_ret].
  keeps_all.
Qed.

(** *** One row *)

Lemma result_fields_inv (g g' : Game) :
  result_fields g' = result_fields g ->
  score_home g' = score_home g /\ score_away g' = score_away g /\
  outcome g' = outcome g.
Proof. unfold result_fields. intros [= -> -> ->]. easy. Qed.

Lemma result_fields_transfer (g g' : Game) :
  result_fields g' = result_fields g ->
  scores_paired g /\ outcome_follows_scores g ->
  scores_paired g' /\ outcome_follows_scores g'.
Proof.
  intros Hf. apply result_fields_inv in Hf as (Hh & Ha & Ho).
  unfold scores_paired, outcome_follows_scores. now rewrite Hh, Ha, Ho.
Qed.

(** When the statement for the scores returns, it has left the outcome,
    and either both scores as they were or both present. *)
Lemma scores_returns (row : element) (st st' : @row_state D) :
  scores row st = (Ok tt, st') ->
  outcome (game st') = outcome (game st) /\
  ((score_home (game st') = score_home (game st) /\
    score_away (game st') = score_away (game st)) \/
   (is_Some (score_home (game st')) /\ is_Some (score_away (game st')))).
Proof.
  unfold scores, when.
  destruct (nonempty (pq_select score_selector row)); [|intros [= <-]; auto].
  unfold bind, lift.
  destruct (split "–" (pq_text (pq_select score_selector row))) as [parts|e];
    [|discriminate].
  destruct parts as [|a [|b [|c parts]]]; try (intros [= <-]; auto).
  destruct (int_of_str (strip a)) as [h|e]; [|discriminate]. simpl.
  destruct (int_of_str (strip b)) as [w|e]; [|discriminate]. simpl.
  intros [= <-]. simpl. split; [reflexivity|]. right. split; eauto.
Qed.

(** When the body of a row returns, the game has both scores or none, and
    the outcome the scores decide. *)
Lemma row_body_returns (outcomes : Z) (url : string) (row : element) (d : D)
    (st' : row_state) :
  row_body outcomes url row {| game := Game_new; driver := d |} = (Ok tt, st') ->
  scores_paired (game st') /\ outcome_follows_scores (game st').
Proof.
  unfold row_body.
  set (game_link := pq_attr "href" (pq_select game_link_selector row)).
  intros Hrun.
  apply bind_ok in Hrun as ([] & st1 & H1 & Hrun).
  apply bind_ok in Hrun as ([] & st2 & H2 & Hrun).
  apply bind_ok in Hrun as ([] & st3 & H3 & Hrun).
  apply bind_ok in Hrun as ([] & st4 & H4 & Hrun).
  apply bind_ok in Hrun as ([] & st5 & H5 & Hrun).
  apply bind_ok in Hrun as ([] & st6 & H6 & Hrun).
  pose proof (keeps_average_odds_view outcomes game_link
                {| game := Game_new; driver := d |}) as K1.
  rewrite H1 in K1.
  pose proof (keeps_teams row st1) as K2. rewrite H2 in K2.
  pose proof (keeps_metadata outcomes url st3) as K4. rewrite H4 in K4.
  pose proof (keeps_final_odds outcomes row st4) as K5. rewrite H5 in K5.
  pose proof (keeps_public_percentage game_link st6) as K7. rewrite Hrun in K7.
  apply result_fields_inv in K1 as (Kh1 & Ka1 & Ko1).
  apply result_fields_inv in K2 as (Kh2 & Ka2 & Ko2).
  apply result_fields_inv in K4 as (Kh4 & Ka4 & Ko4).
  apply result_fields_inv in K5 as (Kh5 & Ka5 & Ko5).
  apply scores_returns in H3 as (Ko3 & Hs3).
  injection H6 as <-. simpl in *.
  apply (result_fields_transfer _ _ K7). simpl.
  assert (Hu : outcome (game st5) = UNKNOWN) by congruence.
  destruct (determine_outcome_follows (game st5) Hu) as (Hf & Hh & Ha).
  split; [|exact Hf].
  unfold scores_paired. rewrite Hh, Ha, Kh5, Ka5, Kh4, Ka4.
  destruct Hs3 as [[-> ->]|[Hsh Hsa]]; [|easy].
  rewrite Kh2, Ka2, Kh1, Ka1. simpl. easy.
Qed.

(** Without a score element, or with a score text that does not split
    into exactly two parts, the statement for the scores changes nothing. *)
Lemma scores_skipped (row : element) (st st' : @row_state D) :
  nonempty (pq_select score_selector row) = false \/
  (exists parts, split "–" (pq_text (pq_select score_selector row)) = Ok parts /\
                 length parts <> 2%nat) ->
  scores row st = (Ok tt, st') -> st' = st.
Proof.
  unfold scores, when. intros [Hne|(parts & Hsplit & Hlen)].
  - rewrite Hne. now intros [= <-].
  - destruct (nonempty _); [|now intros [= <-]].
    unfold bind, lift. rewrite Hsplit.
    destruct parts as [|a [|b [|c parts]]]; try (now intros [= <-]).
    now simpl in Hlen.
Qed.

Lemma row_body_no_scores (outcomes : Z) (url : string) (row : element) (d : D)
    (st' : row_state) :
  nonempty (pq_select score_selector row) = false \/
  (exists parts, split "–" (pq_text (pq_select score_selector row)) = Ok parts /\
                 length parts <> 2%nat) ->
  row_body outcomes url row {| game := Game_new; driver := d |} = (Ok tt, st') ->
  score_home (game st') = None /\ score_away (game st') = None.
Proof.
  unfold row_body.
  set (game_link := pq_attr "href" (pq_select game_link_selector row)).
  intros Hskip Hrun.
  apply bind_ok in Hrun as ([] & st1 & H1 & Hrun).
  apply bind_ok in Hrun as ([] & st2 & H2 & Hrun).
  apply bind_ok in Hrun as ([] & st3 & H3 & Hrun).
  apply bind_ok in Hrun as ([] & st4 & H4 & Hrun).
  apply bind_ok in Hrun as ([] & st5 & H5 & Hrun).
  apply bind_ok in Hrun as ([] & st6 & H6 & Hrun).
  pose proof (keeps_average_odds_view outcomes game_link
                {| game := Game_new; driver := d |}) as K1.
  rewrite H1 in K1.
  pose proof (keeps_teams row st1) as K2. rewrite H2 in K2.
  pose proof (keeps_metadata outcomes url st3) as K4. rewrite H4 in K4.
  pose proof (keeps_final_odds outcomes row st4) as K5. rewrite H5 in K5.
  pose proof (keeps_public_percentage game_link st6) as K7. rewrite Hrun in K7.
  apply result_fields_inv in K1 as (Kh1 & Ka1 & Ko1).
  apply result_fields_inv in K2 as (Kh2 & Ka2 & Ko2).
  apply result_fields_inv in K4 as (Kh4 & Ka4 & Ko4).
  apply result_fields_inv in K5 as (Kh5 & Ka5 & Ko5).
  apply result_fields_inv in K7 as (Kh7 & Ka7 & Ko7).
  apply (scores_skipped _ _ _ Hskip) in H3. subst st3.
  injection H6 as <-. simpl in *.
  assert (Hu : outcome (game st5) = UNKNOWN) by congruence.
  destruct (determine_outcome_follows (game st5) Hu) as (_ & Hh & Ha).
  split; congruence.
Qed.

(** One row adds no game or one game; a game it adds passed the
    completeness test, has both scores or none, and the outcome its scores
    decide.  Nothing else of the season changes. *)
Lemma process_row_adds (url : string) (season : Season) (d : D) (row : element) :
  let season' := (process_row url season d row).1 in
  name season' = name season /\
  possible_outcomes season' = possible_outcomes season /\
  urls season' = urls season /\
  exists added, games season' = games season ++ added /\ Forall emitted added.
Proof.
  unfold process_row.
  destruct (row_body _ _ _ _) as [[[]|e] st] eqn:Hrun; simpl.
  - destruct (complete (game st)) eqn:Hc; simpl.
    + repeat split. exists [game st]. split; [reflexivity|].
      constructor; [|constructor]. split; [exact Hc|].
      eapply row_body_returns, Hrun.
    + repeat split. exists []. now rewrite app_nil_r.
  - repeat split. exists []. now rewrite app_nil_r.
Qed.

Lemma process_rows_adds (url : string) (rows : list element) (season : Season) (d : D) :
  let season' := (process_rows url rows season d).1 in
  name season' = name season /\
  possible_outcomes season' = possible_outcomes season /\
  urls season' = urls season /\
  exists added, games season' = games season ++ added /\ Forall emitted added.
Proof.
  revert season d. induction rows as [|row rows IH]; intros season d; simpl.
  - repeat split. exists []. now rewrite app_nil_r.
  - pose proof (process_row_adds url season d row) as Hrow.
    destruct (process_row url season d row) as [s1 d1]. simpl in Hrow.
    destruct Hrow as (Hn & Hp & Hu & a1 & Hg1 & Hf1).
    destruct (IH s1 d1) as (Hn' & Hp' & Hu' & a2 & Hg2 & Hf2).
    repeat split; try congruence.
    exists (a1 ++ a2). split; [|now apply Forall_app].
    rewrite Hg2, Hg1. now rewrite <- app_assoc.
Qed.

Lemma populate_pages_adds (pages : list string) (season : Season) (d : D) :
  let season' := (populate_pages pages season d).1.2 in
  name season' = name season /\
  possible_outcomes season' = possible_outcomes season /\
  urls season' = urls season /\
  exists added, games season' = games season ++ added /\ Forall emitted added.
Proof.
  revert season d. induction pages as [|url pages IH]; intros season d; simpl.
  - repeat split. exists []. now rewrite app_nil_r.
  - destruct (go_to_link url d) as [[[|]|e] d1]; simpl.
    + destruct (get_html_source d1) as [html_querying|e]; simpl.
      * pose proof (process_rows_adds url
                      (pq_select event_row_selector html_querying) season d1) as Hrows.
        destruct (process_rows url _ season d1) as [s1 d2]. simpl in Hrows.
        destruct Hrows as (Hn & Hp & Hu & a1 & Hg1 & Hf1).
        destruct (IH s1 d2) as (Hn' & Hp' & Hu' & a2 & Hg2 & Hf2).
        repeat split; try congruence.
        exists (a1 ++ a2). split; [|now apply Forall_app].
        rewrite Hg2, Hg1. now rewrite <- app_assoc.
      * repeat split. exists []. now rewrite app_nil_r.
    + apply IH.
    + repeat split. exists []. now rewrite app_nil_r.
Qed.

(** *** The season *)

(** C8. A game is added to [season.games] only if [team_home],
    [team_away], [odds_home] and [odds_away] are all present: each row adds
    at most one game, and every game that [populate_games_into_season]
    adds passed the completeness test and has the four fields. *)
Theorem only_complete_games_added (season : Season) (d : D) :
  (exists added,
     games (populate_games_into_season season d).1.2 = games season ++ added /\
     Forall (fun g => complete g = true /\ has_required_fields g) added) /\
  (forall url row,
     games (process_row url season d row).1 = games season \/
     exists g, games (process_row url season d row).1 = games season ++ [g] /\
               complete g = true /\ has_required_fields g).
Proof.
  split.
  - destruct (populate_pages_adds (urls season) season d) as (_ & _ & _ & added & Hg & Hf).
    exists added. split; [exact Hg|].
    eapply Forall_impl; [exact Hf|]. intros g (Hc & _).
    split; [exact Hc | now apply complete_has_required_fields].
  - intros url row. unfold process_row.
    destruct (row_body _ _ _ _) as [[[]|e] st]; simpl; [|now left].
    destruct (complete (game st)) eqn:Hc; simpl; [|now left].
    right. exists (game st). split; [reflexivity|].
    split; [exact Hc | now apply complete_has_required_fields].
Qed.

(** C9. In every game that [populate_games_into_season] adds, the outcome
    is HOME exactly when both scores are present and the home score is the
    greater, AWAY exactly when it is the smaller, DRAW exactly when the two
    are equal, and UNKNOWN exactly when a score is absent. *)
Theorem added_outcome_follows_scores (season : Season) (d : D) :
  exists added,
    games (populate_games_into_season season d).1.2 = games season ++ added /\
    Forall outcome_follows_scores added.
Proof.
  destruct (populate_pages_adds (urls season) season d) as (_ & _ & _ & added & Hg & Hf).
  exists added. split; [exact Hg|].
  eapply Forall_impl; [exact Hf|]. now intros g (_ & _ & Ho).
Qed.

(** C10. In every game that [populate_games_into_season] adds,
    [score_home] is present exactly when [score_away] is; a row whose score
    text has two parts of which one is not a number adds no game; and a row
    without a score element, or whose score text does not split on the en
    dash into exactly two parts, adds a game with neither score. *)
Theorem added_scores_paired (season : Season) (d : D) :
  (exists added,
     games (populate_games_into_season season d).1.2 = games season ++ added /\
     Forall scores_paired added) /\
  (forall url row a b,
     nonempty (pq_select score_selector row) = true ->
     split "–" (pq_text (pq_select score_selector row)) = Ok [a; b] ->
     is_ok (int_of_str (strip a)) && is_ok (int_of_str (strip b)) = false ->
     (process_row url season d row).1 = season) /\
  (forall url row g,
     nonempty (pq_select score_selector row) = false \/
     (exists parts, split "–" (pq_text (pq_select score_selector row)) = Ok parts /\
                    length parts <> 2%nat) ->
     games (process_row url season d row).1 = games season ++ [g] ->
     score_home g = None /\ score_away g = None).
Proof.
  split; [|split].
  - destruct (populate_pages_adds (urls season) season d) as (_ & _ & _ & added & Hg & Hf).
    exists added. split; [exact Hg|].
    eapply Forall_impl; [exact Hf|]. now intros g (_ & Hp & _).
  - intros url row a b Hne Hsplit Hbad. unfold process_row.
    destruct (row_body _ _ _ _) as [[[]|e] st] eqn:Hrun; simpl; [|reflexivity].
    exfalso. unfold row_body in Hrun.
    apply bind_ok in Hrun as ([] & st1 & _ & Hrun).
    apply bind_ok in Hrun as ([] & st2 & _ & Hrun).
    apply bind_ok in Hrun as ([] & st3 & H3 & _).
    unfold scores, when in H3. rewrite Hne in H3.
    unfold bind, lift in H3. rewrite Hsplit in H3.
    destruct (int_of_str (strip a)); [|discriminate]. simpl in H3, Hbad.
    destruct (int_of_str (strip b)); discriminate.
  - intros url row g Hskip. unfold process_row.
    destruct (row_body _ _ _ _) as [[[]|e] st] eqn:Hrun; simpl.
    + destruct (complete (game st)); simpl; intros Hg.
      * apply app_inv_head in Hg. injection Hg as <-.
        eapply row_body_no_scores; eauto.
      * rewrite <- (app_nil_r (games season)) in Hg at 1.
        apply app_inv_head in Hg. discriminate.
    + intros Hg. rewrite <- (app_nil_r (games season)) in Hg at 1.
      apply app_inv_head in Hg. discriminate.
Qed.

End facts.

Import Static Examples.

(** The row Bears against Lions, 3 to 1 at the odds 1.91 and 1.91, is added
    with the outcome HOME and the moneylines -110. *)
Example scored_game_is_added :
  summary <$> games (populate_games_into_season nfl_season (nfl_site "3–1")).1.2
  = [(Some "Bears", Some "Lions", Some 3, Some 1, HOME, Some (-110), Some (-110))].
Proof. vm_compute. reflexivity. Qed.

(** Without a score text of two parts the game is added with no score and
    the outcome UNKNOWN. *)
Example unscored_game_is_added :
  summary <$> games (populate_games_into_season nfl_season (nfl_site "postp.")).1.2
  = [(Some "Bears", Some "Lions", None, None, UNKNOWN, Some (-110), Some (-110))].
Proof. vm_compute. reflexivity. Qed.

(** A score text whose second part is not a number ends the row: no game
    is added. *)
Example half_scored_row_is_dropped :
  games (populate_games_into_season nfl_season (nfl_site "3–x")).1.2 = [].
Proof. vm_compute. reflexivity. Qed.

(** The row with the score text [3–x] adds no game, and the game that the
    row with the score text [postp.] adds has neither score. *)
Lemma added_scores_paired_witness :
  (process_row nfl_url nfl_season (nfl_site "3–x") (event_row "3–x")).1 = nfl_season /\
  (let g := nth 0 (games (process_row nfl_url nfl_season (nfl_site "postp.")
                            (event_row "postp.")).1) Game_new in
   complete g = true /\ score_home g = None /\ score_away g = None).
Proof.
  split.
  - apply (proj1 (proj2 (added_scores_paired nfl_season (nfl_site "3–x")))
             nfl_url (event_row "3–x") "3" "x"); reflexivity.
  - split; [reflexivity|].
    apply (proj2 (proj2 (added_scores_paired nfl_season (nfl_site "postp.")))
             nfl_url (event_row "postp.")).
    + right. exists ["postp."]. split; [reflexivity | discriminate].
    + vm_compute. reflexivity.
Defined.
End ScraperFacts.

(** * Further properties of the code *)

(** ** The odds conversion, further *)

Module OddsMore.
Import Py Scraper FloatFacts OddsFacts.
Local Open Scope Q_scope.

Lemma favourite_quotient_mono (a b : Q) : 0 < a -> a <= b -> -100 / a <= -100 / b.
Proof.
  intros Ha Hab.
  apply Qle_shift_div_l; [lra|].
  setoid_replace (-100 / a * b) with (-100 * b / a) using relation Qeq by (field; lra).
  apply Qle_shift_div_r; lra.
Qed.

(** From 2.00 up to [10 ^ 306] the conversion returns. *)
Lemma normalize_high_returns (d : Q) :
  2 <= d -> d <= inject_Z (10 ^ 306) ->
  exists x,
    x == rnd (rnd (d - 1) * 100) /\ 100 <= x /\
    normalize (Finite d) = Ok (round_half_even x).
Proof.
  intros Hd Hbig.
  destruct (normalize_high d Hd) as (Hp & [(x & Hx & _ & Hn)|(_ & _ & Hfar)]).
  - exists x. split; [exact Hx|]. split; [lra | exact Hn].
  - exfalso. lra.
Qed.

(** For every double above 1.0 and up to [1e306] the conversion returns a
    moneyline of magnitude at least 100: at most -100 below 2.00 and at
    least 100 from 2.00 on. *)
Theorem moneyline_magnitude (d : Q) :
  is_double (Finite d) -> 1 < d -> d <= inject_Z (10 ^ 306) ->
  exists v : Z,
    normalize (Finite d) = Ok v /\
    (d < 2 -> (v <= -100)%Z) /\
    (2 <= d -> (100 <= v)%Z).
Proof.
  intros Hdbl Hd Hbig. destruct (Qlt_le_dec d 2) as [Hlt|Hge].
  - destruct (normalize_low d Hdbl Hd Hlt) as (_ & Hq & x & Hx & _ & Hn).
    exists (round_half_even x). split; [exact Hn|]. split; [|lra].
    intros _. apply round_half_even_le. change (inject_Z (-100)) with (-100). lra.
  - destruct (normalize_high_returns d Hge Hbig) as (x & _ & Hx & Hn).
    exists (round_half_even x). split; [exact Hn|]. split; [lra|].
    intros _. apply round_half_even_ge. change (inject_Z 100) with 100. lra.
Qed.

(** The moneylines of 1.25 and of 3.5. *)
Lemma moneyline_magnitude_witness :
  (exists v : Z, normalize (Finite (5 # 4)) = Ok v /\ (v <= -100)%Z) /\
  (exists v : Z, normalize (Finite (7 # 2)) = Ok v /\ (100 <= v)%Z).
Proof.
  split.
  - destruct (moneyline_magnitude (5 # 4) eq_refl ltac:(reflexivity)
                ltac:(vm_compute; discriminate)) as (v & Hv & Hlow & _).
    exists v. split; [exact Hv | apply Hlow; reflexivity].
  - destruct (moneyline_magnitude (7 # 2) eq_refl ltac:(reflexivity)
                ltac:(vm_compute; discriminate)) as (v & Hv & _ & Hhigh).
    exists v. split; [exact Hv | apply Hhigh; vm_compute; discriminate].
Defined.

(** Above 1.0 and up to [1e306] the conversion keeps the order of the
    odds, also across the threshold 2.00. *)
Theorem moneyline_monotone (c d : Q) :
  is_double (Finite c) -> is_double (Finite d) ->
  1 < c -> c <= d -> d <= inject_Z (10 ^ 306) ->
  exists v w : Z,
    normalize (Finite c) = Ok v /\ normalize (Finite d) = Ok w /\ (v <= w)%Z.
Proof.
  intros Hc0 Hd0 Hc Hcd Hbig.
  destruct (Qlt_le_dec c 2) as [Hc2|Hc2], (Qlt_le_dec d 2) as [Hd2|Hd2].
  - destruct (normalize_low c Hc0 Hc Hc2) as (Hsc & _ & x & Hx & _ & Hnx).
    destruct (normalize_low d Hd0 ltac:(lra) Hd2) as (Hsd & _ & y & Hy & _ & Hny).
    exists (round_half_even x), (round_half_even y).
    split; [exact Hnx|]. split; [exact Hny|].
    apply round_half_even_mono.
    pose proof (rnd_mono (c - 1) (d - 1) ltac:(lra)) as Hs.
    pose proof (rnd_mono _ _ (favourite_quotient_mono _ _ Hsc Hs)). lra.
  - destruct (normalize_low c Hc0 Hc Hc2) as (_ & Hq & x & Hx & _ & Hnx).
    destruct (normalize_high_returns d Hd2 Hbig) as (y & _ & Hy & Hny).
    exists (round_half_even x), (round_half_even y).
    split; [exact Hnx|]. split; [exact Hny|].
    assert (round_half_even x <= -100)%Z
      by (apply round_half_even_le; change (inject_Z (-100)) with (-100); lra).
    assert (100 <= round_half_even y)%Z
      by (apply round_half_even_ge; change (inject_Z 100) with 100; lra).
    lia.
  - exfalso. lra.
  - destruct (normalize_high_returns c Hc2 ltac:(lra)) as (x & Hx & _ & Hnx).
    destruct (normalize_high_returns d Hd2 Hbig) as (y & Hy & _ & Hny).
    exists (round_half_even x), (round_half_even y).
    split; [exact Hnx|]. split; [exact Hny|].
    apply round_half_even_mono.
    pose proof (rnd_mono (c - 1) (d - 1) ltac:(lra)) as Hs.
    pose proof (rnd_mono (rnd (c - 1) * 100) (rnd (d - 1) * 100) ltac:(lra)). lra.
Qed.

(** From 1.5 to 1.75 to 2.5: -200, -133, 150. *)
Lemma moneyline_monotone_witness :
  (exists v w : Z, normalize (Finite (3 # 2)) = Ok v /\
                   normalize (Finite (7 # 4)) = Ok w /\ (v <= w)%Z) /\
  (exists v w : Z, normalize (Finite (7 # 4)) = Ok v /\
                   normalize (Finite (5 # 2)) = Ok w /\ (v <= w)%Z).
Proof.
  split.
  - exact (moneyline_monotone (3 # 2) (7 # 4) eq_refl eq_refl ltac:(reflexivity)
             ltac:(vm_compute; discriminate) ltac:(vm_compute; discriminate)).
  - exact (moneyline_monotone (7 # 4) (5 # 2) eq_refl eq_refl ltac:(reflexivity)
             ltac:(vm_compute; discriminate) ltac:(vm_compute; discriminate)).
Defined.

End OddsMore.

(** ** The crawler, further *)

Module CrawlerMore.
Import Py Models Dom Crawler CrawlerFacts Support.

(** *** Replacing the page number *)

(** When [page/N] stands once in the URL of the last page, the URL of
    page [i] is that URL with [page/i] in its place. *)
Theorem page_url_substitutes (p t : string) (N i : Z) :
  let old := "page/" +:+ str_of_int N in
  occurs_within old p (old +:+ t) = false ->
  contains old t = false ->
  page_url (p +:+ old +:+ t) N i = p +:+ ("page/" +:+ str_of_int i) +:+ t.
Proof.
  intros old Hp Ht. unfold page_url, replace.
  change ("page/" +:+ str_of_int N) with (String "p" ("age/" +:+ str_of_int N)) in *.
  now apply replace_from_once.
Qed.

(** Page 2 of 5 of the hockey results. *)
Lemma page_url_substitutes_witness :
  page_url "https://www.oddsportal.com/hockey/usa/nhl/results/#/page/5/" 5 2
  = "https://www.oddsportal.com/hockey/usa/nhl/results/#/page/2/".
Proof.
  apply (page_url_substitutes
           "https://www.oddsportal.com/hockey/usa/nhl/results/#/" "/" 5 2);
    reflexivity.
Defined.


Section more.
Context {D : Type} `{Browser D} `{PyQuery}.

(** *** Loading a page *)

(** The probe answers [True] exactly when one selector finds an element
    and every selector before it raised [NoSuchElementException]. *)
Lemma probe_true_iff (sels : list selector) (d : D) :
  probe sels d = Ok true <->
  exists before sel after,
    sels = before ++ sel :: after /\
    is_ok (find_element sel d) = true /\
    Forall (fun s => exists m, find_element s d = Raise (NoSuchElementException m)) before.
Proof.
  induction sels as [|s sels IH]; simpl.
  - split; [discriminate|]. intros (before & sel & after & Heq & _).
    now destruct before.
  - destruct (find_element s d) as [t|e] eqn:Hs.
    + split; [|reflexivity]. intros _. exists [], s, sels.
      rewrite Hs. repeat split. constructor.
    + assert (Hnot : forall before sel after,
                s :: sels = before ++ sel :: after ->
                is_ok (find_element sel d) = true ->
                exists before', before = s :: before' /\ sels = before' ++ sel :: after).
      { intros [|b before] sel after Heq Hok; simpl in Heq; injection Heq as -> ->.
        - rewrite Hs in Hok. discriminate.
        - eauto. }
      destruct e; try (split; [discriminate|];
        intros (before & sel & after & Heq & Hok & Hall);
        destruct (Hnot _ _ _ Heq Hok) as (before' & -> & _);
        apply Forall_cons in Hall as [[m Hm] _]; rewrite Hs in Hm; discriminate).
      rewrite IH. split.
      * intros (before & sel & after & -> & Hok & Hall).
        exists (s :: before), sel, after. repeat split; [exact Hok|].
        constructor; eauto.
      * intros (before & sel & after & Heq & Hok & Hall).
        destruct (Hnot _ _ _ Heq Hok) as (before' & -> & ->).
        apply Forall_cons in Hall as [_ Hall]. eauto 6.
Qed.

(** [Crawler.go_to_link] answers [True] exactly when the load raised
    nothing and, on the page loaded, one of the ten selectors finds an
    element after every earlier one raised [NoSuchElementException]. *)
Theorem go_to_link_true_iff (link : string) (d : D) :
  (go_to_link link d).1 = true <->
  (driver_get link d).1 = Ok tt /\
  exists before sel after,
    probe_selectors = before ++ sel :: after /\
    is_ok (find_element sel (driver_get link d).2) = true /\
    Forall (fun s => exists m,
              find_element s (driver_get link d).2 = Raise (NoSuchElementException m))
      before.
Proof.
  unfold go_to_link.
  destruct (driver_get link d) as [[[]|e] d1]; cbv beta iota; cbn [fst snd].
  - rewrite <- probe_true_iff.
    destruct (probe probe_selectors d1) as [[|]|e]; cbn [fst].
    + split; intros; [split|]; reflexivity.
    + split; [discriminate | intros [_ Hp]; discriminate].
    + split; [discriminate | intros [_ Hp]; discriminate].
  - split; [discriminate | intros [Hr _]; discriminate].
Qed.

(** The browser is left as the load left it, whatever the answer. *)
Lemma go_to_link_state (link : string) (d : D) :
  (go_to_link link d).2 = (driver_get link d).2.
Proof.
  unfold go_to_link. destruct (driver_get link d) as [[[]|e] d1]; cbv beta iota;
    [destruct (probe probe_selectors d1) as [[|]|e]|]; reflexivity.
Qed.

(** *** Season discovery *)

Variable default_outcomes : Z.

Lemma add_season_links_ok (links : list element) (acc seasons : list Season) :
  add_season_links default_outcomes links acc = Ok seasons ->
  exists added, seasons = acc ++ added /\ Forall (built_from default_outcomes links) added.
Proof.
  revert acc. induction links as [|l links IH]; intros acc; simpl.
  - intros [= <-]. exists []. now rewrite app_nil_r.
  - unfold attrib_get. destruct (attrib l !! "href") as [href|] eqn:Hh; [|discriminate].
    assert (Hmono : forall s, built_from default_outcomes links s -> built_from default_outcomes (l :: links) s).
    { intros s (k & h & t & Hin & Hrest). exists k, h, t. split; [now right | exact Hrest]. }
    destruct (contains "/results/" href && str_truthy (default EmptyString (text l)))
      eqn:Hc.
    + intros Hrun. apply IH in Hrun as (added & -> & Hall).
      eexists (_ :: added). rewrite <- app_assoc. split; [reflexivity|].
      constructor; [|eapply Forall_impl; eauto].
      apply andb_prop in Hc as [Hc1 Hc2].
      destruct (text l) as [txt|] eqn:Ht; [|discriminate].
      exists l, href, txt. repeat split; try assumption. now left.
    + intros Hrun. apply IH in Hrun as (added & -> & Hall).
      exists added. split; [reflexivity|]. eapply Forall_impl; eauto.
Qed.

Lemma scan_selectors_ok (sels : list selector) (doc : element)
    (acc seasons : list Season) :
  scan_selectors default_outcomes sels doc acc = Ok seasons ->
  exists added,
    seasons = acc ++ added /\
    Forall (fun s => exists sel, sel ∈ sels /\ built_from default_outcomes (pq_find sel doc) s) added.
Proof.
  revert acc. induction sels as [|sel sels IH]; intros acc; simpl.
  - intros [= <-]. exists []. now rewrite app_nil_r.
  - assert (Hmono : forall s,
              (exists x, x ∈ sels /\ built_from default_outcomes (pq_find x doc) s) ->
              exists x, x ∈ sel :: sels /\ built_from default_outcomes (pq_find x doc) s).
    { intros s (x & Hin & Hb). exists x. split; [now right | exact Hb]. }
    destruct (pq_find sel doc) as [|l links] eqn:Hf.
    + intros Hrun. apply IH in Hrun as (added & -> & Hall).
      exists added. split; [reflexivity|]. eapply Forall_impl; eauto.
    + destruct (add_season_links default_outcomes (l :: links) acc) as [mid|e] eqn:Ha;
        [|discriminate].
      apply add_season_links_ok in Ha as (a1 & -> & Hall1).
      intros Hrun. apply IH in Hrun as (a2 & -> & Hall2).
      exists (a1 ++ a2). rewrite <- app_assoc. split; [reflexivity|].
      apply Forall_app. split; [|eapply Forall_impl; eauto].
      eapply Forall_impl; [exact Hall1|]. intros s Hb.
      exists sel. split; [now left | now rewrite Hf].
Qed.

(** Every season that [get_seasons_for_league] returns was built from a
    link that one of the four selectors matched on the page: its single
    URL is the link's [href], which contains [/results/], its name is the
    link's non-empty text stripped, and it has no game. *)
Theorem discovered_seasons_shape (url : string) (d : D) (seasons : list Season) :
  (get_seasons_for_league default_outcomes url d).1 = Ok seasons ->
  Forall (fun s =>
            exists doc sel,
              get_html_source (go_to_link url d).2 = Ok doc /\
              sel ∈ season_selectors /\
              built_from default_outcomes (pq_find sel doc) s)
    seasons.
Proof.
  unfold get_seasons_for_league.
  destruct (go_to_link url d) as [[|] d1]; cbv beta iota; cbn [negb fst snd].
  - destruct (get_html_source d1) as [doc|e]; cbn [fst]; [|discriminate].
    intros Hrun. apply scan_selectors_ok in Hrun as (added & -> & Hall).
    eapply Forall_impl; [exact Hall|]. intros s (sel & Hin & Hb). eauto.
  - intros [= <-]. constructor.
Qed.

(** *** Missing [href] *)

Lemma add_season_links_raises (links : list element) (acc : list Season) :
  (forall e, add_season_links default_outcomes links acc = Raise e -> e = KeyError) /\
  (is_ok (add_season_links default_outcomes links acc) = false <->
   Exists (fun l => attrib l !! "href" = None) links).
Proof.
  revert acc. induction links as [|l links IH]; intros acc; simpl.
  - split; [discriminate|]. split; [discriminate | intros He; inversion He].
  - unfold attrib_get. destruct (attrib l !! "href") as [href|] eqn:Hh.
    + assert (Hex : Exists (fun l => attrib l !! "href" = None) (l :: links) <->
                    Exists (fun l => attrib l !! "href" = None) links).
      { rewrite Exists_cons. split; [intros [Hl|Hr]; [congruence | exact Hr] | auto]. }
      rewrite Hex. destruct (contains "/results/" href && _); apply IH.
    + split; [now intros e [= <-]|]. split; [|reflexivity].
      intros _. now left.
Qed.

Lemma scan_selectors_raises (sels : list selector) (doc : element) (acc : list Season) :
  (forall e, scan_selectors default_outcomes sels doc acc = Raise e -> e = KeyError) /\
  (is_ok (scan_selectors default_outcomes sels doc acc) = false <->
   Exists (fun sel => Exists (fun l => attrib l !! "href" = None) (pq_find sel doc)) sels).
Proof.
  revert acc. induction sels as [|sel sels IH]; intros acc; simpl.
  - split; [discriminate|]. split; [discriminate | intros He; inversion He].
  - rewrite Exists_cons.
    destruct (pq_find sel doc) as [|l links] eqn:Hf.
    + destruct (IH acc) as [IH1 IH2]. split; [exact IH1|].
      rewrite IH2. split; [auto | intros [He|Hr]; [inversion He | exact Hr]].
    + destruct (add_season_links_raises (l :: links) acc) as [Ha1 Ha2].
      destruct (add_season_links default_outcomes (l :: links) acc) as [mid|e] eqn:Ha.
      * destruct (IH mid) as [IH1 IH2]. split; [exact IH1|].
        rewrite IH2. split; [auto|]. intros [He|Hr]; [|exact Hr].
        apply Ha2 in He. discriminate.
      * split; [intros e' [= <-]; now apply Ha1|].
        split; [|reflexivity]. intros _. left. now apply Ha2.
Qed.

(** On a page that loaded, [get_seasons_for_league] raises exactly what
    reading the page source raises, and otherwise raises exactly when a
    link matched by one of the four selectors has no [href], and then
    [KeyError]. *)
Theorem discovery_raises_iff (url : string) (d : D) (e : exn) :
  (go_to_link url d).1 = true ->
  let d1 := (go_to_link url d).2 in
  (get_seasons_for_league default_outcomes url d).1 = Raise e <->
  get_html_source d1 = Raise e \/
  exists doc,
    get_html_source d1 = Ok doc /\ e = KeyError /\
    Exists (fun sel => Exists (fun l => attrib l !! "href" = None) (pq_find sel doc))
      season_selectors.
Proof.
  unfold get_seasons_for_league.
  destruct (go_to_link url d) as [ok d1]; cbn [fst snd]. intros ->.
  cbv beta iota; cbn [negb fst snd].
  destruct (get_html_source d1) as [doc|e']; cbn [fst].
  - destruct (scan_selectors_raises season_selectors doc []) as [H1 H2].
    split.
    + intros Hrun. right. exists doc. split; [reflexivity|].
      split; [now apply H1|]. apply H2. now rewrite Hrun.
    + intros [Hr|(doc' & [= <-] & -> & Hex)]; [discriminate|].
      apply H2 in Hex.
      destruct (scan_selectors default_outcomes season_selectors doc []) as [l|e'] eqn:Hrun;
        [discriminate|].
      f_equal. now apply H1.
  - split.
    + intros [= <-]. now left.
    + intros [[= <-]|(doc' & Hr & _)]; [reflexivity | discriminate].
Qed.

(** *** The resolver on every input *)

(** The resolver changes nothing of a season but its URLs, to which it
    only appends; when it raises, it has changed nothing. *)
Theorem resolver_only_appends (season : Season) (d : D) :
  let r := fill_in_season_pagination_links season d in
  name r.1.2 = name season /\
  possible_outcomes r.1.2 = possible_outcomes season /\
  games r.1.2 = games season /\
  (exists added, urls r.1.2 = urls season ++ added) /\
  (is_ok r.1.1 = false -> r.1.2 = season).
Proof.
  assert (Hsame : forall (r : result unit) (d' : D),
            name (r, season, d').1.2 = name season /\
            possible_outcomes (r, season, d').1.2 = possible_outcomes season /\
            games (r, season, d').1.2 = games season /\
            (exists added, urls (r, season, d').1.2 = urls season ++ added) /\
            (is_ok (r, season, d').1.1 = false -> (r, season, d').1.2 = season)).
  { intros r d'. cbn [fst snd]. repeat split. exists []. now rewrite app_nil_r. }
  unfold fill_in_season_pagination_links.
  destruct (urls season) as [|first_url rest] eqn:Hurls; [apply Hsame|].
  destruct (go_to_link first_url d) as [ok d1].
  destruct (get_html_source d1) as [doc|e]; [|apply Hsame].
  destruct (bool_decide _); [apply Hsame|].
  destruct (_ <=? 1)%nat; [apply Hsame|].
  destruct (locate_last_page _ _) as [[n [last_url|]]|e];
    try apply Hsame; destruct (n =? -1)%Z; try apply Hsame.
  cbn [fst snd].
  destruct (append_page_urls_frame (range 2 n) last_url n season) as (Hn & Hp & Hg).
  cbn [name possible_outcomes games urls urls_append].
  rewrite append_page_urls_urls, Hurls.
  repeat split; try assumption; [|discriminate].
  eexists. rewrite <- app_assoc. reflexivity.
Qed.

(** Behind the two guards the resolver is its scan of the anchors. *)
Lemma fill_in_scans (season : Season) (d : D) (first_url : string)
    (rest : list string) (doc : element) :
  urls season = first_url :: rest ->
  let d1 := (go_to_link first_url d).2 in
  get_html_source d1 = Ok doc ->
  pq_text (pq_find no_data_selector doc) <> "No data available" ->
  (2 <= length (pq_find pagination_selector doc))%nat ->
  fill_in_season_pagination_links season d =
  match locate_last_page (rev (pq_find pagination_selector doc)) first_url with
  | Raise e => (Raise e, season, d1)
  | Ok (n, last_page_url) =>
      if (n =? -1)%Z
      then (Raise (RuntimeError [no_final_page_message; first_url]), season, d1)
      else match last_page_url with
           | None => (Raise AttributeError, season, d1)
           | Some last_url =>
               (Ok tt,
                urls_append last_url (append_page_urls (range 2 n) last_url n season),
                d1)
           end
  end.
Proof.
  intros Hurls d1 Hdoc Hdata Hlen.
  unfold fill_in_season_pagination_links. rewrite Hurls.
  destruct (go_to_link first_url d) as [ok d'] eqn:Hgo. simpl in d1.
  fold d1. rewrite Hdoc. rewrite bool_decide_eq_false_2 by exact Hdata.
  destruct (length (pq_find pagination_selector doc) <=? 1)%nat eqn:Hle;
    [apply Nat.leb_le in Hle; lia|].
  reflexivity.
Qed.

(** Whatever URLs the season has and whatever page number other than -1
    the marked anchor gives, the resolver appends the URLs of the pages 2
    to [N - 1] and the URL of the last page; for [N <= 2] that is the URL
    of the last page alone. *)
Theorem resolver_appends_pages (season : Season) (d : D) (first_url : string)
    (rest : list string) (doc : element) (before after : list element)
    (link : element) (x_page href : string) (N : Z) :
  urls season = first_url :: rest ->
  let d1 := (go_to_link first_url d).2 in
  let last_url := first_url +:+ href in
  get_html_source d1 = Ok doc ->
  pq_text (pq_find no_data_selector doc) <> "No data available" ->
  pq_find pagination_selector doc = before ++ link :: after ->
  (2 <= length (before ++ link :: after))%nat ->
  has_last_page_mark link = true ->
  Forall (fun l => has_last_page_mark l = false) after ->
  attrib link !! "x-page" = Some x_page ->
  int_of_str x_page = Ok N ->
  attrib link !! "href" = Some href ->
  N <> -1 ->
  exists season',
    fill_in_season_pagination_links season d = (Ok tt, season', d1) /\
    urls season' = urls season ++ (page_url last_url N <$> range 2 N) ++ [last_url] /\
    (N <= 2 -> urls season' = urls season ++ [last_url]).
Proof.
  intros Hurls d1 last_url Hdoc Hdata Hlinks Hlen Hmark Hafter Hx Hn Hhref HN.
  exists (urls_append last_url (append_page_urls (range 2 N) last_url N season)).
  assert (Hu : urls (urls_append last_url (append_page_urls (range 2 N) last_url N season))
               = urls season ++ (page_url last_url N <$> range 2 N) ++ [last_url]).
  { cbn [urls urls_append]. rewrite append_page_urls_urls. now rewrite <- app_assoc. }
  split; [|split; [exact Hu|]].
  - rewrite (fill_in_scans season d first_url rest doc Hurls Hdoc Hdata)
      by (rewrite Hlinks; exact Hlen).
    fold d1. rewrite Hlinks.
    rewrite (locate_last_page_found _ _ _ _ _ _ _ Hmark Hafter Hx Hn Hhref).
    destruct (N =? -1)%Z eqn:HN1; [lia | reflexivity].
  - intros Hle. rewrite Hu. unfold range.
    replace (Z.to_nat (N - 2)) with 0%nat by lia. reflexivity.
Qed.

(** Only [ValueError] leaves [int]. *)
Lemma int_of_str_raises (x : string) (e : exn) :
  int_of_str x = Raise e -> e = ValueError.
Proof. unfold int_of_str. intros Hr. repeat case_match; congruence. Qed.

(** What the attributes of the marked anchor can make the resolver raise:
    [KeyError] without [x-page] or without [href], [ValueError] with an
    [x-page] that is no integer, and the [RuntimeError] of a missing mark
    with [x-page = -1].  The season is left as it was. *)
Theorem resolver_attribute_errors (season : Season) (d : D) (first_url : string)
    (rest : list string) (doc : element) (before after : list element)
    (link : element) :
  urls season = first_url :: rest ->
  let d1 := (go_to_link first_url d).2 in
  get_html_source d1 = Ok doc ->
  pq_text (pq_find no_data_selector doc) <> "No data available" ->
  pq_find pagination_selector doc = before ++ link :: after ->
  (2 <= length (before ++ link :: after))%nat ->
  has_last_page_mark link = true ->
  Forall (fun l => has_last_page_mark l = false) after ->
  (attrib link !! "x-page" = None ->
   fill_in_season_pagination_links season d = (Raise KeyError, season, d1)) /\
  (forall x, attrib link !! "x-page" = Some x -> is_ok (int_of_str x) = false ->
   fill_in_season_pagination_links season d = (Raise ValueError, season, d1)) /\
  (forall x n, attrib link !! "x-page" = Some x -> int_of_str x = Ok n ->
   attrib link !! "href" = None ->
   fill_in_season_pagination_links season d = (Raise KeyError, season, d1)) /\
  (forall x href, attrib link !! "x-page" = Some x -> int_of_str x = Ok (-1) ->
   attrib link !! "href" = Some href ->
   fill_in_season_pagination_links season d
   = (Raise (RuntimeError [no_final_page_message; first_url]), season, d1)).
Proof.
  intros Hurls d1 Hdoc Hdata Hlinks Hlen Hmark Hafter.
  rewrite (fill_in_scans season d first_url rest doc Hurls Hdoc Hdata)
    by (rewrite Hlinks; exact Hlen).
  fold d1. rewrite Hlinks.
  rewrite rev_app_distr. simpl rev. rewrite <- app_assoc.
  rewrite locate_last_page_skip by now apply Forall_rev.
  cbn [app locate_last_page]. rewrite Hmark. unfold attrib_get.
  repeat split.
  - now intros ->.
  - intros x -> Hbad.
    destruct (int_of_str x) as [n|e] eqn:Hint; [discriminate|].
    now rewrite (int_of_str_raises x e Hint).
  - now intros x n -> -> ->.
  - now intros x href -> -> ->.
Qed.

End more.

Import Static Examples.

(** The seasons found on the league page of the examples. *)
Lemma discovered_seasons_shape_witness :
  let s := urls_append "/hockey/usa/nhl-2022-2023/results/" (Season_new 2 "2022/2023") in
  Forall (fun s =>
            exists doc sel,
              get_html_source (go_to_link league_url league).2 = Ok doc /\
              sel ∈ season_selectors /\
              built_from 2 (pq_find sel doc) s)
    [s; s].
Proof.
  apply (discovered_seasons_shape 2 league_url league). vm_compute. reflexivity.
Defined.

(** The anchor without [href] inside [<div class=seasons>] raises
    [KeyError], and the season found before it is not returned. *)
Lemma discovery_raises_iff_witness :
  (get_seasons_for_league 2 league_url league_without_href).1 = Raise KeyError.
Proof.
  apply (discovery_raises_iff 2 league_url league_without_href KeyError); [reflexivity|].
  right. exists league_without_href_page.
  split; [reflexivity|]. split; [reflexivity|].
  apply Exists_cons_tl, Exists_cons_hd.
  match goal with
  | |- Exists _ (pq_find ?sel ?doc) =>
      replace (pq_find sel doc) with [leaf "a" [] "2021/2022"]
        by (vm_compute; reflexivity)
  end.
  apply Exists_cons_hd. reflexivity.
Defined.

(** With [x-page = 1] the season ends with two URLs. *)
Lemma resolver_appends_pages_witness :
  exists season',
    (fill_in_season_pagination_links nhl_season one_page_marked).1 = (Ok tt, season') /\
    urls season' =
      [ "https://www.oddsportal.com/hockey/usa/nhl/results/";
        "https://www.oddsportal.com/hockey/usa/nhl/results/#/page/1/" ].
Proof.
  destruct (resolver_appends_pages nhl_season one_page_marked results_url []
              (page [node "table" [] [];
                     pagination [anchor "1" "1";
                                 marked_anchor [("href", "#/page/1/"); ("x-page", "1")]]])
              [anchor "1" "1"] []
              (marked_anchor [("href", "#/page/1/"); ("x-page", "1")])
              "1" "#/page/1/" 1)
    as (season' & Hrun & _ & Hshort).
  - reflexivity.
  - reflexivity.
  - vm_compute. discriminate.
  - vm_compute. reflexivity.
  - simpl. lia.
  - reflexivity.
  - constructor.
  - reflexivity.
  - reflexivity.
  - reflexivity.
  - lia.
  - exists season'. split; [now rewrite Hrun|].
    rewrite Hshort by lia. reflexivity.
Defined.

Ltac attribute_case site attrs :=
  apply (resolver_attribute_errors nhl_season site results_url []
           (page [node "table" [] []; pagination [anchor "1" "1"; marked_anchor attrs]])
           [anchor "1" "1"] [] (marked_anchor attrs));
  [ reflexivity | reflexivity | vm_compute; discriminate | vm_compute; reflexivity
  | simpl; lia | reflexivity | constructor ].

(** The four pages of the examples: no [x-page], [x-page = last], no
    [href], [x-page = -1]. *)
Lemma resolver_attribute_errors_witness :
  (fill_in_season_pagination_links nhl_season no_x_page).1
  = (Raise KeyError, nhl_season) /\
  (fill_in_season_pagination_links nhl_season word_x_page).1
  = (Raise ValueError, nhl_season) /\
  (fill_in_season_pagination_links nhl_season no_href).1
  = (Raise KeyError, nhl_season) /\
  (fill_in_season_pagination_links nhl_season minus_one_x_page).1
  = (Raise (RuntimeError [no_final_page_message; results_url]), nhl_season).
Proof.
  split; [|split; [|split]].
  - assert (Hall : _) by attribute_case no_x_page [("href", "#/page/2/")].
    destruct Hall as (Hcase & _). now rewrite Hcase.
  - assert (Hall : _)
      by attribute_case word_x_page [("href", "#/page/2/"); ("x-page", "last")].
    destruct Hall as (_ & Hcase & _). now rewrite (Hcase "last").
  - assert (Hall : _) by attribute_case no_href [("x-page", "2")].
    destruct Hall as (_ & _ & Hcase & _). now rewrite (Hcase "2" 2).
  - assert (Hall : _)
      by attribute_case minus_one_x_page [("href", "#/page/2/"); ("x-page", "-1")].
    destruct Hall as (_ & _ & _ & Hcase). now rewrite (Hcase "-1" "#/page/2/").
Defined.
End CrawlerMore.

(** ** The scraper, further *)

Module ScraperMore.
Import Py Models Dom Scraper ScraperFacts Support.
Local Open Scope py_scope.

Section more.
Context {D : Type} `{Browser D} `{PyQuery}.

(** *** Loading a page *)

Lemma probe_true_finds (sels : list selector) (d : D) :
  probe sels d = Ok true ->
  exists sel, sel ∈ sels /\ is_ok (find_element sel d) = true.
Proof.
  induction sels as [|s sels IH]; simpl; [discriminate|].
  destruct (find_element s d) as [t|e] eqn:Hs.
  - intros _. exists s. rewrite Hs. split; [now left | reflexivity].
  - destruct e; try discriminate. intros Hp.
    destruct (IH Hp) as (sel & Hin & Hok). exists sel. split; [now right | exact Hok].
Qed.

Lemma go_to_link_from_answers (attempts : nat) (link : string) (d d' : D) :
  (forall e, go_to_link_from attempts link d = (Raise e, d') ->
             webdriver_exception e = false) /\
  (go_to_link_from attempts link d = (Ok true, d') ->
   exists sel, sel ∈ probe_selectors /\ is_ok (find_element sel d') = true).
Proof.
  revert d. induction attempts as [|k IH]; intros d; simpl.
  - split; [discriminate | discriminate].
  - unfold attempt. destruct (driver_get link d) as [[[]|e0] d1].
    + destruct (probe probe_selectors d1) as [b|e1] eqn:Hp.
      * split; [discriminate|]. intros [= -> <-]. now apply probe_true_finds.
      * destruct (webdriver_exception e1) eqn:Hw.
        -- destruct (contains _ _); [apply IH|]. split; discriminate.
        -- split; [intros e [= <- _]; exact Hw | discriminate].
    + destruct (webdriver_exception e0) eqn:Hw.
      * destruct (contains _ _); [apply IH|]. split; discriminate.
      * split; [intros e [= <- _]; exact Hw | discriminate].
Qed.

(** [Scraper.go_to_link] lets no [WebDriverException], nor one of its
    subclasses, leave it. *)
Theorem go_to_link_keeps_selenium_errors (link : string) (d : D) :
  raises_selenium (Scraper.go_to_link link d).1 = false.
Proof.
  destruct (Scraper.go_to_link link d) as [[b|e] d'] eqn:Hr; [reflexivity|].
  now apply (go_to_link_from_answers 3 link d d').
Qed.

(** When [Scraper.go_to_link] answers [True], one of its three selectors
    finds an element on the page the browser holds. *)
Theorem go_to_link_true_finds (link : string) (d d' : D) :
  Scraper.go_to_link link d = (Ok true, d') ->
  exists sel, sel ∈ Scraper.probe_selectors /\ is_ok (find_element sel d') = true.
Proof. intros Hr. now apply (go_to_link_from_answers 3 link d d'). Qed.

Lemma go_to_link_from_unresolved (attempts : nat) (link : string) (d : D) :
  (forall d0, exists e,
      (driver_get link d0).1 = Raise e /\ webdriver_exception e = true /\
      contains "ERR_NAME_NOT_RESOLVED" (str_of_exn e) = true) ->
  go_to_link_from attempts link d = (Ok false, load_times attempts link d).
Proof.
  intros Hdns. revert d. induction attempts as [|k IH]; intros d; simpl; [reflexivity|].
  unfold attempt. destruct (Hdns d) as (e & He & Hw & Hc).
  destruct (driver_get link d) as [r d1]. simpl in He. subst r. simpl.
  rewrite Hw, Hc. apply IH.
Qed.

(** When every load fails with a DNS error, [Scraper.go_to_link] answers
    [False] after exactly three loads. *)
Theorem unresolved_name_three_loads (link : string) (d : D) :
  (forall d0, exists e,
      (driver_get link d0).1 = Raise e /\ webdriver_exception e = true /\
      contains "ERR_NAME_NOT_RESOLVED" (str_of_exn e) = true) ->
  Scraper.go_to_link link d = (Ok false, load_times 3 link d).
Proof. apply go_to_link_from_unresolved. Qed.

(** *** The season *)

(** [populate_games_into_season] changes nothing of a season but its
    games, to which it only appends. *)
Theorem populate_only_appends (season : Season) (d : D) :
  let season' := (populate_games_into_season season d).1.2 in
  name season' = name season /\
  possible_outcomes season' = possible_outcomes season /\
  urls season' = urls season /\
  exists added, games season' = games season ++ added.
Proof.
  destruct (populate_pages_adds (urls season) season d) as (Hn & Hp & Hu & added & Hg & _).
  repeat split; try assumption. now exists added.
Qed.

Lemma process_row_count (url : string) (season : Season) (d : D) (row : element) :
  (length (games (process_row url season d row).1) <= S (length (games season)))%nat.
Proof.
  unfold process_row.
  destruct (row_body _ _ _ _) as [[[]|e] st]; simpl; [|lia].
  destruct (complete (game st)); simpl; [rewrite length_app; simpl|]; lia.
Qed.

(** The rows of a page add at most one game each. *)
Theorem one_game_per_row (url : string) (rows : list element) (season : Season) (d : D) :
  (length (games (process_rows url rows season d).1)
   <= length (games season) + length rows)%nat.
Proof.
  revert season d. induction rows as [|row rows IH]; intros season d; simpl; [lia|].
  pose proof (process_row_count url season d row) as Hrow.
  destruct (process_row url season d row) as [s1 d1]. simpl in Hrow.
  specialize (IH s1 d1). lia.
Qed.

Lemma populate_pages_raises (pages : list string) (season : Season) (d : D)
    (e : exn) :
  (populate_pages pages season d).1.1 = Raise e ->
  exists url d0,
    url ∈ pages /\
    ((exists d1, Scraper.go_to_link url d0 = (Raise e, d1) /\
                 webdriver_exception e = false) \/
     (exists d1, Scraper.go_to_link url d0 = (Ok true, d1) /\
                 get_html_source d1 = Raise e)).
Proof.
  revert season d. induction pages as [|url pages IH]; intros season d; simpl;
    [discriminate|].
  assert (Hmono : forall s0 d0,
            (populate_pages pages s0 d0).1.1 = Raise e ->
            exists url' d', url' ∈ url :: pages /\
              ((exists d1, Scraper.go_to_link url' d' = (Raise e, d1) /\
                           webdriver_exception e = false) \/
               (exists d1, Scraper.go_to_link url' d' = (Ok true, d1) /\
                           get_html_source d1 = Raise e))).
  { intros s0 d0 Hr. destruct (IH s0 d0 Hr) as (u & d' & Hin & Hcase).
    exists u, d'. split; [now right | exact Hcase]. }
  destruct (Scraper.go_to_link url d) as [[[|]|e0] d1] eqn:Hgo.
  - destruct (get_html_source d1) as [html_querying|e1] eqn:Hsrc.
    + destruct (process_rows url _ season d1) as [s1 d2]. apply Hmono.
    + cbn [fst snd]. intros [= ->]. exists url, d. split; [now left|].
      right. exists d1. split; [exact Hgo | exact Hsrc].
  - apply Hmono.
  - cbn [fst snd]. intros [= ->]. exists url, d. split; [now left|].
    left. exists d1. split; [exact Hgo|].
    now apply (go_to_link_from_answers 3 url d d1).
Qed.

(** Whatever [populate_games_into_season] raises was raised, for one of
    the season's pages, by [go_to_link], and is then no
    [WebDriverException], or by reading the source of the page after it
    loaded: nothing that is raised while a row is processed ends the
    run. *)
Theorem populate_raises_outside_rows (season : Season) (d : D) (e : exn) :
  (populate_games_into_season season d).1.1 = Raise e ->
  exists url d0,
    url ∈ urls season /\
    ((exists d1, Scraper.go_to_link url d0 = (Raise e, d1) /\
                 webdriver_exception e = false) \/
     (exists d1, Scraper.go_to_link url d0 = (Ok true, d1) /\
                 get_html_source d1 = Raise e)).
Proof. apply populate_pages_raises. Qed.

(** *** Statements that keep a part of the game *)

Section stable_rules.
Context {X : Type} (part : Game -> X).

Lemma stable_ret {A} (a : A) : @stable D X A part (ret a).
Proof. intros st. reflexivity. Qed.

Lemma stable_raise {A} (e : exn) : @stable D X A part (raise e).
Proof. intros st. reflexivity. Qed.

Lemma stable_lift {A} (r : result A) : @stable D X A part (lift r).
Proof. intros st. reflexivity. Qed.

Lemma stable_gets {A} (f : @row_state D -> A) : stable part (gets f).
Proof. intros st. reflexivity. Qed.

Lemma stable_read {A} (f : @row_state D -> result A) :
  stable part (fun st => (f st, st)).
Proof. intros st. reflexivity. Qed.

Lemma stable_bind {A B} (m : M (@row_state D) A) (f : A -> M row_state B) :
  stable part m -> (forall a, stable part (f a)) -> stable part (bind m f).
Proof.
  intros Hm Hf st. unfold bind. specialize (Hm st).
  destruct (m st) as [[a|e] s1]; simpl in *; [|exact Hm].
  rewrite (Hf a s1). exact Hm.
Qed.

Lemma stable_try_catch {A} (m : M (@row_state D) A) (c : exn -> bool)
    (h : exn -> M row_state A) :
  stable part m -> (forall e, stable part (h e)) -> stable part (try_catch m c h).
Proof.
  intros Hm Hh st. unfold try_catch. specialize (Hm st).
  destruct (m st) as [[a|e] s1]; simpl in *; [exact Hm|].
  destruct (c e); simpl; [|exact Hm].
  rewrite (Hh e s1). exact Hm.
Qed.

Lemma stable_when (c : bool) (m : M (@row_state D) unit) :
  stable part m -> stable part (when c m).
Proof. intros Hm. destruct c; [exact Hm | apply stable_ret]. Qed.

Lemma stable_for_each {A} (l : list A) (body : A -> M (@row_state D) unit) :
  (forall a, stable part (body a)) -> stable part (for_each l body).
Proof.
  intros Hb. induction l as [|a l IH]; simpl; [apply stable_ret|].
  apply stable_bind; [apply Hb | intros _; exact IH].
Qed.

Lemma stable_set_game (f : Game -> Game) :
  (forall g, part (f g) = part g) -> @stable D X unit part (set_game f).
Proof. intros Hf st. simpl. apply Hf. Qed.

Lemma stable_navigate (link : string) : stable part (navigate link).
Proof.
  intros st. unfold navigate. destruct (Scraper.go_to_link link (driver st)).
  reflexivity.
Qed.

Lemma stable_wait_for_percentage : stable part (wait_for_percentage (D:=D)).
Proof.
  intros st. unfold wait_for_percentage.
  destruct (wait_until check_percentage_loaded (driver st)). reflexivity.
Qed.

End stable_rules.

Ltac stable_step :=
  first
    [ apply stable_bind | apply stable_try_catch | apply stable_when
    | apply stable_for_each | apply stable_ret | apply stable_raise
    | apply stable_lift | apply stable_gets | apply stable_navigate
    | apply stable_wait_for_percentage | apply stable_read
    | apply stable_set_game; intros g; reflexivity
    | apply stable_set_game; intros g; unfold determine_outcome;
      repeat case_match; reflexivity ].

Ltac stable_all := repeat (intros; first [stable_step | case_match]).

(** The state a statement leaves, when run from [st]. *)
Lemma stable_at {X A} (part : Game -> X) (m : M (@row_state D) A) (st st' : row_state)
    (r : result A) :
  stable part m -> m st = (r, st') -> part (game st') = part (game st).
Proof. intros Hm Hrun. specialize (Hm st). now rewrite Hrun in Hm. Qed.

(** The steps of a row that returned. *)
Lemma row_body_steps (outcomes : Z) (url : string) (row : element)
    (st0 st' : @row_state D) :
  row_body outcomes url row st0 = (Ok tt, st') ->
  let game_link := pq_attr "href" (pq_select game_link_selector row) in
  exists st1 st2 st3 st4 st5,
    average_odds_view outcomes game_link st0 = (Ok tt, st1) /\
    teams row st1 = (Ok tt, st2) /\
    scores row st2 = (Ok tt, st3) /\
    metadata outcomes url st3 = (Ok tt, st4) /\
    final_odds outcomes row st4 = (Ok tt, st5) /\
    public_percentage game_link
      {| game := determine_outcome (game st5); driver := driver st5 |} = (Ok tt, st').
Proof.
  unfold row_body. intros Hrun. cbv zeta.
  apply bind_ok in Hrun as ([] & st1 & H1 & Hrun).
  apply bind_ok in Hrun as ([] & st2 & H2 & Hrun).
  apply bind_ok in Hrun as ([] & st3 & H3 & Hrun).
  apply bind_ok in Hrun as ([] & st4 & H4 & Hrun).
  apply bind_ok in Hrun as ([] & st5 & H5 & Hrun).
  apply bind_ok in Hrun as ([] & st6 & H6 & Hrun).
  injection H6 as <-. exists st1, st2, st3, st4, st5. auto 10.
Qed.

(** A row adds nothing, or the game its body left, which passed the
    completeness test. *)
Lemma process_row_cases (url : string) (season : Season) (d : D) (row : element) :
  (process_row url season d row).1 = season \/
  exists st,
    row_body (possible_outcomes season) url row {| game := Game_new; driver := d |}
    = (Ok tt, st) /\
    complete (game st) = true /\
    (process_row url season d row).1 = add_game (game st) season.
Proof.
  unfold process_row.
  destruct (row_body _ _ _ _) as [[[]|e] st] eqn:Hrun; simpl; [|now left].
  destruct (complete (game st)) eqn:Hc; [|now left].
  right. exists st. auto.
Qed.

(** What holds of the game of every row that returned a complete game
    holds of every game that was added. *)
Lemma populate_pages_forall (P : string -> Z -> Game -> Prop) :
  (forall outcomes url row d st,
      row_body outcomes url row {| game := Game_new; driver := d |} = (Ok tt, st) ->
      complete (game st) = true -> P url outcomes (game st)) ->
  forall pages season d,
  exists added,
    games (populate_pages pages season d).1.2 = games season ++ added /\
    Forall (fun g => exists url, url ∈ pages /\ P url (possible_outcomes season) g) added.
Proof.
  intros HP.
  assert (Hrow : forall url season d row,
            possible_outcomes (process_row url season d row).1 = possible_outcomes season /\
            exists added,
              games (process_row url season d row).1 = games season ++ added /\
              Forall (P url (possible_outcomes season)) added).
  { intros url season d row.
    destruct (process_row_cases url season d row) as [->|(st & Hrun & Hc & ->)].
    - split; [reflexivity|]. exists []. now rewrite app_nil_r.
    - split; [reflexivity|]. exists [game st]. split; [reflexivity|].
      constructor; [|constructor]. now apply (HP _ _ row d). }
  assert (Hrows : forall url rows season d,
            possible_outcomes (process_rows url rows season d).1
            = possible_outcomes season /\
            exists added,
              games (process_rows url rows season d).1 = games season ++ added /\
              Forall (P url (possible_outcomes season)) added).
  { intros url rows. induction rows as [|row rows IH]; intros season d; simpl.
    - split; [reflexivity|]. exists []. now rewrite app_nil_r.
    - destruct (Hrow url season d row) as (Hp1 & a1 & Hg1 & Hf1).
      destruct (process_row url season d row) as [s1 d1]. simpl in *.
      destruct (IH s1 d1) as (Hp2 & a2 & Hg2 & Hf2).
      split; [congruence|]. exists (a1 ++ a2).
      split; [rewrite Hg2, Hg1; now rewrite <- app_assoc|].
      apply Forall_app. split; [exact Hf1 | now rewrite <- Hp1]. }
  intros pages. induction pages as [|url pages IH]; intros season d; simpl.
  - exists []. now rewrite app_nil_r.
  - assert (Hmono : forall o g,
              (exists u, u ∈ pages /\ P u o g) -> exists u, u ∈ url :: pages /\ P u o g).
    { intros o g (u & Hin & Hu). exists u. split; [now right | exact Hu]. }
    destruct (Scraper.go_to_link url d) as [[[|]|e] d1]; simpl.
    + destruct (get_html_source d1) as [html_querying|e]; simpl;
        [|exists []; now rewrite app_nil_r].
      destruct (Hrows url (pq_select event_row_selector html_querying) season d1)
        as (Hp1 & a1 & Hg1 & Hf1).
      destruct (process_rows url _ season d1) as [s1 d2]. simpl in *.
      destruct (IH s1 d2) as (a2 & Hg2 & Hf2).
      exists (a1 ++ a2). split; [rewrite Hg2, Hg1; now rewrite <- app_assoc|].
      apply Forall_app. split.
      * eapply Forall_impl; [exact Hf1|]. intros g Hg. exists url. split; [now left|exact Hg].
      * rewrite Hp1 in Hf2. eapply Forall_impl; [exact Hf2|]. intros g. apply Hmono.
    + destruct (IH season d1) as (a2 & Hg2 & Hf2). exists a2. split; [exact Hg2|].
      eapply Forall_impl; [exact Hf2|]. intros g. apply Hmono.
    + exists []. now rewrite app_nil_r.
Qed.

(** *** The draw fields *)

Lemma row_body_keeps_draw (outcomes : Z) (url : string) (row : element) :
  outcomes <> 3 -> stable (D:=D) draw_fields (row_body outcomes url row).
Proof.
  intros Hne. apply Z.eqb_neq in Hne.
  unfold row_body, average_odds_view, average_odds, read_odds, teams, scores,
    metadata, final_odds, final_odds_of, public_percentage.
  rewrite Hne.
  repeat (intros; first [rewrite Hne | progress cbn [when] | stable_step | case_match]).
Qed.

(** Unless the season has three possible outcomes, no game that
    [populate_games_into_season] adds has draw odds, neither from the
    detail page nor from the row. *)
Theorem no_draw_odds_for_two_outcomes (season : Season) (d : D) :
  possible_outcomes season <> 3 ->
  exists added,
    games (populate_games_into_season season d).1.2 = games season ++ added /\
    Forall (fun g => odds_draw g = None /\ final_odds_draw g = None) added.
Proof.
  intros Hne.
  destruct (populate_pages_forall
              (fun _ o g => o <> 3 -> odds_draw g = None /\ final_odds_draw g = None))
    with (pages := urls season) (season := season) (d := d) as (added & Hg & Hall).
  - intros o url row d0 st Hrun _ Ho.
    pose proof (stable_at draw_fields _ _ _ _ (row_body_keeps_draw o url row Ho) Hrun) as Hd.
    unfold draw_fields in Hd. simpl in Hd. now injection Hd as -> ->.
  - exists added. split; [exact Hg|].
    eapply Forall_impl; [exact Hall|]. intros g (u & _ & Hg'). now apply Hg'.
Qed.

(** *** Where a game comes from *)

Lemma metadata_writes (outcomes : Z) (url : string) (st : @row_state D) :
  exists st',
    metadata outcomes url st = (Ok tt, st') /\
    metadata_fields (game st') = (Some url, Some (localtime (driver st)), Some outcomes).
Proof. eexists. split; reflexivity. Qed.

Lemma row_body_metadata (outcomes : Z) (url : string) (row : element)
    (st0 st' : @row_state D) :
  row_body outcomes url row st0 = (Ok tt, st') ->
  exists now, metadata_fields (game st') = (Some url, Some now, Some outcomes).
Proof.
  intros Hrun.
  destruct (row_body_steps _ _ _ _ _ Hrun) as (st1 & st2 & st3 & st4 & st5 & _ & _ & _ & H4 & H5 & H6).
  destruct (metadata_writes outcomes url st3) as (st4' & H4' & Hm).
  rewrite H4 in H4'. injection H4' as <-.
  exists (localtime (driver st3)). rewrite <- Hm.
  assert (K5 : stable (D:=D) metadata_fields (final_odds outcomes row)).
  { unfold final_odds, final_odds_of. stable_all. }
  assert (K6 : forall l, stable (D:=D) metadata_fields (public_percentage l)).
  { intros l. unfold public_percentage. stable_all. }
  rewrite (stable_at _ _ _ _ _ (K6 _) H6). simpl.
  rewrite <- (stable_at _ _ _ _ _ K5 H5).
  unfold metadata_fields, determine_outcome. now repeat case_match.
Qed.

(** Every game that [populate_games_into_season] adds carries the URL of
    one of the season's pages as its retrieval URL, the season's number of
    possible outcomes, and a retrieval time. *)
Theorem added_games_provenance (season : Season) (d : D) :
  exists added,
    games (populate_games_into_season season d).1.2 = games season ++ added /\
    Forall (fun g =>
              (exists url, url ∈ urls season /\ retrieval_url g = Some url) /\
              num_possible_outcomes g = Some (possible_outcomes season) /\
              is_Some (retrieval_datetime g))
      added.
Proof.
  destruct (populate_pages_forall
              (fun url o g => exists now,
                   metadata_fields g = (Some url, Some now, Some o)))
    with (pages := urls season) (season := season) (d := d) as (added & Hg & Hall).
  - intros o url row d0 st Hrun _. now apply (row_body_metadata o url row _ _ Hrun).
  - exists added. split; [exact Hg|].
    eapply Forall_impl; [exact Hall|].
    intros g (url & Hin & now & Hm). unfold metadata_fields in Hm.
    injection Hm as Hu Hd Hn. repeat split; eauto.
Qed.

(** *** Where the odds come from *)

(** The two odds after the statements for the average odds, when both
    were absent before: if both are present, they are the conversions of
    the texts of the first two elements of the slice. *)
Lemma average_odds_reads (outcomes : Z) (game_query : element)
    (st st' : @row_state D) (r : result unit) (v w : Z) :
  odds_fields (game st) = (None, None) ->
  average_odds outcomes game_query st = (r, st') ->
  odds_fields (game st') = (Some v, Some w) ->
  exists e0 e1 rest,
    slice_m6_m3 (pq_select average_odds_selector game_query) = e0 :: e1 :: rest /\
    odds_of_text (pq_text [e0]) = Ok v /\
    odds_of_text (pq_text [e1]) = Ok w.
Proof.
  intros Hnone. unfold average_odds.
  set (elems := slice_m6_m3 (pq_select average_odds_selector game_query)).
  unfold bind at 1.
  match goal with
  | |- context [when (nonempty elems) ?body st] =>
      destruct (when (nonempty elems) body st) as [r1 s1] eqn:H1
  end.
  assert (Hdraw : stable (D:=D) odds_fields
            (when (outcomes =? 3)%Z
               (try_catch (read_odds set_odds_draw (index elems 2))
                  value_or_zero_division (fun _ => ret tt)))).
  { unfold read_odds. stable_all. }
  intros Hrun Hboth.
  assert (Hs1 : odds_fields (game s1) = (Some v, Some w)).
  { destruct r1 as [[]|e].
    - now rewrite <- (stable_at _ _ _ _ _ Hdraw Hrun).
    - now injection Hrun as _ <-. }
  clear Hrun Hboth Hdraw. unfold odds_fields in *.
  injection Hnone as Hh Ha.
  destruct elems as [|e0 [|e1 rest]]; cbn [nonempty when] in H1.
  - injection H1 as _ <-. congruence.
  - exfalso. revert H1.
    unfold bind, try_catch, read_odds, bind, lift, index, set_game, modify, raise; simpl.
    destruct (odds_of_text (pq_text [e0])) as [x|e]; simpl;
      [|destruct (value_or_zero_division e)]; intros [= _ <-]; simpl in Hs1; congruence.
  - exists e0, e1, rest. revert H1.
    unfold bind, try_catch, read_odds, bind, lift, index, set_game, modify, raise; simpl.
    destruct (odds_of_text (pq_text [e0])) as [x|e]; simpl.
    + destruct (odds_of_text (pq_text [e1])) as [y|e]; simpl.
      * intros [= _ <-]. simpl in Hs1. injection Hs1 as -> ->. auto.
      * destruct (value_or_zero_division e); intros [= _ <-]; simpl in Hs1; congruence.
    + destruct (value_or_zero_division e); intros [= _ <-]; simpl in Hs1; congruence.
Qed.

Lemma average_odds_view_reads (outcomes : Z) (game_link : option string)
    (st st' : @row_state D) (r : result unit) (v w : Z) :
  odds_fields (game st) = (None, None) ->
  average_odds_view outcomes game_link st = (r, st') ->
  odds_fields (game st') = (Some v, Some w) ->
  exists l d1 game_query e0 e1 rest,
    link_present game_link = Some l /\
    Scraper.go_to_link (base_url +:+ l +:+ "#home-away;8") (driver st) = (Ok true, d1) /\
    get_html_source d1 = Ok game_query /\
    slice_m6_m3 (pq_select average_odds_selector game_query) = e0 :: e1 :: rest /\
    odds_of_text (pq_text [e0]) = Ok v /\
    odds_of_text (pq_text [e1]) = Ok w.
Proof.
  intros Hnone. unfold average_odds_view.
  destruct (link_present game_link) as [l|].
  2:{ intros [= _ <-] Hboth. congruence. }
  unfold bind at 1. unfold set_game at 1, modify at 1. unfold bind at 1, navigate at 1.
  cbn [driver game].
  destruct (Scraper.go_to_link _ (driver st)) as [[[|]|e] d1] eqn:Hgo; cbn [when].
  - unfold bind at 1, read_source at 1. cbn [driver game].
    destruct (get_html_source d1) as [game_query|e] eqn:Hsrc.
    + unfold try_catch at 1.
      destruct (average_odds outcomes game_query _) as [r1 s1] eqn:Hrun.
      intros Hfin Hboth.
      assert (Hs1 : odds_fields (game s1) = (Some v, Some w)).
      { destruct r1 as [[]|e]; [now injection Hfin as _ <-|].
        cbn [any_exception] in Hfin. now injection Hfin as _ <-. }
      pose proof (fun Hn => average_odds_reads _ _ _ _ _ v w Hn Hrun Hs1) as Hread.
      destruct Hread as (e0 & e1 & rest & Hsl & Hv & Hw); [exact Hnone|].
      exists l, d1, game_query, e0, e1, rest. auto 7.
    + intros [= _ <-] Hboth. exfalso. unfold odds_fields in *. cbn in Hboth. congruence.
  - intros [= _ <-] Hboth. exfalso. unfold odds_fields in *. cbn in Hboth. congruence.
  - intros [= _ <-] Hboth. exfalso. unfold odds_fields in *. cbn in Hboth. congruence.
Qed.


(** The game URL after the statements of the public percentage view. *)
Lemma public_percentage_url (game_link : option string) (st st' : @row_state D)
    (r : result unit) :
  public_percentage game_link st = (r, st') ->
  game_url (game st')
  = match link_present game_link with
    | Some l => Some (base_url +:+ l +:+ "#home-away;1")
    | None => game_url (game st)
    end.
Proof.
  unfold public_percentage. destruct (link_present game_link) as [l|].
  2:{ now intros [= _ <-]. }
  unfold bind at 1. unfold set_game at 1, modify at 1.
  match goal with
  | |- ?m ?s = _ -> _ =>
      intros Hrun; assert (K : stable (D:=D) game_url m) by stable_all;
      now rewrite (stable_at _ _ _ _ _ K Hrun)
  end.
Qed.

Lemma row_body_keeps_odds (outcomes : Z) (url : string) (row : element)
    (st1 st' : @row_state D) (r : result unit) :
  (teams row ;; scores row ;; metadata outcomes url ;; final_odds outcomes row ;;
   set_game determine_outcome ;;
   public_percentage (pq_attr "href" (pq_select game_link_selector row)))%py st1
  = (r, st') ->
  odds_fields (game st') = odds_fields (game st1).
Proof.
  apply stable_at.
  unfold teams, scores, metadata, final_odds, final_odds_of, public_percentage.
  stable_all.
Qed.

(** The odds and the URL of the game of a row that returned a complete
    game. *)
Lemma row_body_odds (outcomes : Z) (url : string) (row : element) (d : D)
    (st : @row_state D) :
  row_body outcomes url row {| game := Game_new; driver := d |} = (Ok tt, st) ->
  complete (game st) = true ->
  odds_read_from_detail_page (D:=D) (game st).
Proof.
  intros Hrun Hc.
  destruct (row_body_steps _ _ _ _ _ Hrun)
    as (st1 & st2 & st3 & st4 & st5 & H1 & _ & _ & _ & _ & H6).
  apply public_percentage_url in H6 as Hurl.
  unfold row_body in Hrun. unfold bind at 1 in Hrun. rewrite H1 in Hrun.
  apply row_body_keeps_odds in Hrun as Hodds.
  unfold complete in Hc. apply andb_prop in Hc as [Hc Hw]. apply andb_prop in Hc as [_ Hv].
  destruct (odds_home (game st)) as [v|] eqn:Ev; [|discriminate].
  destruct (odds_away (game st)) as [w|] eqn:Ew; [|discriminate].
  simpl in Hv, Hw. apply negb_true_iff, Z.eqb_neq in Hv, Hw.
  assert (Hboth : odds_fields (game st1) = (Some v, Some w)).
  { rewrite <- Hodds. unfold odds_fields. now rewrite Ev, Ew. }
  pose proof (fun Hn => average_odds_view_reads _ _ _ _ _ v w Hn H1 Hboth) as Hread.
  destruct Hread as (l & d1 & game_query & e0 & e1 & rest & Hl & Hgo & Hsrc & Hsl & Hv0 & Hw0);
    [reflexivity|].
  rewrite Hl in Hurl.
  exists l, d, d1, game_query, e0, e1, rest, v, w.
  assert (Ht : str_truthy l = true).
  { unfold link_present in Hl. destruct (pq_attr _ _) as [l'|]; [|discriminate].
    destruct (str_truthy l') eqn:Et; [|discriminate]. now injection Hl as <-. }
  auto 12.
Qed.

(** Every game that [populate_games_into_season] adds has the odds of the
    detail page of its row's link: the average odds view of the link
    loaded, the slice [[-6:-3]] of its [p.height-content] elements has at
    least two elements, and [odds_home] and [odds_away] are the conversions
    of the texts of the first two, neither of them zero.  Its [game_url] is
    the public percentage view of the same link. *)
Theorem added_odds_from_detail_page (season : Season) (d : D) :
  exists added,
    games (populate_games_into_season season d).1.2 = games season ++ added /\
    Forall (odds_read_from_detail_page (D:=D)) added.
Proof.
  destruct (populate_pages_forall (fun _ _ g => odds_read_from_detail_page (D:=D) g))
    with (pages := urls season) (season := season) (d := d) as (added & Hg & Hall).
  - intros o url row d0 st Hrun Hc. now apply (row_body_odds o url row d0).
  - exists added. split; [exact Hg|].
    eapply Forall_impl; [exact Hall|]. now intros g (u & _ & Hg').
Qed.

(** *** Rows that add nothing *)

(** A row without a link to [/american-football/], or with an empty one,
    adds no game, whatever else it shows. *)
Theorem row_without_link_adds_nothing (url : string) (season : Season) (d : D)
    (row : element) :
  link_present (pq_attr "href" (pq_select game_link_selector row)) = None ->
  (process_row url season d row).1 = season.
Proof.
  intros Hnone.
  destruct (process_row_cases url season d row) as [Hs|(st & Hrun & Hc & _)]; [exact Hs|].
  exfalso.
  destruct (row_body_steps _ _ _ _ _ Hrun)
    as (st1 & st2 & st3 & st4 & st5 & H1 & _).
  unfold row_body in Hrun. unfold bind at 1 in Hrun. rewrite H1 in Hrun.
  apply row_body_keeps_odds in Hrun as Hodds.
  unfold average_odds_view in H1. rewrite Hnone in H1. injection H1 as <-.
  unfold odds_fields in Hodds. cbn in Hodds. injection Hodds as Hh _.
  unfold complete in Hc. rewrite Hh in Hc. cbn in Hc.
  now rewrite andb_false_r in Hc.
Qed.

(** A loop that returned has run its body, and the body returned, for
    every element. *)
Lemma for_each_ok {S A} (l : list A) (body : A -> M S unit) (s s' : S) (x : A) :
  for_each l body s = (Ok tt, s') -> x ∈ l -> exists s0 s1, body x s0 = (Ok tt, s1).
Proof.
  revert s. induction l as [|y l IH]; intros s Hrun Hin; [now apply elem_of_nil in Hin|].
  simpl in Hrun. apply bind_ok in Hrun as ([] & s1 & Hy & Hrest).
  apply elem_of_cons in Hin as [->|Hin]; [now exists s, s1 | now apply (IH s1)].
Qed.

Lemma enumerate_elem {A} (l : list A) (x : A) :
  x ∈ l -> exists i, (i, x) ∈ enumerate l.
Proof.
  intros Hin. apply list_elem_of_lookup in Hin as (i & Hi).
  exists i. apply list_elem_of_lookup. exists i. unfold enumerate.
  apply lookup_zip_Some. split; [|exact Hi].
  apply lookup_seq. split; [reflexivity|]. now apply lookup_lt_Some in Hi.
Qed.

(** A row one of whose odds texts does not convert adds no game: the
    texts of all the row's odds elements are converted, also of those past
    the third, and the exception ends the row. *)
Theorem unconverted_row_odds_add_nothing (url : string) (season : Season) (d : D)
    (row e : element) (ex : exn) :
  e ∈ pq_select row_odds_selector row ->
  odds_of_text (pq_text [e]) = Raise ex ->
  (process_row url season d row).1 = season.
Proof.
  intros Hin Hraise.
  destruct (process_row_cases url season d row) as [Hs|(st & Hrun & _ & _)]; [exact Hs|].
  exfalso.
  destruct (row_body_steps _ _ _ _ _ Hrun)
    as (st1 & st2 & st3 & st4 & st5 & _ & _ & _ & _ & H5 & _).
  unfold final_odds in H5.
  destruct (enumerate_elem _ _ Hin) as (i & Hi).
  destruct (for_each_ok _ _ _ _ _ H5 Hi) as (s0 & s1 & Hbody).
  unfold final_odds_of, bind, lift in Hbody. rewrite Hraise in Hbody. discriminate.
Qed.

(** *** The odds of the row *)

(** One turn of the loop over the row's odds that returned. *)
Lemma final_odds_of_ok (outcomes : Z) (i : nat) (e : element) (st st' : @row_state D) :
  final_odds_of outcomes (i, e) st = (Ok tt, st') ->
  exists v,
    odds_of_text (pq_text [e]) = Ok v /\
    game st' = match i with
               | 0%nat => set_final_odds_home (Some v) (game st)
               | 1%nat => set_final_odds_away (Some v) (game st)
               | 2%nat => if (outcomes =? 3)%Z
                          then set_final_odds_draw (Some v) (game st) else game st
               | _ => game st
               end.
Proof.
  unfold final_odds_of, bind, lift.
  destruct (odds_of_text (pq_text [e])) as [v|ex]; [|discriminate].
  intros Hrun. exists v. split; [reflexivity|].
  destruct i as [|[|[|i]]]; try destruct (outcomes =? 3)%Z; now injection Hrun as <-.
Qed.

(** The turns from the fourth on assign nothing. *)
Lemma final_odds_tail (outcomes : Z) (rest : list element) (k : nat) :
  (3 <= k)%nat ->
  stable (D:=D) final_fields
    (for_each (zip (seq k (length rest)) rest) (final_odds_of outcomes)).
Proof.
  revert k. induction rest as [|e rest IH]; intros k Hk; simpl; [apply stable_ret|].
  apply stable_bind; [|intros _; apply IH; lia].
  destruct k as [|[|[|k]]]; try lia. unfold final_odds_of. stable_all.
Qed.

Lemma final_odds_reads (outcomes : Z) (row : element) (st st' : @row_state D) :
  final_fields (game st) = (None, None, None) ->
  final_odds outcomes row st = (Ok tt, st') ->
  row_odds_read outcomes row (game st').
Proof.
  unfold final_odds, row_odds_read, enumerate, converted, final_fields.
  intros [= Hh Ha Hd].
  destruct (pq_select row_odds_selector row) as [|e0 [|e1 [|e2 rest]]]; simpl; intros Hrun.
  - injection Hrun as <-. rewrite Hh, Ha, Hd. now destruct (outcomes =? 3)%Z.
  - apply bind_ok in Hrun as ([] & s1 & H0' & Hrun). injection Hrun as <-.
    apply (final_odds_of_ok outcomes 0 e0) in H0' as (v & Hv & ->). simpl.
    rewrite Ha, Hd. split; [eauto|]. now destruct (outcomes =? 3)%Z.
  - apply bind_ok in Hrun as ([] & s1 & H0' & Hrun).
    apply bind_ok in Hrun as ([] & s2 & H1' & Hrun). injection Hrun as <-.
    apply (final_odds_of_ok outcomes 0 e0) in H0' as (v & Hv & E1).
    apply (final_odds_of_ok outcomes 1 e1) in H1' as (w & Hw & ->). rewrite E1. simpl.
    rewrite Hd. split; [eauto|]. split; [eauto|]. now destruct (outcomes =? 3)%Z.
  - apply bind_ok in Hrun as ([] & s1 & H0' & Hrun).
    apply bind_ok in Hrun as ([] & s2 & H1' & Hrun).
    apply bind_ok in Hrun as ([] & s3 & H2' & Hrun).
    pose proof (stable_at _ _ _ _ _ (final_odds_tail outcomes rest 3 (le_n 3)) Hrun) as Htail.
    apply (final_odds_of_ok outcomes 0 e0) in H0' as (v & Hv & E1).
    apply (final_odds_of_ok outcomes 1 e1) in H1' as (w & Hw & E2).
    apply (final_odds_of_ok outcomes 2 e2) in H2' as (x & Hx & E3).
    unfold final_fields in Htail. injection Htail as -> -> ->.
    rewrite E3. destruct (outcomes =? 3)%Z; rewrite ?E2, ?E1; simpl; eauto 10.
Qed.

Lemma row_body_row_odds (outcomes : Z) (url : string) (row : element) (d : D)
    (st : @row_state D) :
  row_body outcomes url row {| game := Game_new; driver := d |} = (Ok tt, st) ->
  row_odds_read outcomes row (game st).
Proof.
  intros Hrun.
  destruct (row_body_steps _ _ _ _ _ Hrun)
    as (st1 & st2 & st3 & st4 & st5 & H1 & H2 & H3 & H4 & H5 & H6).
  assert (K1 : forall l, stable (D:=D) final_fields (average_odds_view outcomes l)).
  { intros l. unfold average_odds_view, average_odds, read_odds. stable_all. }
  assert (K2 : stable (D:=D) final_fields (teams row)) by (unfold teams; stable_all).
  assert (K3 : stable (D:=D) final_fields (scores row)) by (unfold scores; stable_all).
  assert (K4 : stable (D:=D) final_fields (metadata outcomes url))
    by (unfold metadata; stable_all).
  assert (K6 : forall l, stable (D:=D) final_fields (public_percentage l)).
  { intros l. unfold public_percentage. stable_all. }
  assert (Hnone : final_fields (game st4) = (None, None, None)).
  { rewrite (stable_at _ _ _ _ _ K4 H4), (stable_at _ _ _ _ _ K3 H3),
      (stable_at _ _ _ _ _ K2 H2), (stable_at _ _ _ _ _ (K1 _) H1). reflexivity. }
  pose proof (final_odds_reads _ _ _ _ Hnone H5) as Hread.
  apply (stable_at _ _ _ _ _ (K6 _)) in H6. cbn [game] in H6.
  assert (Hsame : final_fields (game st) = final_fields (game st5)).
  { rewrite H6. unfold final_fields, determine_outcome. now repeat case_match. }
  unfold final_fields in Hsame. injection Hsame as Eh Ea Ed.
  unfold row_odds_read in *. now rewrite Eh, Ea, Ed.
Qed.

(** The row odds of the game a row adds are the conversions of the texts
    of the row's first odds elements: [final_odds_home] of the first,
    [final_odds_away] of the second, and, in a season of three possible
    outcomes, [final_odds_draw] of the third; a field whose element the row
    does not have stays absent. *)
Theorem added_game_row_odds (url : string) (season : Season) (d : D) (row : element) :
  (process_row url season d row).1 = season \/
  exists g,
    (process_row url season d row).1 = add_game g season /\
    row_odds_read (possible_outcomes season) row g.
Proof.
  destruct (process_row_cases url season d row) as [Hs|(st & Hrun & _ & Hadd)];
    [now left|].
  right. exists (game st). split; [exact Hadd|].
  now apply (row_body_row_odds _ url row d).
Qed.
End more.

Import Static Examples.

(** The results page of the examples loads: it has a table. *)
Lemma go_to_link_true_finds_witness :
  exists sel, sel ∈ Scraper.probe_selectors /\
    is_ok (find_element sel (Scraper.go_to_link nfl_url (nfl_site "3–1")).2) = true.
Proof.
  apply (go_to_link_true_finds nfl_url (nfl_site "3–1")). vm_compute. reflexivity.
Defined.

(** The browser without name resolution has loaded three times. *)
Lemma unresolved_name_three_loads_witness :
  Scraper.go_to_link nfl_url 0%nat = (Ok false, 3%nat).
Proof.
  change (Scraper.go_to_link nfl_url 0%nat = (Ok false, load_times 3 nfl_url 0%nat)).
  apply (unresolved_name_three_loads nfl_url 0%nat).
  intros d0. exists (WebDriverException name_not_resolved). repeat split.
Defined.

(** The season of the examples has two possible outcomes. *)
Lemma no_draw_odds_for_two_outcomes_witness :
  exists added,
    games (populate_games_into_season nfl_season (nfl_site "3–1")).1.2
    = games nfl_season ++ added /\
    Forall (fun g => odds_draw g = None /\ final_odds_draw g = None) added.
Proof.
  apply (no_draw_odds_for_two_outcomes nfl_season (nfl_site "3–1")). discriminate.
Defined.

(** A row of another sport on the page of the examples. *)
Lemma row_without_link_adds_nothing_witness :
  (process_row nfl_url nfl_season (nfl_site "3–1") hockey_row).1 = nfl_season.
Proof.
  apply (row_without_link_adds_nothing nfl_url nfl_season (nfl_site "3–1") hockey_row).
  vm_compute. reflexivity.
Defined.

(** The row of the examples with [1] as its second odds: the conversion
    divides by zero. *)
Lemma unconverted_row_odds_add_nothing_witness :
  (process_row nfl_url nfl_season (nfl_site "3–1") (event_row_with_odds "1.91" "1")).1
  = nfl_season.
Proof.
  apply (unconverted_row_odds_add_nothing nfl_url nfl_season (nfl_site "3–1")
           (event_row_with_odds "1.91" "1")
           (leaf "p" [("class", "height-content !text-black-main")] "1")
           ZeroDivisionError).
  - replace (pq_select row_odds_selector (event_row_with_odds "1.91" "1"))
      with [leaf "p" [("class", "height-content !text-black-main")] "1.91";
            leaf "p" [("class", "height-content !text-black-main")] "1"]
      by (vm_compute; reflexivity).
    apply list_elem_of_further, list_elem_of_here.
  - vm_compute. reflexivity.
Defined.

(** On the browser that loses its session the run ends with the
    [WebDriverException] of reading the source of the season's page. *)
Lemma populate_raises_outside_rows_witness :
  exists url d0,
    url ∈ urls nfl_season /\
    ((exists d1, Scraper.go_to_link url d0 = (Raise (WebDriverException invalid_session), d1) /\
                 webdriver_exception (WebDriverException invalid_session) = false) \/
     (exists d1 : unit,
        Scraper.go_to_link url d0 = (Ok true, d1) /\
        get_html_source d1 = Raise (WebDriverException invalid_session))).
Proof.
  apply (populate_raises_outside_rows nfl_season tt (WebDriverException invalid_session)).
  reflexivity.
Defined.
End ScraperMore.
